(** * Batched crawl-and-change-detection engine: a shallow embedding

    The development follows the TypeScript sources of the backup worker:

    - [src/backup/fetcher.ts]   ([BackupFetcher]: sitemap resolution, the
      resumable batch state machine, change detection, persistence);
    - [src/diff/comparer.ts]    ([ContentComparer]: content normalization);
    - [src/diff/normalizer.ts]  ([ContentNormalizer.normalizeHTML]);
    - [src/diff/generator.ts]   ([DiffGenerator.limitChanges]).

    JavaScript strings are modelled by [string], read as sequences of code
    units below 256; JavaScript numbers that hold counts, offsets and
    priorities are modelled by [Z], and the one quotient the worker
    computes is rounded as doubles are; the key-value namespace is a
    [gmap string string]. The regex literals of the sources are read by
    the matcher of [RegExp]; patterns that come with a site's
    configuration are compiled by the host. *)

From Stdlib Require Import ZArith String Ascii List Lia Permutation Sorted.
From stdpp Require Import gmap strings list fin_maps pretty.

Local Open Scope string_scope.
Local Open Scope list_scope.
Local Open Scope Z_scope.

(** ** JavaScript array and string primitives *)

Module JS.

(** [Array.prototype.slice]: a negative index counts from the end, every
    index is clamped to the array, and an empty range yields []. *)
Definition relIndex (len i : Z) : Z :=
  if i <? 0 then Z.max (len + i) 0 else Z.min i len.

Definition slice {A : Type} (l : list A) (start stop : Z) : list A :=
  let len := Z.of_nat (length l) in
  let k := relIndex len start in
  let final := relIndex len stop in
  take (Z.to_nat (final - k)) (drop (Z.to_nat k) l).

(** [Array.prototype.sort(cmp)]: the sort is stable, so for a comparator
    that is a consistent ordering its result is the stable insertion sort;
    [cmp a b <= 0] keeps [a] in front of [b]. *)
Fixpoint insertBy {A : Type} (cmp : A -> A -> Z) (x : A) (l : list A) : list A :=
  match l with
  | [] => [x]
  | y :: l' => if cmp x y <=? 0 then x :: l else y :: insertBy cmp x l'
  end.

Definition sort {A : Type} (cmp : A -> A -> Z) (l : list A) : list A :=
  foldr (insertBy cmp) [] l.

(** Truthiness of a string value: only the empty string is falsy. *)
Definition truthy (s : string) : bool := negb (String.eqb s EmptyString).

(** The integer nearest to [a / b] for a positive [b], the even one of
    two that are equally near. *)
Definition roundHalfEven (a b : Z) : Z :=
  let q := a / b in
  let r := a mod b in
  if 2 * r <? b then q
  else if b <? 2 * r then q + 1
  else if Z.even q then q else q + 1.

(** The double nearest to the fraction [num / den] for a positive
    [den], as a fraction of integers: a significand of 53 bits times a
    power of two. This is the result of a division or a multiplication
    of doubles whose exact result is [num / den], as long as it is in
    the range of normal doubles. *)
Definition double (num den : Z) : Z * Z :=
  if num =? 0 then (0, 1)
  else
    let a := Z.abs num in
    let e0 := Z.log2 a - Z.log2 den - 53 in
    let e :=
      if (if 0 <=? e0 then 2 ^ 53 * den * 2 ^ e0 <=? a
          else 2 ^ 53 * den <=? a * 2 ^ (- e0))
      then e0 + 1 else e0 in
    if 0 <=? e
    then (Z.sgn num * roundHalfEven a (den * 2 ^ e) * 2 ^ e, 1)
    else (Z.sgn num * roundHalfEven (a * 2 ^ (- e)) den, 2 ^ (- e)).

(** [Math.round] of the fraction [n / d] for a positive [d]: the nearest
    integer, the upper one of two that are equally near. *)
Definition round (n d : Z) : Z := (2 * n + d) / (2 * d).

(** [a || b] on optional strings ([undefined] and the empty string are falsy). *)
Definition orElse (a b : option string) : option string :=
  match a with
  | Some s => if truthy s then a else b
  | None => b
  end.

End JS.

(** ** Regular expressions (the part of ECMAScript [RegExp] the sources use) *)

Module RegExp.

Definition code (c : ascii) : N := N_of_ascii c.
Definition inRange (lo hi : N) (c : ascii) : bool :=
  ((lo <=? code c) && (code c <=? hi))%N.

(** [\d], [\w], [\s] and the line terminators, on code units below 256. *)
Definition isDigit (c : ascii) : bool := inRange 48 57 c.
Definition isWordChar (c : ascii) : bool :=
  isDigit c || inRange 65 90 c || inRange 97 122 c || (code c =? 95)%N.
Definition isSpace (c : ascii) : bool :=
  inRange 9 13 c || (code c =? 32)%N || (code c =? 160)%N.
Definition isLineTerminator (c : ascii) : bool :=
  (code c =? 10)%N || (code c =? 13)%N.

(** [toUpperCase] / [toLowerCase] of one code unit below 256; 181 and 255
    have their upper case outside this range and canonicalize to
    themselves, 223 has a two-unit upper case and does too. *)
Definition isLower (c : ascii) : bool :=
  inRange 97 122 c || (inRange 224 254 c && negb (code c =? 247)%N).
Definition isUpper (c : ascii) : bool :=
  inRange 65 90 c || (inRange 192 222 c && negb (code c =? 215)%N).
Definition toUpper (c : ascii) : ascii :=
  if isLower c then ascii_of_N (code c - 32) else c.
Definition toLower (c : ascii) : ascii :=
  if isUpper c then ascii_of_N (code c + 32) else c.

(** Character sets, kept first-order so that compiled patterns can be
    inspected. *)
Inductive cset :=
| CNone
| CUnit (n : N)
| CRange (lo hi : N)
| CDigit
| CWord
| CSpace
| CLineTerminator
| CUnion (a b : cset)
| CNot (a : cset)
| CFold (a : cset).

(** [CFold a] is [a] under the i flag: a code unit belongs to it when a
    member of [a] has the same canonical (upper-case) form. *)
Fixpoint accepts (cs : cset) (x : ascii) : bool :=
  match cs with
  | CNone => false
  | CUnit n => (code x =? n)%N
  | CRange lo hi => ((lo <=? code x) && (code x <=? hi))%N
  | CDigit => isDigit x
  | CWord => isWordChar x
  | CSpace => isSpace x
  | CLineTerminator => isLineTerminator x
  | CUnion a b => accepts a x || accepts b x
  | CNot a => negb (accepts a x)
  | CFold a => accepts a x || accepts a (toUpper x) || accepts a (toLower x)
  end.

Inductive re :=
| Empty
| Char (cs : cset)
| Seq (a b : re)
| Alt (a b : re)
| Star (greedy : bool) (a : re)
| WordBoundary (expected : bool)
| BeginInput
| EndInput
| Look (expected : bool) (a : re)
| Group (index : nat) (a : re)
| Clear (indexes : list nat).

(** A position in the subject: the code unit before it (if any) and the
    rest of the subject, with what the capturing groups have matched so
    far, the latest first; a group without an entry is [undefined]. *)
Record Pos := {
  before : option ascii;
  after : list ascii;
  captures : list (nat * list ascii)
}.

Definition wordBefore (p : Pos) : bool :=
  match before p with Some c => isWordChar c | None => false end.
Definition wordAfter (p : Pos) : bool :=
  match after p with c :: _ => isWordChar c | [] => false end.

(** The group [index] has matched the text between [p] and [q]. *)
Definition capture (index : nat) (p q : Pos) : Pos :=
  {| before := before q; after := after q;
     captures :=
       (index, take (length (after p) - length (after q)) (after p))
         :: captures q |}.

(** The groups [indexes] are [undefined] again. *)
Definition clear (indexes : list nat) (p : Pos) : Pos :=
  {| before := before p; after := after p;
     captures :=
       List.filter (fun e => negb (existsb (Nat.eqb (fst e)) indexes))
                   (captures p) |}.

(** One quantified atom [a*] or [a*?]: [step] matches one iteration of
    [a]; an iteration that consumes nothing is rejected, so [n] iterations
    are enough for a subject of fewer than [n] code units. *)
Definition starLoop (step : (Pos -> option Pos) -> Pos -> option Pos)
    (greedy : bool) (k : Pos -> option Pos) : nat -> Pos -> option Pos :=
  fix loop (n : nat) (p : Pos) {struct n} : option Pos :=
    match n with
    | O => k p
    | S n' =>
        let again :=
          step (fun q =>
                  if (length (after q) <? length (after p))%nat
                  then loop n' q else None) p in
        if greedy
        then match again with Some q => Some q | None => k p end
        else match k p with Some q => Some q | None => again end
    end.

(** Backtracking matcher in continuation style: alternatives are tried in
    order, a greedy quantifier tries one more iteration first. *)
Fixpoint run (r : re) (k : Pos -> option Pos) (p : Pos) : option Pos :=
  match r with
  | Empty => k p
  | Char cs =>
      match after p with
      | c :: rest =>
          if accepts cs c
          then k {| before := Some c; after := rest; captures := captures p |}
          else None
      | [] => None
      end
  | Seq a b => run a (run b k) p
  | Alt a b =>
      match run a k p with
      | Some q => Some q
      | None => run b k p
      end
  | Star greedy a => starLoop (run a) greedy k (S (length (after p))) p
  | WordBoundary expected =>
      if Bool.eqb (xorb (wordBefore p) (wordAfter p)) expected then k p else None
  | BeginInput => match before p with None => k p | Some _ => None end
  | EndInput => match after p with [] => k p | _ :: _ => None end
  | Look expected a =>
      match run a Some p with
      | Some q =>
          if expected
          then k {| before := before p; after := after p; captures := captures q |}
          else None
      | None => if expected then None else k p
      end
  | Group index a => run a (fun q => k (capture index p q)) p
  | Clear indexes => k (clear indexes p)
  end.

Definition exec (r : re) (p : Pos) : option Pos := run r Some p.

(** [regex.test(s)] for a regex without the g flag. *)
Fixpoint searchFrom (r : re) (prev : option ascii) (s : list ascii) : bool :=
  match exec r {| before := prev; after := s; captures := [] |} with
  | Some _ => true
  | None =>
      match s with
      | [] => false
      | c :: s' => searchFrom r (Some c) s'
      end
  end.

Definition test (r : re) (s : string) : bool :=
  searchFrom r None (list_ascii_of_string s).

(** [s.replace(regex, replacement)] for a regex with the g flag and a
    replacement without [$] patterns: matches are found left to right,
    an empty match advances by one code unit. [skip] counts the code
    units of the current match still to be dropped. *)
Fixpoint replaceFrom (r : re) (rep : list ascii) (skip : nat)
    (prev : option ascii) (s : list ascii) : list ascii :=
  match skip with
  | S n =>
      match s with
      | [] => []
      | c :: s' => replaceFrom r rep n (Some c) s'
      end
  | O =>
      match exec r {| before := prev; after := s; captures := [] |} with
      | Some q =>
          match (length s - length (after q))%nat with
          | O => rep ++ match s with
                        | [] => []
                        | c :: s' => c :: replaceFrom r rep 0 (Some c) s'
                        end
          | S n => rep ++ match s with
                          | [] => []
                          | c :: s' => replaceFrom r rep n (Some c) s'
                          end
          end
      | None =>
          match s with
          | [] => []
          | c :: s' => c :: replaceFrom r rep 0 (Some c) s'
          end
      end
  end.

Definition replaceAll (r : re) (replacement s : string) : string :=
  string_of_list_ascii
    (replaceFrom r (list_ascii_of_string replacement) 0 None
       (list_ascii_of_string s)).

(** What group [n] has matched, the empty text when it is [undefined]. *)
Definition captured (caps : list (nat * list ascii)) (n : nat) : list ascii :=
  match List.find (fun e => Nat.eqb (fst e) n) caps with
  | Some e => snd e
  | None => []
  end.

Definition digit (c : ascii) : nat := N.to_nat (code c - 48).

(** [GetSubstitution]: the text that stands for one match, for a pattern
    with [groups] capturing groups. [$$] is a dollar sign, [$&] the
    match, [$`] and [$'] the text before and after it, [$n] and [$nn]
    the group of that number when the pattern has one (two digits are
    read as one digit and a literal digit when the pattern has fewer
    groups); any other [$] stands for itself. *)
Fixpoint substitute (groups : nat) (caps : list (nat * list ascii))
    (matched preceding following rep : list ascii) {struct rep} : list ascii :=
  match rep with
  | [] => []
  | c :: rest =>
      if negb (Ascii.eqb c "$") then
        c :: substitute groups caps matched preceding following rest
      else
        match rest with
        | [] => [c]
        | d :: rest1 =>
            let single :=
              if ((1 <=? digit d) && (digit d <=? groups))%nat
              then captured caps (digit d)
                     ++ substitute groups caps matched preceding following rest1
              else c :: d :: substitute groups caps matched preceding following rest1 in
            if Ascii.eqb d "$" then
              c :: substitute groups caps matched preceding following rest1
            else if Ascii.eqb d "&" then
              matched ++ substitute groups caps matched preceding following rest1
            else if Ascii.eqb d "`" then
              preceding ++ substitute groups caps matched preceding following rest1
            else if Ascii.eqb d "'" then
              following ++ substitute groups caps matched preceding following rest1
            else if isDigit d then
              match rest1 with
              | e :: rest2 =>
                  let index := (10 * digit d + digit e)%nat in
                  if isDigit e && (index <=? groups)%nat then
                    if (1 <=? index)%nat
                    then captured caps index
                           ++ substitute groups caps matched preceding following rest2
                    else c :: d :: e
                           :: substitute groups caps matched preceding following rest2
                  else single
              | [] => single
              end
            else c :: substitute groups caps matched preceding following rest
        end
  end.

(** [s.replace(regex, replacement)] for a regex with the g flag and
    [groups] capturing groups, the replacement read by [substitute].
    [seen] holds the code units in front of the position, the nearest
    first. *)
Fixpoint replaceGroupsFrom (r : re) (groups : nat) (rep : list ascii) (skip : nat)
    (seen : list ascii) (s : list ascii) : list ascii :=
  match skip with
  | S n =>
      match s with
      | [] => []
      | c :: s' => replaceGroupsFrom r groups rep n (c :: seen) s'
      end
  | O =>
      match exec r {| before := head seen; after := s; captures := [] |} with
      | Some q =>
          let size := (length s - length (after q))%nat in
          let text :=
            substitute groups (captures q) (take size s) (rev seen) (after q) rep in
          match size with
          | O => text ++ match s with
                         | [] => []
                         | c :: s' =>
                             c :: replaceGroupsFrom r groups rep 0 (c :: seen) s'
                         end
          | S n => text ++ match s with
                           | [] => []
                           | c :: s' => replaceGroupsFrom r groups rep n (c :: seen) s'
                           end
          end
      | None =>
          match s with
          | [] => []
          | c :: s' => c :: replaceGroupsFrom r groups rep 0 (c :: seen) s'
          end
      end
  end.

Definition replaceGroups (r : re) (groups : nat) (replacement s : string) : string :=
  string_of_list_ascii
    (replaceGroupsFrom r groups (list_ascii_of_string replacement) 0 []
       (list_ascii_of_string s)).

(** *** Pattern syntax *)

(** The capturing groups inside a term. *)
Fixpoint groupsOf (r : re) : list nat :=
  match r with
  | Group index a => index :: groupsOf a
  | Seq a b | Alt a b => groupsOf a ++ groupsOf b
  | Star _ a | Look _ a => groupsOf a
  | _ => []
  end.

(** One iteration of a quantified atom: the groups inside the atom are
    [undefined] when it starts. *)
Definition iteration (a : re) : re :=
  match groupsOf a with
  | [] => a
  | indexes => Seq (Clear indexes) a
  end.

(** The number of capturing groups that open in a piece of pattern text:
    the left parentheses outside classes that are neither escaped nor
    followed by a question mark. *)
Fixpoint opens (inClass : bool) (s : list ascii) : nat :=
  match s with
  | [] => O
  | c :: s' =>
      if Ascii.eqb c "\" then
        match s' with
        | _ :: s'' => opens inClass s''
        | [] => O
        end
      else if inClass then opens (negb (Ascii.eqb c "]")) s'
      else if Ascii.eqb c "[" then opens true s'
      else if Ascii.eqb c "(" then
        match s' with
        | "?"%char :: _ => opens false s'
        | _ => S (opens false s')
        end
      else opens false s'
  end.

(** Quantifier expansion: [a{lo}] followed by [count] optional iterations
    or by a star. *)
Fixpoint times (n : nat) (a : re) : re :=
  match n with
  | O => Empty
  | S n' => Seq a (times n' a)
  end.

Fixpoint upTo (greedy : bool) (n : nat) (a : re) : re :=
  match n with
  | O => Empty
  | S n' =>
      if greedy then Alt (Seq a (upTo greedy n' a)) Empty
      else Alt Empty (Seq a (upTo greedy n' a))
  end.

Definition repeat (a : re) (lo : nat) (hi : option nat) (greedy : bool) : re :=
  match hi with
  | None => Seq (times lo a) (Star greedy a)
  | Some h => Seq (times lo a) (upTo greedy (h - lo) a)
  end.

Definition hexValue (c : ascii) : option N :=
  if isDigit c then Some (code c - 48)%N
  else if inRange 97 102 c then Some (code c - 87)%N
  else if inRange 65 70 c then Some (code c - 55)%N
  else None.

Fixpoint hexDigits (n : nat) (acc : N) (s : list ascii) : option (N * list ascii) :=
  match n with
  | O => Some (acc, s)
  | S n' =>
      match s with
      | c :: s' =>
          match hexValue c with
          | Some v => hexDigits n' (acc * 16 + v)%N s'
          | None => None
          end
      | [] => None
      end
  end.

Fixpoint decDigits (acc : option nat) (s : list ascii) : option nat * list ascii :=
  match s with
  | c :: s' =>
      if isDigit c
      then decDigits (Some (default 0%nat acc * 10 + N.to_nat (code c - 48))%nat) s'
      else (acc, s)
  | [] => (acc, s)
  end.

(** An escape denotes one code unit or one of the built-in classes. *)
Inductive escape :=
| EUnit (n : N)
| EClass (cs : cset)
| EBoundary (expected : bool).

(** [inClass] says whether the escape stands inside [[...]], where [\b] is
    the backspace. Back-references and named groups are not covered: such
    a pattern is reported as one that does not compile. *)
Definition parseEscape (inClass : bool) (s : list ascii) : option (escape * list ascii) :=
  match s with
  | [] => None
  | c :: s' =>
      if Ascii.eqb c "d" then Some (EClass CDigit, s')
      else if Ascii.eqb c "D" then Some (EClass (CNot CDigit), s')
      else if Ascii.eqb c "w" then Some (EClass CWord, s')
      else if Ascii.eqb c "W" then Some (EClass (CNot CWord), s')
      else if Ascii.eqb c "s" then Some (EClass CSpace, s')
      else if Ascii.eqb c "S" then Some (EClass (CNot CSpace), s')
      else if Ascii.eqb c "b" then
        Some (if inClass then EUnit 8 else EBoundary true, s')
      else if Ascii.eqb c "B" then
        if inClass then None else Some (EBoundary false, s')
      else if Ascii.eqb c "t" then Some (EUnit 9, s')
      else if Ascii.eqb c "n" then Some (EUnit 10, s')
      else if Ascii.eqb c "v" then Some (EUnit 11, s')
      else if Ascii.eqb c "f" then Some (EUnit 12, s')
      else if Ascii.eqb c "r" then Some (EUnit 13, s')
      else if Ascii.eqb c "0" then Some (EUnit 0, s')
      else if Ascii.eqb c "x" then
        match hexDigits 2 0 s' with
        | Some (n, s'') => Some (EUnit n, s'')
        | None => Some (EUnit (code c), s')
        end
      else if Ascii.eqb c "u" then
        match hexDigits 4 0 s' with
        | Some (n, s'') => Some (EUnit n, s'')
        | None => Some (EUnit (code c), s')
        end
      else if isDigit c || Ascii.eqb c "k" || Ascii.eqb c "c" then None
      else Some (EUnit (code c), s')
  end.

Section Syntax.
(** The i flag. *)
Variable ignoreCase : bool.
(** The number of capturing groups of the whole pattern. *)
Variable groups : nat.

Definition fold (cs : cset) : cset := if ignoreCase then CFold cs else cs.

Definition escapeSet (e : escape) : cset :=
  match e with
  | EUnit n => CUnit n
  | EClass cs => cs
  | EBoundary _ => CNone
  end.

(** One member of a class, as a code unit when it can start a range. *)
Definition classAtom (s : list ascii) : option (escape * list ascii) :=
  match s with
  | [] => None
  | c :: s' =>
      if Ascii.eqb c "\" then parseEscape true s'
      else Some (EUnit (code c), s')
  end.

(** The members of [[...]] after the optional [^], up to the closing
    bracket. *)
Fixpoint classItems (fuel : nat) (acc : cset) (s : list ascii)
  : option (cset * list ascii) :=
  match fuel with
  | O => None
  | S fuel' =>
      match s with
      | [] => None
      | c :: s' =>
          if Ascii.eqb c "]" then Some (acc, s')
          else
            match classAtom s with
            | None => None
            | Some (lo, s1) =>
                let single := CUnion acc (escapeSet lo) in
                match s1 with
                | d :: s2 =>
                    if Ascii.eqb d "-" then
                      match s2 with
                      | e :: _ =>
                          if Ascii.eqb e "]" then classItems fuel' single s1
                          else
                            match classAtom s2 with
                            | None => None
                            | Some (hi, s3) =>
                                match lo, hi with
                                | EUnit l, EUnit h =>
                                    if (h <? l)%N then None
                                    else classItems fuel'
                                           (CUnion acc (CRange l h)) s3
                                | _, _ =>
                                    classItems fuel'
                                      (CUnion (CUnion single (CUnit 45)) (escapeSet hi)) s3
                                end
                            end
                      | [] => None
                      end
                    else classItems fuel' single s1
                | [] => None
                end
            end
      end
  end.

Definition parseClass (s : list ascii) : option (re * list ascii) :=
  let '(negated, s0) :=
    match s with
    | c :: s' => if Ascii.eqb c "^" then (true, s') else (false, s)
    | [] => (false, s)
    end in
  match classItems (S (length s0)) CNone s0 with
  | Some (cs, rest) =>
      Some (Char (if negated then CNot (fold cs) else fold cs), rest)
  | None => None
  end.

(** [{n}], [{n,}] and [{n,m}]; anything else after [{] is not a
    quantifier. *)
Definition parseBraces (s : list ascii) : option (nat * option nat * list ascii) :=
  match decDigits None s with
  | (Some lo, c :: s1) =>
      if Ascii.eqb c "}" then Some (lo, Some lo, s1)
      else if Ascii.eqb c "," then
        match decDigits None s1 with
        | (None, d :: s2) =>
            if Ascii.eqb d "}" then Some (lo, None, s2) else None
        | (Some hi, d :: s2) =>
            if Ascii.eqb d "}" then Some (lo, Some hi, s2) else None
        | _ => None
        end
      else None
  | _ => None
  end.

Definition lazyMark (s : list ascii) : bool * list ascii :=
  match s with
  | c :: s' => if Ascii.eqb c "?" then (false, s') else (true, s)
  | [] => (true, s)
  end.

(** The quantifier, if any, that follows an atom; [None] is a syntax
    error ([{2,1}]). *)
Definition parseQuantifier (a : re) (s : list ascii) : option (re * list ascii) :=
  let each := iteration a in
  match s with
  | c :: s' =>
      if Ascii.eqb c "*" then
        let '(g, s1) := lazyMark s' in Some (Star g each, s1)
      else if Ascii.eqb c "+" then
        let '(g, s1) := lazyMark s' in Some (Seq each (Star g each), s1)
      else if Ascii.eqb c "?" then
        let '(g, s1) := lazyMark s' in Some (upTo g 1 each, s1)
      else if Ascii.eqb c "{" then
        match parseBraces s' with
        | Some (lo, hi, s1) =>
            let '(g, s2) := lazyMark s1 in
            match hi with
            | Some h => if (h <? lo)%nat then None
                        else Some (repeat each lo hi g, s2)
            | None => Some (repeat each lo hi g, s2)
            end
        | None => Some (a, s)
        end
      else Some (a, s)
  | [] => Some (a, s)
  end.

Definition literal (c : ascii) : re := Char (fold (CUnit (code c))).

(** One term: an assertion or an atom with its quantifier. [disj] parses
    the body of a group up to its closing parenthesis. A capturing group
    is numbered by its left parenthesis: the groups of the pattern less
    those that open after it. *)
Definition parseTerm (disj : list ascii -> option (re * list ascii))
    (s : list ascii) : option (re * list ascii) :=
  let group (wrap : re -> re) (body : list ascii) :=
    match disj body with
    | Some (r, c :: s') =>
        if Ascii.eqb c ")" then parseQuantifier (wrap r) s' else None
    | _ => None
    end in
  match s with
  | [] => None
  | c :: s' =>
      if Ascii.eqb c "^" then Some (BeginInput, s')
      else if Ascii.eqb c "$" then Some (EndInput, s')
      else if Ascii.eqb c "." then
        parseQuantifier (Char (CNot CLineTerminator)) s'
      else if Ascii.eqb c "[" then
        match parseClass s' with
        | Some (r, s1) => parseQuantifier r s1
        | None => None
        end
      else if Ascii.eqb c "\" then
        match parseEscape false s' with
        | Some (EBoundary e, s1) => Some (WordBoundary e, s1)
        | Some (EUnit n, s1) => parseQuantifier (Char (fold (CUnit n))) s1
        | Some (EClass cs, s1) => parseQuantifier (Char cs) s1
        | None => None
        end
      else if Ascii.eqb c "(" then
        match s' with
        | "?"%char :: ":"%char :: body => group (fun r => r) body
        | "?"%char :: "="%char :: body => group (Look true) body
        | "?"%char :: "!"%char :: body => group (Look false) body
        | "?"%char :: _ => None
        | _ => group (Group (groups - opens false s')) s'
        end
      else if Ascii.eqb c "*" || Ascii.eqb c "+" || Ascii.eqb c "?"
              || Ascii.eqb c ")" then None
      else if Ascii.eqb c "{" then
        match parseBraces s' with
        | Some _ => None
        | None => parseQuantifier (literal c) s'
        end
      else parseQuantifier (literal c) s'
  end.

(** A disjunction: alternatives separated by [|], each a sequence of
    terms; parsing stops in front of a closing parenthesis. *)
Fixpoint parseDisjunction (fuel : nat) (s : list ascii) : option (re * list ascii) :=
  match fuel with
  | O => None
  | S fuel' =>
      let alternative :=
        (fix alternative (n : nat) (s : list ascii) : option (re * list ascii) :=
           match n with
           | O => None
           | S n' =>
               match s with
               | [] => Some (Empty, s)
               | c :: _ =>
                   if Ascii.eqb c "|" || Ascii.eqb c ")" then Some (Empty, s)
                   else
                     match parseTerm (parseDisjunction fuel') s with
                     | Some (t, s1) =>
                         match alternative n' s1 with
                         | Some (r, s2) => Some (Seq t r, s2)
                         | None => None
                         end
                     | None => None
                     end
               end
           end) in
      match alternative (S (length s)) s with
      | Some (a, c :: s1) =>
          if Ascii.eqb c "|" then
            match parseDisjunction fuel' s1 with
            | Some (b, s2) => Some (Alt a b, s2)
            | None => None
            end
          else Some (a, c :: s1)
      | other => other
      end
  end.
End Syntax.

(** The number of capturing groups of a pattern. *)
Definition groupCount (source : string) : nat :=
  opens false (list_ascii_of_string source).

(** The regex of a pattern in the part of the syntax covered here:
    [None] for a pattern outside that part (look-behind, named groups,
    back-references, control escapes) and for one that is a SyntaxError.
    The regex literals of the sources are read with it; the patterns of
    a site's configuration are compiled by the host ([newRegExp]). *)
Definition compile (source : string) (ignoreCase : bool) : option re :=
  let s := list_ascii_of_string source in
  match parseDisjunction ignoreCase (opens false s) (S (length s)) s with
  | Some (r, []) => Some r
  | _ => None
  end.

(** A regex literal of the sources; it compiles, so the default is never
    used. *)
Definition regex (source : string) (ignoreCase : bool) : re :=
  default (Char CNone) (compile source ignoreCase).

(** [s.replace(/source/g, replacement)] for a regex literal. *)
Definition replaceLiteral (source : string) (ignoreCase : bool)
    (replacement s : string) : string :=
  replaceGroups (regex source ignoreCase) (groupCount source) replacement s.

End RegExp.

(** ** String helpers *)

Module Str.

(** [s.split(sep)] for a one-unit separator. *)
Fixpoint splitAcc (sep : ascii) (acc : string) (s : string) : list string :=
  match s with
  | EmptyString => [String.rev acc]
  | String c s' =>
      if Ascii.eqb c sep then String.rev acc :: splitAcc sep EmptyString s'
      else splitAcc sep (String c acc) s'
  end.

Definition split (sep : ascii) (s : string) : list string :=
  splitAcc sep EmptyString s.

(** [s.replace(pattern, replacement)] for a string pattern: the first
    occurrence only. *)
Fixpoint replaceFirst (pattern replacement : string) (s : string) : string :=
  if String.prefix pattern s
  then replacement +:+ String.substring (String.length pattern)
                         (String.length s - String.length pattern) s
  else match s with
       | EmptyString => EmptyString
       | String c s' => String c (replaceFirst pattern replacement s')
       end.

Fixpoint dropSpaces (s : list ascii) : list ascii :=
  match s with
  | c :: s' => if RegExp.isSpace c then dropSpaces s' else s
  | [] => []
  end.

(** [s.trim()] *)
Definition trim (s : string) : string :=
  string_of_list_ascii
    (rev (dropSpaces (rev (dropSpaces (list_ascii_of_string s))))).

(** [new Date().toISOString().split('T')[0]] on an ISO timestamp. *)
Definition isoDate (timestamp : string) : string :=
  match split "T" timestamp with
  | d :: _ => d
  | [] => EmptyString
  end.

Definition compareZ (a b : string) : Z :=
  match String.compare a b with
  | Lt => -1
  | Eq => 0
  | Gt => 1
  end.

End Str.

(** ** JSON values and the dynamic reads the sources perform on them *)

#[local] Set Warnings "-register-all".

Inductive Json :=
| JNull
| JBool (b : bool)
| JNum (n : Z)
| JStr (s : string)
| JArr (items : list Json)
| JObj (fields : list (string * Json)).

Module Js.

(** A value read from parsed JSON; [None] is [undefined]. *)
Definition value := option Json.

Definition truthy (v : value) : bool :=
  match v with
  | None | Some JNull => false
  | Some (JBool b) => b
  | Some (JNum n) => negb (n =? 0)
  | Some (JStr s) => JS.truthy s
  | Some (JArr _) | Some (JObj _) => true
  end.

Fixpoint lookup (k : string) (fields : list (string * Json)) : value :=
  match fields with
  | [] => None
  | (k', v) :: rest => if String.eqb k k' then Some v else lookup k rest
  end.

(** [v.k] for a value [v] that is not [null]: only objects carry the
    properties read here. *)
Definition prop (v : Json) (k : string) : value :=
  match v with
  | JObj fields => lookup k fields
  | _ => None
  end.

(** [{...fields, k: v}]: an existing key keeps its place. *)
Fixpoint setField (k : string) (v : Json) (fields : list (string * Json))
  : list (string * Json) :=
  match fields with
  | [] => [(k, v)]
  | (k', v') :: rest =>
      if String.eqb k k' then (k, v) :: rest else (k', v') :: setField k v rest
  end.

(** [a === b] between a parsed value and a string. *)
Definition isString (v : value) (s : string) : bool :=
  match v with
  | Some (JStr s') => String.eqb s' s
  | _ => false
  end.

(** [a !== b] between the two comparable hashes of the change detector:
    values are equal only when both are [undefined] or both are the same
    string (the current side is never anything else). *)
Definition differs (previous : value) (current : option string) : bool :=
  match previous, current with
  | None, None => false
  | Some (JStr a), Some b => negb (String.eqb a b)
  | _, _ => true
  end.

(** [a || b] *)
Definition orElse (a b : value) : value := if truthy a then a else b.

(** The text a header gets when it is set from a stored value; the state
    records written by the worker only hold strings there. *)
Definition headerText (v : value) : string :=
  match v with
  | Some (JStr s) => s
  | Some (JNum n) => pretty n
  | Some (JBool true) => "true"
  | Some (JBool false) => "false"
  | Some JNull => "null"
  | Some (JArr _) | Some (JObj _) => "[object Object]"
  | None => "undefined"
  end.

(** An object literal with optional members: [undefined] members are
    dropped by [JSON.stringify]. *)
Definition object (members : list (string * value)) : Json :=
  JObj (omap (fun '(k, v) => match v with
                             | Some j => Some (k, j)
                             | None => None
                             end) members).

Definition str (s : string) : value := Some (JStr s).
Definition num (n : Z) : value := Some (JNum n).
Definition optStr (s : option string) : value := JStr <$> s.
Definition optNum (n : option Z) : value := JNum <$> n.

End Js.

(** ** The platform the worker runs on *)

(** What the sources read from the result of fast-xml-parser:
    [result.urlset.url] and [result.sitemapindex.sitemap], a missing or
    falsy member being [None], and for each entry its [loc]. *)
Record XmlDoc := {
  urlset_url : option (list (option string));
  sitemapindex_sitemap : option (list (option string))
}.

(** A [RegExp] object the host has made from a pattern that is not part
    of the sources (a pattern of a site's configuration, or one a caller
    passes in): what [regex.test(s)] and [s.replace(regex, replacement)]
    return for it. Such an object carries the flag i, or the flags g and
    i, never the flag y, so neither result depends on [lastIndex]. *)
Module RegExpObject.
Record t := {
  test : string -> bool;
  replace : string -> string -> string
}.
End RegExpObject.

(** Library functions the sources call; [None] stands for a thrown
    exception. *)
Class Platform := {
  (** SHA-256 of the text, as 64 hex digits ([crypto.subtle.digest]) *)
  calculateHash : string -> string;
  JSON_parse : string -> option Json;
  JSON_stringify : Json -> string;
  (** [new XMLParser(...).parse(xmlText)] *)
  parseXml : string -> option XmlDoc;
  (** [minify(html, options)] of html-minifier-terser *)
  minify : string -> option string;
  (** [minify(html, options)] with the option [continueOnParseError] *)
  minifyContinuing : string -> option string;
  (** [new RegExp(source, flags)] *)
  newRegExp : string -> string -> option RegExpObject.t;
  (** [new URL(location, base).href] *)
  resolveUrl : string -> string -> option string;
  (** the ISO timestamp [days] days before the given one
      ([setDate(getDate() - days)]) *)
  minusDays : string -> Z -> string
}.

(** What the worker relies on when it stores records as JSON:
    [JSON.parse] gives back what [JSON.stringify] was given, and the text
    of a value is never empty. *)
Definition JsonRoundTrip `{Platform} : Prop :=
  (forall j, JSON_parse (JSON_stringify j) = Some j) /\
  (forall j, JSON_stringify j <> EmptyString).

(** ** ContentComparer (src/diff/comparer.ts) *)

Module ContentComparer.
Import RegExp.

(** The pattern sources are those of [IGNORE_PATTERNS], with the double
    quote written [\x22] and the en and em dash written [\u2013] and
    [\u2014]. *)
Definition weekday : string :=
  "(?:monday|tuesday|wednesday|thursday|friday|saturday|sunday)".
Definition month : string :=
  "(?:jan(?:uary)?|feb(?:ruary)?|mar(?:ch)?|apr(?:il)?|may|jun(?:e)?|jul(?:y)?|aug(?:ust)?|sep(?:t(?:ember)?)?|oct(?:ober)?|nov(?:ember)?|dec(?:ember)?)".

Definition IGNORE_PATTERNS : list re := [
  regex "\b\d{4}-\d{2}-\d{2}\b" false;
  regex "\b\d{2}:\d{2}:\d{2}\b" false;
  regex "\b\d{4}-\d{2}-\d{2}[tT ]\d{2}:\d{2}(?::\d{2})?(?:\.\d+)?(?:Z|[+-]\d{2}:?\d{2})?\b" false;
  regex "\b\d{1,2}[/-]\d{1,2}[/-]\d{2,4}\b" false;
  regex "\b\d{4}[/-]\d{1,2}[/-]\d{1,2}\b" false;
  regex ("\b" +:+ weekday +:+ "\s*" +:+ month
         +:+ "\s*\d{1,2}(?:st|nd|rd|th)?(?:,\s*)?\s*\d{4}\b") true;
  regex ("\b" +:+ month +:+ "\s*\d{1,2}(?:st|nd|rd|th)?(?:,\s*)?\s*\d{4}\b") true;
  regex ("\b\d{1,2}(?:st|nd|rd|th)?\s*" +:+ month +:+ "\s*\d{4}\b") true;
  regex ("\b" +:+ weekday +:+ "\b\s*(?=\[REDACTED\])") true;
  regex "\b(?:last\s+updated|updated|published|posted|modified|generated)\s*[:\-\u2013\u2014]?\s*(?:today|yesterday|\d+\s+(?:seconds?|minutes?|hours?|days?|weeks?|months?|years?)\s+ago)\b" true;
  regex "timestamp[\x22\s]*[:=][\x22\s]*[\x22']?\d+[\x22']?" true;
  regex "csrf[\x22\s]*[:=][\x22\s]*[\x22'][^\x22']+[\x22']" true;
  regex "_requestid[\x22\s]*[:=][\x22\s]*[\x22'][^\x22']+[\x22']" true;
  regex "data-testid=\x22[^\x22]*\x22" false;
  regex "data-cy=\x22[^\x22]*\x22" false;
  regex "nonce=\x22[^\x22]*\x22" false;
  regex "style=\x22[^\x22]*\x22" false;
  regex "class=\x22[^\x22]*\s+(active|selected|current)\s*[^\x22]*\x22" true;
  regex "\b\d{10,13}\b" false
].

Section WithPlatform.
Context `{Platform}.

(** The custom patterns: each is compiled on its own with the flags gi,
    one that does not compile is skipped. *)
Definition applyCustom (normalized : string) (patternStr : string) : string :=
  match newRegExp patternStr "gi" with
  | Some pattern => RegExpObject.replace pattern normalized "[CUSTOM_IGNORE]"
  | None => normalized
  end.

Definition normalizeContent (content : string) (ignorePatterns : option (list string))
  : string :=
  let normalized := default content (minify content) in
  let normalized :=
    foldl (fun acc pattern => replaceAll pattern "[REDACTED]" acc)
          normalized IGNORE_PATTERNS in
  let normalized :=
    match ignorePatterns with
    | Some patterns => foldl applyCustom normalized patterns
    | None => normalized
    end in
  let normalized := replaceAll (regex "\s+" false) " " normalized in
  let normalized := replaceAll (regex "> <" false) "><" normalized in
  Str.trim normalized.

Definition calculateNormalizedHash (content : string)
    (ignorePatterns : option (list string)) : string :=
  calculateHash (normalizeContent content ignorePatterns).
End WithPlatform.

End ContentComparer.

(** ** ContentNormalizer (src/diff/normalizer.ts) *)

Module ContentNormalizer.
Import RegExp.

Record NormalizedContent := {
  original : string;
  normalized : string;
  hash : string;
  extractionDate : string
}.

(** A built-in pattern: its name, the source of its regex literal,
    whether the literal carries the flag i (all carry g), and its
    replacement. *)
Record Pattern := {
  name : string;
  source : string;
  ignoreCase : bool;
  replacement : string
}.

(** The double quote. *)
Definition quote : string := String (ascii_of_nat 34) EmptyString.

(** The pattern sources are those of the literals, with the double
    quote written [\x22]. *)
Definition DEFAULT_PATTERNS : list Pattern := [
  {| name := "timestamps";
     source := "\b\d{4}-\d{2}-\d{2}\b"; ignoreCase := false;
     replacement := "[DATE]" |};
  {| name := "times";
     source := "\b\d{2}:\d{2}:\d{2}\b"; ignoreCase := false;
     replacement := "[TIME]" |};
  {| name := "unix_timestamps";
     source := "\b\d{10,13}\b"; ignoreCase := false;
     replacement := "[TIMESTAMP]" |};
  {| name := "csrf_tokens";
     source := "csrf[\x22\s]*[:=][\x22\s]*[\x22']?[^\x22'\s]{8,}[\x22']?";
     ignoreCase := true;
     replacement := "csrf:" +:+ quote +:+ "[CSRF_TOKEN]" +:+ quote |};
  {| name := "request_ids";
     source := "_requestid[\x22\s]*[:=][\x22\s]*[\x22']?[^\x22'\s]{8,}[\x22']?";
     ignoreCase := true;
     replacement := "_requestid:" +:+ quote +:+ "[REQUEST_ID]" +:+ quote |};
  {| name := "nonce";
     source := "nonce=\x22[^\x22]*\x22"; ignoreCase := true;
     replacement := "nonce=" +:+ quote +:+ "[NONCE]" +:+ quote |};
  {| name := "data_testids";
     source := "data-testid=\x22[^\x22]*\x22"; ignoreCase := false;
     replacement := EmptyString |};
  {| name := "data_cy";
     source := "data-cy=\x22[^\x22]*\x22"; ignoreCase := false;
     replacement := EmptyString |};
  {| name := "session_ids";
     source := "session[\x22\s]*[:=][\x22\s]*[\x22']?[^\x22'\s]{16,}[\x22']?";
     ignoreCase := true;
     replacement := "session:" +:+ quote +:+ "[SESSION]" +:+ quote |};
  {| name := "uuids";
     source := "\b[0-9a-f]{8}-[0-9a-f]{4}-[0-9a-f]{4}-[0-9a-f]{4}-[0-9a-f]{12}\b";
     ignoreCase := true;
     replacement := "[UUID]" |};
  {| name := "version_numbers";
     source := "\bv?\d+\.\d+\.\d+(-[a-zA-Z0-9]+)?\b"; ignoreCase := false;
     replacement := "[VERSION]" |};
  {| name := "build_numbers";
     source := "build[\x22\s]*[:=][\x22\s]*[\x22']?\d+[\x22']?";
     ignoreCase := true;
     replacement := "build:" +:+ quote +:+ "[BUILD]" +:+ quote |}
].

(** [normalized.replace(patternObj.pattern, patternObj.replacement)] *)
Definition applyPattern (normalized : string) (patternObj : Pattern) : string :=
  replaceLiteral (source patternObj) (ignoreCase patternObj)
                 (replacement patternObj) normalized.

Definition applyDynamicPatterns (content : string) : string :=
  foldl applyPattern content DEFAULT_PATTERNS.

(** The patterns a caller passes in are [RegExp] objects with their
    replacements. *)
Definition applyCustomPatterns (content : string)
    (patterns : list (RegExpObject.t * string)) : string :=
  foldl (fun normalized '(pattern, replacement) =>
           RegExpObject.replace pattern normalized replacement)
        content patterns.

Definition cleanupWhitespace (content : string) : string :=
  Str.trim
    (replaceLiteral "\s*([{}[\](),;:])\s*" false "$1"
       (replaceLiteral "> <" false "><"
          (replaceLiteral "\s+" false " " content))).

Section WithPlatform.
Context `{Platform}.

(** [None] stands for the SyntaxError of [new RegExp]. *)
Definition createCustomPattern (name regex replacement : string)
  : option (string * RegExpObject.t * string) :=
  (fun pattern => (name, pattern, replacement)) <$> newRegExp regex "gi".

(** [now] is the time of the call, an ISO timestamp. *)
Definition normalizeHTML (now : string) (html : string)
    (customPatterns : option (list (RegExpObject.t * string))) : NormalizedContent :=
  let normalized := default html (minifyContinuing html) in
  let normalized := applyDynamicPatterns normalized in
  let normalized :=
    match customPatterns with
    | Some patterns => applyCustomPatterns normalized patterns
    | None => normalized
    end in
  let normalized := cleanupWhitespace normalized in
  {| original := html;
     normalized := normalized;
     hash := calculateHash normalized;
     extractionDate := now |}.
End WithPlatform.

End ContentNormalizer.

(** ** The whitespace steps of the normalizers, on code units

    What [replace(/\s+/g, ' ')], [replace(/> </g, '><')],
    [replace(/\s*([{}[\](),;:])\s*/g, '$1')] and [trim()] compute, written
    without the regex engine, and the shape of text they leave
    unchanged. *)

Module Whitespace.
Import RegExp.

Definition runs : re := regex "\s+" false.
Definition tagGap : re := regex "> <" false.

(** The replacement of a whitespace run. *)
Definition space : ascii := " "%char.

(** Length of the whitespace run a text starts with. *)
Fixpoint leading (s : list ascii) : nat :=
  match s with
  | c :: s' => if isSpace c then S (leading s') else O
  | [] => O
  end.

(** Every whitespace run becomes one space; [inRun] says that the
    previous code unit was whitespace. *)
Fixpoint collapse (inRun : bool) (s : list ascii) : list ascii :=
  match s with
  | [] => []
  | c :: s' =>
      if isSpace c
      then if inRun then collapse true s' else space :: collapse true s'
      else c :: collapse false s'
  end.

(** The text after a leading [> <], if the text starts with one. *)
Definition gap (s : list ascii) : option (list ascii) :=
  match s with
  | c1 :: c2 :: c3 :: rest =>
      if Ascii.eqb c1 ">" && Ascii.eqb c2 " " && Ascii.eqb c3 "<"
      then Some rest else None
  | _ => None
  end.

(** Every [> <] becomes [><], left to right. *)
Fixpoint squeeze (s : list ascii) : list ascii :=
  match s with
  | [] => []
  | c1 :: s1 =>
      match s1 with
      | c2 :: c3 :: rest =>
          if Ascii.eqb c1 ">" && Ascii.eqb c2 " " && Ascii.eqb c3 "<"
          then ">"%char :: "<"%char :: squeeze rest
          else c1 :: squeeze s1
      | _ => c1 :: squeeze s1
      end
  end.

(** All whitespace is single spaces ([afterSpace]: the previous code
    unit was one). *)
Fixpoint tidy (afterSpace : bool) (s : list ascii) : bool :=
  match s with
  | [] => true
  | c :: s' =>
      if isSpace c
      then Ascii.eqb c space && negb afterSpace && tidy true s'
      else tidy false s'
  end.

(** No [> <] occurs. *)
Fixpoint noGap (s : list ascii) : bool :=
  match s with
  | [] => true
  | _ :: s' => match gap s with Some _ => false | None => noGap s' end
  end.

(** The first code unit, if any, is not whitespace. *)
Definition startsClean (s : list ascii) : Prop :=
  match s with c :: _ => isSpace c = false | [] => True end.

Definition trimmed (s : list ascii) : Prop :=
  startsClean s /\ startsClean (rev s).

(** Text that none of the three steps changes. *)
Definition settled (s : list ascii) : Prop :=
  tidy false s = true /\ noGap s = true /\ trimmed s.

(** The three steps in sequence. *)
Definition whitespace (s : list ascii) : list ascii :=
  rev (Str.dropSpaces (rev (Str.dropSpaces (squeeze (collapse false s))))).

(** The third step of [cleanupWhitespace] closes up to these marks. *)
Definition marks : re := regex "\s*([{}[\](),;:])\s*" false.

Definition isMark (c : ascii) : bool :=
  existsb (Ascii.eqb c) (list_ascii_of_string "{}[](),;:").

(** Behind the whitespace the text starts with stands a mark. *)
Definition markAhead (s : list ascii) : bool :=
  match Str.dropSpaces s with
  | c :: _ => isMark c
  | [] => false
  end.

(** The whitespace on either side of a mark is dropped; [afterMark]
    says that nothing but whitespace has gone by since the last mark. *)
Fixpoint tighten (afterMark : bool) (s : list ascii) : list ascii :=
  match s with
  | [] => []
  | c :: s' =>
      if isSpace c
      then if afterMark || markAhead s'
           then tighten afterMark s'
           else c :: tighten false s'
      else c :: tighten (isMark c) s'
  end.

(** No whitespace stands next to a mark. *)
Fixpoint snug (afterMark : bool) (s : list ascii) : bool :=
  match s with
  | [] => true
  | c :: s' =>
      if isSpace c
      then negb afterMark && negb (markAhead s') && snug false s'
      else snug (isMark c) s'
  end.

(** The four steps of [cleanupWhitespace] in sequence. *)
Definition cleanup (s : list ascii) : list ascii :=
  rev (Str.dropSpaces
         (rev (Str.dropSpaces (tighten false (squeeze (collapse false s)))))).

(** Text that none of the four steps changes. *)
Definition neat (s : list ascii) : Prop :=
  settled s /\ snug false s = true.

End Whitespace.

(** ** Site configuration and backup records (src/types/site.ts) *)

Record FetchOptions := {
  timeout : Z;
  retries : Z;
  concurrency : Z
}.

Record ChangeThreshold := {
  minChangeSize : option Z;
  ignorePatterns : option (list string)
}.

Record SiteConfig := {
  id : string;
  name : string;
  baseUrl : string;
  sitemapUrl : option string;
  urls : option (list string);
  retentionDays : Z;
  schedule : string;
  slackWebhook : option string;
  fetchOptions : FetchOptions;
  changeThreshold : option ChangeThreshold;
  excludePatterns : option (list string)
}.

Record BackupMetadata := {
  bm_url : string;
  timestamp : string;
  hash : string;
  normalizedHash : option string;
  bm_status : Z;
  contentType : string;
  etag : option string;
  size : Z;
  fetchTime : Z;
  redirectCount : option Z
}.

Record BackupResult := {
  url : string;
  success : bool;
  metadata : option BackupMetadata;
  content : option string;
  error : option string
}.

(** src/types/backup.ts *)
Record FetchResult := {
  fr_content : string;
  fr_status : Z;
  fr_headers : list (string * string);
  fr_url : string;
  finalUrl : string;
  fr_redirectCount : Z;
  fr_fetchTime : Z
}.

(** ** The network and the key-value namespace *)

Record Request := {
  requestUrl : string;
  requestHeaders : list (string * string);
  manualRedirect : bool
}.

(** Header names are kept in lower case, as [Headers] reports them. *)
Record Response := {
  status : Z;
  statusText : string;
  redirected : bool;
  responseUrl : string;
  headers : list (string * string);
  body : string
}.

Inductive FetchOutcome :=
| Responded (response : Response)
| Rejected (message : string).

(** The servers as one invocation of the worker sees them. A request that
    times out is a rejected one. *)
Definition Network := Request -> FetchOutcome.

Definition ok (r : Response) : bool := (200 <=? status r) && (status r <=? 299).

Fixpoint header (name : string) (hs : list (string * string)) : option string :=
  match hs with
  | [] => None
  | (k, v) :: rest => if String.eqb k name then Some v else header name rest
  end.

(** The state an invocation works on: the key-value namespace and the log
    of the URLs passed to [fetch], oldest first. *)
Record World := {
  kv : gmap string string;
  fetched : list string
}.

(** A computation either returns a value and a new state, or does not
    return: [Diverges] is what running out of [fuel] means for the
    recursion of [parseSitemap], and what a chunk loop that cannot advance
    does. *)
Inductive Outcome (A : Type) :=
| Done (a : A) (w : World)
| Diverges (w : World).
Arguments Done {A} a w.
Arguments Diverges {A} w.

Definition M (A : Type) : Type := World -> Outcome A.

#[global] Instance M_ret : MRet M := fun A a w => Done a w.
#[global] Instance M_bind : MBind M := fun A B f m w =>
  match m w with
  | Done a w' => f a w'
  | Diverges w' => Diverges w'
  end.

Definition diverge {A : Type} : M A := fun w => Diverges w.

Module KV.

(** [kv.get(key)]; [None] is [null]. *)
Definition get (key : string) : M (option string) :=
  fun w => Done (kv w !! key) w.

(** [kv.put(key, value, options)]; the expiration option is a matter of
    wall-clock time and is left out. *)
Definition put (key value : string) : M () :=
  fun w => Done () {| kv := <[key := value]> (kv w); fetched := fetched w |}.

Definition delete (key : string) : M () :=
  fun w => Done () {| kv := base.delete key (kv w); fetched := fetched w |}.

(** [kv.list({prefix, limit})]: the names in lexicographic order. *)
Definition list (prefix : string) (limit : nat) : M (list string) :=
  fun w =>
    let names := List.filter (String.prefix prefix) (fst <$> map_to_list (kv w)) in
    Done (take limit (JS.sort Str.compareZ names)) w.

End KV.

(** ** BackupFetcher (src/backup/fetcher.ts) *)

Record BatchOptions := {
  batchSize : option Z;
  batchOffset : option Z;
  continueFromLast : option bool
}.

Record Progress := {
  completed : Z;
  total : Z;
  percentComplete : Z
}.

Record BatchedBackupResult := {
  totalUrls : Z;
  processedInBatch : Z;
  successfulBackups : Z;
  failedBackups : Z;
  changedUrls : list string;
  executionTime : Z;
  errors : list string;
  results : list BackupResult;
  r_batchOffset : Z;
  r_batchSize : Z;
  hasMore : bool;
  nextOffset : option Z;
  progress : Progress
}.

Module BackupFetcher.

Definition DEFAULT_BATCH_SIZE : Z := 25.
Definition MAX_BATCH_SIZE : Z := 30.

Definition progressKey (siteId : string) : string := "batch_progress:" +:+ siteId.
Definition sitemapStateKey (siteId : string) : string := "sitemap_state:" +:+ siteId.
Definition fullScanKey (siteId : string) : string := "full_scan:" +:+ siteId.
Definition latestKey (siteId urlHash : string) : string :=
  "latest:" +:+ siteId +:+ ":" +:+ urlHash.
Definition prevLatestKey (siteId urlHash : string) : string :=
  "prev_latest:" +:+ siteId +:+ ":" +:+ urlHash.
Definition contentKey (siteId date urlHash : string) : string :=
  "backup:" +:+ siteId +:+ ":" +:+ date +:+ ":" +:+ urlHash.
Definition metadataKey (siteId date urlHash : string) : string :=
  "meta:" +:+ siteId +:+ ":" +:+ date +:+ ":" +:+ urlHash.

(** The i18n paths excluded when the site names no patterns of its own. *)
Definition defaultExcludePatterns : list string := [
  "^.*/fr/.*$"; "^.*/en/.*$"; "^.*/es/.*$"; "^.*/de/.*$"; "^.*/it/.*$";
  "^.*/pt/.*$"; "^.*/zh/.*$"; "^.*/ja/.*$"; "^.*/ko/.*$"; "^.*/ar/.*$";
  "^.*/ru/.*$"
].

Definition userAgentHeaders : list (string * string) := [
  ("User-Agent", "MultiSiteBackup/1.0 (Cloudflare Worker)");
  ("Accept", "text/html,application/xhtml+xml,application/xml;q=0.9,*/*;q=0.8")
].

(** [Math.round((completed / totalUrls) * 100)] for a positive
    [totalUrls], as the worker computes it for a batch that is not
    empty, and counts below 2^53: the quotient and the product are
    rounded to doubles (23 of 40 is 57 percent). *)
Definition percent (completed totalUrls : Z) : Z :=
  let '(qn, qd) := JS.double completed totalUrls in
  let '(pn, pd) := JS.double (qn * 100) qd in
  JS.round pn pd.

Definition metadataJson (m : BackupMetadata) : Json :=
  Js.object [
    ("url", Js.str (bm_url m));
    ("timestamp", Js.str (timestamp m));
    ("hash", Js.str (hash m));
    ("normalizedHash", Js.optStr (normalizedHash m));
    ("status", Js.num (bm_status m));
    ("contentType", Js.str (contentType m));
    ("etag", Js.optStr (etag m));
    ("size", Js.num (size m));
    ("fetchTime", Js.num (fetchTime m));
    ("redirectCount", Js.optNum (redirectCount m))
  ].

Definition progressJson (nextOffset totalUrls : Z) (lastRunTime : string) : Json :=
  Js.object [
    ("nextOffset", Js.num nextOffset);
    ("totalUrls", Js.num totalUrls);
    ("lastRunTime", Js.str lastRunTime)
  ].

Definition fullScanJson (date completedAt : string) (totalUrls : Z) : Json :=
  Js.object [
    ("date", Js.str date);
    ("completedAt", Js.str completedAt);
    ("totalUrls", Js.num totalUrls)
  ].

Definition buildNoopResult : BatchedBackupResult :=
  {| totalUrls := 0; processedInBatch := 0; successfulBackups := 0;
     failedBackups := 0; changedUrls := []; executionTime := 0;
     errors := []; results := []; r_batchOffset := 0; r_batchSize := 0;
     hasMore := false; nextOffset := None;
     progress := {| completed := 0; total := 0; percentComplete := 100 |} |}.

Section Invocation.
Context `{Platform}.
(** The servers during this invocation and its time, an ISO timestamp;
    elapsed times ([executionTime], [fetchTime]) are reported as 0. *)
Variable net : Network.
Variable now : string.

Definition today : string := Str.isoDate now.

(** The global [fetch]. *)
Definition fetch (req : Request) : M FetchOutcome :=
  fun w => Done (net req)
                {| kv := kv w; fetched := fetched w ++ [requestUrl req] |}.

Definition getUrlHash (u : string) : string :=
  String.substring 0 16 (calculateHash u).

Definition saveBatchProgress (siteId : string) (nextOffset totalUrls : Z)
    (lastRunTime : string) : M () :=
  KV.put (progressKey siteId)
         (JSON_stringify (progressJson nextOffset totalUrls lastRunTime)).

(** The parsed record, [JNull] when there is none or it does not parse. *)
Definition loadBatchProgress (siteId : string) : M Json :=
  data ← KV.get (progressKey siteId);
  match data with
  | Some text =>
      if JS.truthy text then mret (default JNull (JSON_parse text))
      else mret JNull
  | None => mret JNull
  end.

Definition clearBatchProgress (siteId : string) : M () :=
  KV.delete (progressKey siteId).

Definition recordSitemapState (siteId : string) (response : Response)
    (xmlText : string) : M () :=
  let etag := JS.orElse (header "etag" (headers response)) None in
  let lastModified := JS.orElse (header "last-modified" (headers response)) None in
  let contentHash := calculateHash xmlText in
  KV.put (sitemapStateKey siteId)
         (JSON_stringify
            (Js.object [
               ("etag", Js.optStr etag);
               ("lastModified", Js.optStr lastModified);
               ("contentHash", Js.str contentHash);
               ("checkedAt", Js.str now)
             ])).

Definition getFullScanState (siteId : string) : M Json :=
  raw ← KV.get (fullScanKey siteId);
  match raw with
  | Some text =>
      if JS.truthy text then mret (default JNull (JSON_parse text))
      else mret JNull
  | None => mret JNull
  end.

Definition setFullScanState (siteId date completedAt : string) (totalUrls : Z)
  : M () :=
  KV.put (fullScanKey siteId)
         (JSON_stringify (fullScanJson date completedAt totalUrls)).

(** [urls.map(item => item.loc).filter(Boolean)] *)
Definition locs (items : list (option string)) : list string :=
  omap (fun loc => match loc with
                   | Some u => if JS.truthy u then Some u else None
                   | None => None
                   end) items.

(** [fuel] bounds the nesting of the recursive calls; every throw inside
    the body is caught and turned into the empty list. *)
Fixpoint parseSitemap (fuel : nat) (siteId sitemapUrl : string) : M (list string) :=
  match fuel with
  | O => diverge
  | S fuel' =>
      outcome ← fetch {| requestUrl := sitemapUrl; requestHeaders := [];
                         manualRedirect := false |};
      match outcome with
      | Rejected _ => mret []
      | Responded response =>
          if negb (ok response) then mret []
          else
            let xmlText := body response in
            recordSitemapState siteId response xmlText;;
            match parseXml xmlText with
            | None => mret []
            | Some result =>
                match urlset_url result with
                | Some items => mret (locs items)
                | None =>
                    match sitemapindex_sitemap result with
                    | Some sitemaps =>
                        foldl (fun (acc : M (list string)) loc =>
                                 allUrls ← acc;
                                 subUrls ← match loc with
                                           | Some u => parseSitemap fuel' siteId u
                                           | None => mret []
                                           end;
                                 mret (allUrls ++ subUrls))
                              (mret []) sitemaps
                    | None => mret []
                    end
                end
            end
      end
  end.

(** [true] when the sitemap has to be read again. *)
Definition hasSitemapChanged (siteId sitemapUrl : string) : M bool :=
  let stateKey := sitemapStateKey siteId in
  existingRaw ← KV.get stateKey;
  let parsed :=
    match existingRaw with
    | Some text => if JS.truthy text then JSON_parse text else Some (JObj [])
    | None => Some (JObj [])
    end in
  match parsed with
  | None | Some JNull => mret true
  | Some existing =>
      let etag := Js.prop existing "etag" in
      let lastModified := Js.prop existing "lastModified" in
      let contentHash := Js.prop existing "contentHash" in
      let conditional :=
        (if Js.truthy etag then [("If-None-Match", Js.headerText etag)] else [])
        ++ (if Js.truthy lastModified
            then [("If-Modified-Since", Js.headerText lastModified)] else []) in
      outcome ← fetch {| requestUrl := sitemapUrl; requestHeaders := conditional;
                         manualRedirect := false |};
      match outcome with
      | Rejected _ => mret true
      | Responded response =>
          if status response =? 304 then mret false
          else if negb (ok response) then mret true
          else
            let xmlText := body response in
            let newHash := calculateHash xmlText in
            if negb (Js.truthy etag) && negb (Js.truthy lastModified)
               && Js.truthy contentHash && Js.isString contentHash newHash
            then
              let refreshed :=
                match existing with
                | JObj fields => JObj (Js.setField "checkedAt" (JStr now) fields)
                | _ => JObj [("checkedAt", JStr now)]
                end in
              KV.put stateKey (JSON_stringify refreshed);;
              mret false
            else
              recordSitemapState siteId response xmlText;;
              mret true
      end
  end.

(** Exclusion patterns compile with the flag i; one that does not
    compile is dropped. *)
Definition excluded (patterns : list string) (u : string) : bool :=
  existsb (fun regex => RegExpObject.test regex u)
          (omap (fun pattern => newRegExp pattern "i") patterns).

Definition getUrlsToBackup (fuel : nat) (siteConfig : SiteConfig) : M (list string) :=
  found ←
    match urls siteConfig with
    | Some (u :: us) => mret (u :: us)
    | _ =>
        match sitemapUrl siteConfig with
        | Some sitemap =>
            if JS.truthy sitemap then parseSitemap fuel (id siteConfig) sitemap
            else mret [baseUrl siteConfig]
        | None => mret [baseUrl siteConfig]
        end
    end;
  let patterns := default defaultExcludePatterns (excludePatterns siteConfig) in
  match patterns with
  | [] => mret found
  | _ :: _ => mret (List.filter (fun u => negb (excluded patterns u)) found)
  end.

(** The manual redirect loop of [performFetch]: at most five hops, each
    needing a [location] header. The result is the last response with
    the number of hops, or the message of what was thrown. *)
Fixpoint followRedirects (hops : nat) (currentUrl : string) (response : Response)
    (redirectCount : Z) : M (Response * Z + string) :=
  match hops with
  | O => mret (inl (response, redirectCount))
  | S hops' =>
      if redirected response then
        match header "location" (headers response) with
        | Some location =>
            if JS.truthy location then
              match resolveUrl location currentUrl with
              | Some next =>
                  outcome ← fetch {| requestUrl := next;
                                     requestHeaders := userAgentHeaders;
                                     manualRedirect := true |};
                  match outcome with
                  | Responded response' =>
                      followRedirects hops' next response' (redirectCount + 1)
                  | Rejected message => mret (inr message)
                  end
              | None => mret (inr "Invalid URL")
              end
            else mret (inl (response, redirectCount))
        | None => mret (inl (response, redirectCount))
        end
      else mret (inl (response, redirectCount))
  end.

Definition performFetch (u : string) : M (FetchResult + string) :=
  outcome ← fetch {| requestUrl := u; requestHeaders := userAgentHeaders;
                     manualRedirect := false |};
  match outcome with
  | Rejected message => mret (inr message)
  | Responded first =>
      followed ← followRedirects 5 u first 0;
      match followed with
      | inr message => mret (inr message)
      | inl (response, redirectCount) =>
          if negb (ok response) then
            mret (inr ("HTTP " +:+ pretty (status response) +:+ ": "
                       +:+ statusText response))
          else
            mret (inl {| fr_content := body response;
                         fr_status := status response;
                         fr_headers := headers response;
                         fr_url := u;
                         finalUrl := responseUrl response;
                         fr_redirectCount := redirectCount;
                         fr_fetchTime := 0 |})
      end
  end.

Definition failure (u : string) (message : string) : BackupResult :=
  {| url := u; success := false; metadata := None; content := None;
     error := Some message |}.

(** [attempts] is the number of loop iterations left, [retries + 1] at
    the start; the back-off delays between attempts are not modelled. *)
Fixpoint fetchAttempts (attempts : nat) (u : string)
    (ignorePatterns : option (list string)) (lastError : option string)
  : M BackupResult :=
  match attempts with
  | O =>
      mret (failure u (default "Unknown error"
                         (JS.orElse lastError (Some "Unknown error"))))
  | S attempts' =>
      fetchResult ← performFetch u;
      match fetchResult with
      | inl r =>
          let metadata :=
            {| bm_url := fr_url r;
               timestamp := now;
               hash := calculateHash (fr_content r);
               normalizedHash :=
                 Some (ContentComparer.calculateNormalizedHash
                         (fr_content r) ignorePatterns);
               bm_status := fr_status r;
               contentType :=
                 default "unknown"
                   (JS.orElse (header "content-type" (fr_headers r))
                              (Some "unknown"));
               etag := header "etag" (fr_headers r);
               size := Z.of_nat (String.length (fr_content r));
               fetchTime := fr_fetchTime r;
               redirectCount := Some (fr_redirectCount r) |} in
          mret {| url := fr_url r; success := true; metadata := Some metadata;
                  content := Some (fr_content r); error := None |}
      | inr message => fetchAttempts attempts' u ignorePatterns (Some message)
      end
  end.

Definition fetchUrlWithRetries (u : string) (options : FetchOptions)
    (ignorePatterns : option (list string)) : M BackupResult :=
  fetchAttempts (Z.to_nat (retries options + 1)) u ignorePatterns None.

(** One chunk: the URLs of a chunk are fetched concurrently and their
    results are collected in the order of the chunk; the log lists the
    requests of one URL after those of the URL before it. *)
Fixpoint fetchChunk (batch : list string) (options : FetchOptions)
    (ignorePatterns : option (list string)) : M (list BackupResult) :=
  match batch with
  | [] => mret []
  | u :: rest =>
      r ← fetchUrlWithRetries u options ignorePatterns;
      rs ← fetchChunk rest options ignorePatterns;
      mret (r :: rs)
  end.

(** [for (let i = 0; i < urls.length; i += concurrency)]: [iterations]
    bounds the number of rounds; the loop diverges when the step is not
    positive. *)
Fixpoint fetchChunks (iterations : nat) (urls : list string) (i step : Z)
    (options : FetchOptions) (ignorePatterns : option (list string))
    (acc : list BackupResult) : M (list BackupResult) :=
  if i <? Z.of_nat (length urls) then
    match iterations with
    | O => diverge
    | S iterations' =>
        batchResults ← fetchChunk (JS.slice urls i (i + step)) options ignorePatterns;
        fetchChunks iterations' urls (i + step) step options ignorePatterns
                    (acc ++ batchResults)
    end
  else mret acc.

Definition fetchUrlsWithConcurrency (urls : list string) (options : FetchOptions)
    (ignorePatterns : option (list string)) : M (list BackupResult) :=
  fetchChunks (length urls) urls 0 (Z.min (concurrency options) 5)
              options ignorePatterns [].

(** Whether one fetched result counts as changed against the stored
    latest record, read as [previousMetadata]. *)
Definition changedAgainst (previousMetadata : option string) (m : BackupMetadata)
  : bool :=
  match previousMetadata with
  | Some text =>
      if JS.truthy text then
        match JSON_parse text with
        | Some JNull | None => true
        | Some previous =>
            let prevComparableHash :=
              Js.orElse (Js.prop previous "normalizedHash") (Js.prop previous "hash") in
            let currComparableHash :=
              JS.orElse (normalizedHash m) (Some (hash m)) in
            Js.differs prevComparableHash currComparableHash
        end
      else true
  | None => true
  end.

Fixpoint detectChanges (siteId : string) (results : list BackupResult)
  : M (list string) :=
  match results with
  | [] => mret []
  | result :: rest =>
      match metadata result with
      | None => detectChanges siteId rest
      | Some m =>
          previousMetadata ← KV.get (latestKey siteId (getUrlHash (url result)));
          changedUrls ← detectChanges siteId rest;
          mret (if changedAgainst previousMetadata m
                then url result :: changedUrls else changedUrls)
      end
  end.

Fixpoint storeBackups (siteId : string) (results : list BackupResult) : M () :=
  match results with
  | [] => mret ()
  | result :: rest =>
      match metadata result, content result with
      | Some m, Some text =>
          if JS.truthy text then
            let urlHash := getUrlHash (url result) in
            previousLatest ← KV.get (latestKey siteId urlHash);
            KV.put (contentKey siteId today urlHash) text;;
            KV.put (metadataKey siteId today urlHash)
                   (JSON_stringify (metadataJson m));;
            KV.put (latestKey siteId urlHash) (JSON_stringify (metadataJson m));;
            match previousLatest with
            | Some previous =>
                if JS.truthy previous
                then KV.put (prevLatestKey siteId urlHash) previous
                else mret ()
            | None => mret ()
            end;;
            storeBackups siteId rest
          else storeBackups siteId rest
      | _, _ => storeBackups siteId rest
      end
  end.

(** The keys of one listed backup that are to be deleted: the backup
    and its metadata, when its date lies before the cutoff. *)
Definition expiredKeys (cutoffString : string) (keyName : string) : list string :=
  match Str.split ":" keyName with
  | _ :: _ :: date :: _ :: _ =>
      if String.ltb date cutoffString
      then [keyName; Str.replaceFirst "backup:" "meta:" keyName]
      else []
  | _ => []
  end.

Definition cleanupOldBackups (siteId : string) (retentionDays : Z) : M () :=
  let cutoffString := Str.isoDate (minusDays now retentionDays) in
  keys ← KV.list ("backup:" +:+ siteId +:+ ":") 1000;
  let keysToDelete := concat (expiredKeys cutoffString <$> keys) in
  foldl (fun (acc : M ()) key => acc;; KV.delete key) (mret ()) keysToDelete.

(** The batch offset to start from and whether it came from saved
    progress. The record is read at its declared type, in which
    [nextOffset] is a number, as [saveBatchProgress], its only writer,
    stores it. For a record that holds anything else there the source
    goes on with that value as the offset (with [undefined] the slice is
    empty and the cycle is closed); an offset in [Z] does not express
    that, and the offset is kept as requested. *)
Definition resume (siteId : string) (requested : Z) (continue : bool)
  : M (Z * bool) :=
  if continue then
    saved ← loadBatchProgress siteId;
    if Js.truthy (Some saved) then
      match Js.prop saved "nextOffset" with
      | Some JNull => mret (requested, false)
      | Some (JNum n) => mret (n, true)
      | _ => mret (requested, true)
      end
    else mret (requested, false)
  else mret (requested, false).

(** The guard at the start of a cycle: [true] when today's full scan is
    done and nothing asks for another one. *)
Definition alreadyScanned (siteConfig : SiteConfig) : M bool :=
  fullScan ← getFullScanState (id siteConfig);
  let date := match fullScan with JNull => None | _ => Js.prop fullScan "date" end in
  if Js.isString date today then
    match sitemapUrl siteConfig with
    | Some sitemap =>
        if JS.truthy sitemap then
          changed ← hasSitemapChanged (id siteConfig) sitemap;
          mret (negb changed)
        else mret true
    | None => mret true
    end
  else mret false.

Definition completeCycle (siteId : string) (totalUrls : Z) : M () :=
  clearBatchProgress siteId;;
  setFullScanState siteId today now totalUrls.

Definition count {A : Type} (l : list A) : Z := Z.of_nat (length l).

Definition runBatch (fuel : nat) (siteConfig : SiteConfig)
    (batchOffset batchSize : Z) : M BatchedBackupResult :=
  allUrls ← getUrlsToBackup fuel siteConfig;
  let totalUrls := count allUrls in
  let batchUrls := JS.slice allUrls batchOffset (batchOffset + batchSize) in
  let processedInBatch := count batchUrls in
  match batchUrls with
  | [] =>
      completeCycle (id siteConfig) totalUrls;;
      mret {| totalUrls := totalUrls; processedInBatch := 0;
              successfulBackups := 0; failedBackups := 0; changedUrls := [];
              executionTime := 0; errors := []; results := [];
              r_batchOffset := batchOffset; r_batchSize := batchSize;
              hasMore := false; nextOffset := None;
              progress := {| completed := totalUrls; total := totalUrls;
                             percentComplete := 100 |} |}
  | _ :: _ =>
      results ← fetchUrlsWithConcurrency batchUrls (fetchOptions siteConfig)
                  (changeThreshold siteConfig ≫= ignorePatterns);
      let successfulResults := List.filter success results in
      let failedResults := List.filter (fun r => negb (success r)) results in
      changedUrls ← detectChanges (id siteConfig) successfulResults;
      storeBackups (id siteConfig) successfulResults;;
      (if batchOffset =? 0
       then cleanupOldBackups (id siteConfig) (retentionDays siteConfig)
       else mret ());;
      let errors :=
        (fun r => default "Unknown error"
                    (JS.orElse (error r) (Some "Unknown error")))
          <$> failedResults in
      let nextOffset := batchOffset + processedInBatch in
      let hasMore := nextOffset <? totalUrls in
      let completed := Z.min nextOffset totalUrls in
      (if hasMore
       then saveBatchProgress (id siteConfig) nextOffset totalUrls now
       else completeCycle (id siteConfig) totalUrls);;
      mret {| totalUrls := totalUrls; processedInBatch := processedInBatch;
              successfulBackups := count successfulResults;
              failedBackups := count failedResults;
              changedUrls := changedUrls;
              executionTime := 0; errors := errors; results := results;
              r_batchOffset := batchOffset; r_batchSize := batchSize;
              hasMore := hasMore;
              nextOffset := if hasMore then Some nextOffset else None;
              progress := {| completed := completed; total := totalUrls;
                             percentComplete := percent completed totalUrls |} |}
  end.

Definition performSiteBackup (fuel : nat) (siteConfig : SiteConfig)
    (batchOptions : option BatchOptions) : M BatchedBackupResult :=
  let requested := default 0 (batchOptions ≫= batchOffset) in
  let batchSize :=
    Z.min (default DEFAULT_BATCH_SIZE (batchOptions ≫= batchSize)) MAX_BATCH_SIZE in
  let continue := default false (batchOptions ≫= continueFromLast) in
  '(batchOffset, hadSavedProgress) ← resume (id siteConfig) requested continue;
  skip ← (if continue && negb hadSavedProgress && (batchOffset =? 0)
          then alreadyScanned siteConfig else (mret false : M bool));
  if (skip : bool) then mret buildNoopResult
  else runBatch fuel siteConfig batchOffset batchSize.

End Invocation.

End BackupFetcher.

(** ** The change detector in the words of the specification *)

Module ChangeDetectorSpec.

(** The comparable hash: the normalized hash, or the raw hash when no
    normalized hash was recorded. *)
Definition comparableHash (m : BackupMetadata) : string :=
  default (hash m) (normalizedHash m).

(** Changed: there is no prior record, or the comparable hashes differ. *)
Definition changed (previous : option BackupMetadata) (current : BackupMetadata) : bool :=
  match previous with
  | None => true
  | Some p => negb (String.eqb (comparableHash p) (comparableHash current))
  end.

(** A recorded normalized hash is a digest, never the empty string. *)
Definition recorded (m : BackupMetadata) : Prop := normalizedHash m <> Some EmptyString.

Section Store.
Context `{Platform}.

(** The latest record of a URL in the store: none, or the serialised
    metadata of the previous backup. *)
Definition latestIs (w : World) (siteId u : string)
    (previous : option BackupMetadata) : Prop :=
  let key := BackupFetcher.latestKey siteId (BackupFetcher.getUrlHash u) in
  match previous with
  | None => kv w !! key = None
  | Some p =>
      exists text,
        kv w !! key = Some text /\ text <> EmptyString /\
        JSON_parse text = Some (BackupFetcher.metadataJson p) /\ recorded p
  end.

(** The URLs reported for a batch of results, given the latest record of
    each URL. *)
Definition changedUrlsOf (latest : string -> option BackupMetadata)
    (results : list BackupResult) : list string :=
  url <$> List.filter
            (fun r => match metadata r with
                      | Some m => changed (latest (url r)) m
                      | None => false
                      end) results.
End Store.

End ChangeDetectorSpec.

(** ** A continuation sequence *)

Module Cycle.
Import BackupFetcher.

(** What varies from one invocation to the next: the servers, the clock,
    the depth the sitemap recursion is given, and the requested batch
    size. *)
Record Call := {
  servers : Network;
  clock : string;
  depth : nat;
  requestedSize : option Z
}.

Section Run.
Context `{Platform}.

Definition invoke (c : Call) (siteConfig : SiteConfig) : M BatchedBackupResult :=
  performSiteBackup (servers c) (clock c) (depth c) siteConfig
    (Some {| batchSize := requestedSize c; batchOffset := None;
             continueFromLast := Some true |}).

(** The scheduler invokes the worker with [continueFromLast] until a
    result says [hasMore = false]; the results so far are returned, or
    [None] when [rounds] invocations did not get that far. *)
Fixpoint run (rounds : nat) (calls : nat -> Call) (i : nat)
    (siteConfig : SiteConfig) (w : World) : option (list BatchedBackupResult) :=
  match rounds with
  | O => None
  | S rounds' =>
      match invoke (calls i) siteConfig w with
      | Done r w' =>
          if hasMore r
          then cons r <$> run rounds' calls (S i) siteConfig w'
          else Some [r]
      | Diverges _ => None
      end
  end.
End Run.

Definition processed (rs : list BatchedBackupResult) : Z :=
  foldr Z.add 0 (processedInBatch <$> rs).

(** The URLs the invocations have results for, in the order they were
    processed. *)
Definition processedUrls (rs : list BatchedBackupResult) : list string :=
  concat ((fun r => url <$> results r) <$> rs).

End Cycle.

(** ** Vocabulary for the statements about the worker *)

Module Behaviour.
Import BackupFetcher.

(** [keeps k m]: when [m] returns, the value stored under [k] is what it
    was. [returns m]: [m] returns a value from every state. *)
Definition keeps (k : string) {A : Type} (m : M A) : Prop :=
  forall w a w', m w = Done a w' -> kv w' !! k = kv w !! k.

Definition returns {A : Type} (m : M A) : Prop :=
  forall w, exists a w', m w = Done a w'.

Section Shapes.
Context `{Platform}.
Variable net : Network.
Variable now : string.

(** [u] answers with an index whose only entry is [next]. *)
Definition listsOnly (u next : string) : Prop :=
  exists response result,
    net {| requestUrl := u; requestHeaders := []; manualRedirect := false |}
    = Responded response /\
    ok response = true /\
    parseXml (body response) = Some result /\
    urlset_url result = None /\
    sitemapindex_sitemap result = Some [Some next].

(** The state a completed cycle leaves: the progress record is cleared
    and the full scan of today is recorded. *)
Definition closed (siteId : string) (totalUrls : Z) (w : World) : World :=
  {| kv := <[fullScanKey siteId :=
               JSON_stringify (fullScanJson (today now) now totalUrls)]>
             (base.delete (progressKey siteId) (kv w));
     fetched := fetched w |}.
End Shapes.

End Behaviour.

(** ** Diff classifier data (src/types/diff.ts) *)

Module Diff.

Inductive ChangeKind := Added | Removed | Modified | Moved.

Record Position := { line : Z; column : Z }.

Record ContentChange := {
  cc_priority : Z;
  cc_element : string;
  cc_position : Position;
  cc_change : ChangeKind;
  cc_before : option string;
  cc_after : option string;
  cc_context : option string
}.

Record StyleChange := {
  sc_priority : Z;
  sc_element : string;
  sc_attribute : string;
  sc_change : ChangeKind;
  sc_before : option string;
  sc_after : option string;
  sc_position : option Position
}.

Record StructureChange := {
  tc_priority : Z;
  tc_change : ChangeKind;
  tc_element : string;
  tc_position : option Position;
  tc_newPosition : option Position
}.

Record ChangeClassification := {
  content : list ContentChange;
  style : list StyleChange;
  structure : list StructureChange
}.

Record DiffSummary := {
  totalChanges : Z;
  contentChanges : Z;
  styleChanges : Z;
  structureChanges : Z;
  highestPriority : Z
}.

Record DiffMetadata := {
  generatedAt : string;
  generationTime : Z;
  isPartial : bool;
  cacheKey : option string
}.

Record DetailedDiff := {
  dd_url : string;
  dd_date : string;
  previousHash : string;
  currentHash : string;
  classification : ChangeClassification;
  summary : DiffSummary;
  metadata : DiffMetadata
}.

End Diff.

(** ** DiffGenerator.limitChanges (src/diff/generator.ts) *)

Module DiffGenerator.
Import Diff.

(** [(a, b) => b.priority - a.priority] *)
Definition prioritySort {A : Type} (priority : A -> Z) (a b : A) : Z :=
  priority b - priority a.

(** [Math.floor(maxChanges * 0.6)] and [Math.floor(maxChanges * 0.2)] for an
    integer [maxChanges]: the double product of an integer below 2^50 with
    0.6 (or 0.2) has the same floor as the exact rational product. *)
Definition sixtyPercent (maxChanges : Z) : Z := (6 * maxChanges) / 10.
Definition twentyPercent (maxChanges : Z) : Z := (2 * maxChanges) / 10.

Definition limitCategory {A : Type} (priority : A -> Z) (changes : list A) (limit : Z)
  : list A :=
  JS.slice (JS.sort (prioritySort priority) changes) 0 limit.

Definition limitChanges (diff : DetailedDiff) (maxChanges : Z) : DetailedDiff :=
  let c := limitCategory cc_priority (content (classification diff))
             (sixtyPercent maxChanges) in
  let s := limitCategory sc_priority (style (classification diff))
             (twentyPercent maxChanges) in
  let t := limitCategory tc_priority (structure (classification diff))
             (twentyPercent maxChanges) in
  let nc := Z.of_nat (length c) in
  let ns := Z.of_nat (length s) in
  let nt := Z.of_nat (length t) in
  {| dd_url := dd_url diff;
     dd_date := dd_date diff;
     previousHash := previousHash diff;
     currentHash := currentHash diff;
     classification := {| content := c; style := s; structure := t |};
     summary := {| totalChanges := nc + ns + nt;
                   contentChanges := nc;
                   styleChanges := ns;
                   structureChanges := nt;
                   highestPriority := highestPriority (summary diff) |};
     metadata := metadata diff |}.

(** [keptAhead priority orig kept]: [kept] comes from [orig] by dropping
    elements, and no dropped element has a strictly higher priority than a
    kept one. *)
Definition keptAhead {A : Type} (priority : A -> Z) (orig kept : list A) : Prop :=
  exists dropped,
    Permutation orig (kept ++ dropped) /\
    forall x y, In x kept -> In y dropped -> priority y <= priority x.

End DiffGenerator.


(** ** More vocabulary: requests, results, records and retention *)

Module Traffic.

(** The state after the requests [extra] have been made and nothing has
    been written. *)
Definition logged (w : World) (extra : list string) : World :=
  {| kv := kv w; fetched := fetched w ++ extra |}.

(** A result as it is reported by an invocation at time [now]: only the
    timestamp of the metadata is the invocation's own. *)
Definition retimed (now : string) (r : BackupResult) : BackupResult :=
  {| url := url r; success := success r;
     metadata :=
       (fun m => {| bm_url := bm_url m; timestamp := now; hash := hash m;
                    normalizedHash := normalizedHash m; bm_status := bm_status m;
                    contentType := contentType m; etag := etag m; size := size m;
                    fetchTime := fetchTime m; redirectCount := redirectCount m |})
         <$> metadata r;
     content := content r; error := error r |}.

Section Shape.
Context `{Platform}.

(** What [fetchUrlWithRetries] returns for [u]: the result names [u]
    itself (not the URL a redirect led to); a success carries the content
    of a 2xx answer with its hashes, a failure carries nothing but a
    message, which is never empty. *)
Definition fetchedFrom (ignorePatterns : option (list string)) (u : string)
    (r : BackupResult) : Prop :=
  url r = u /\
  if success r then
    exists m c,
      metadata r = Some m /\ content r = Some c /\ error r = None /\
      bm_url m = u /\ hash m = calculateHash c /\
      normalizedHash m
      = Some (ContentComparer.calculateNormalizedHash c ignorePatterns) /\
      size m = Z.of_nat (String.length c) /\ 200 <= bm_status m <= 299 /\
      exists n, redirectCount m = Some n /\ 0 <= n <= 5
  else
    metadata r = None /\ content r = None /\
    exists message, error r = Some message /\ message <> EmptyString.
End Shape.

End Traffic.

Module Storage.
Import BackupFetcher.

Section Store.
Context `{Platform}.
Variable now : string.
Variable siteId : string.

(** What [storeBackups] writes for a result, if anything: it needs
    metadata and a content that is not the empty string. *)
Definition storable (r : BackupResult) : option (BackupMetadata * string) :=
  match metadata r, content r with
  | Some m, Some text => if JS.truthy text then Some (m, text) else None
  | _, _ => None
  end.

(** The store after one result has been written. *)
Definition recorded (r : BackupResult) (m : BackupMetadata) (text : string)
    (store : gmap string string) : gmap string string :=
  let urlHash := getUrlHash (url r) in
  let written :=
    <[latestKey siteId urlHash := JSON_stringify (metadataJson m)]>
      (<[metadataKey siteId (today now) urlHash := JSON_stringify (metadataJson m)]>
         (<[contentKey siteId (today now) urlHash := text]> store)) in
  match store !! latestKey siteId urlHash with
  | Some previous =>
      if JS.truthy previous
      then <[prevLatestKey siteId urlHash := previous]> written
      else written
  | None => written
  end.

(** The four keys written for one URL hash. *)
Definition keysOf (urlHash : string) : list string :=
  [contentKey siteId (today now) urlHash; metadataKey siteId (today now) urlHash;
   latestKey siteId urlHash; prevLatestKey siteId urlHash].

Definition hashes (results : list BackupResult) : list string :=
  (fun r => getUrlHash (url r)) <$> results.

(** Results that are all written, each under a URL hash of its own. *)
Definition allStorable (results : list BackupResult) : Prop :=
  NoDup (hashes results) /\
  forall r m, In r results -> metadata r = Some m ->
              exists text, storable r = Some (m, text).

(** What the detector reports for [results] against the latest records
    of [store]. *)
Definition reported (store : gmap string string) (results : list BackupResult)
  : list string :=
  url <$> List.filter
            (fun r => match metadata r with
                      | Some m =>
                          changedAgainst
                            (store !! latestKey siteId (getUrlHash (url r))) m
                      | None => false
                      end) results.
End Store.

End Storage.

Module Retention.
Import BackupFetcher.

(** Whether the code unit [sep] is absent from [s]. *)
Fixpoint free (sep : ascii) (s : string) : bool :=
  match s with
  | EmptyString => true
  | String c s' => negb (Ascii.eqb c sep) && free sep s'
  end.

Section Cutoff.
Context `{Platform}.
Variable now : string.

(** The first day that is kept; backups dated before it are expired. *)
Definition cutoffString (retentionDays : Z) : string :=
  Str.isoDate (minusDays now retentionDays).

(** The keys one run of the cleanup deletes in state [w]. *)
Definition doomed (siteId : string) (retentionDays : Z) (w : World) : list string :=
  match KV.list ("backup:" +:+ siteId +:+ ":") 1000 w with
  | Done keys _ => concat (expiredKeys (cutoffString retentionDays) <$> keys)
  | Diverges _ => []
  end.
End Cutoff.

End Retention.

Module Accounting.
Import BackupFetcher.

(** What the fields of a result say about each other and about the
    resolved URLs [allUrls]. *)
Definition accounted (allUrls : list string) (r : BatchedBackupResult) : Prop :=
  totalUrls r = count allUrls /\
  url <$> results r
  = JS.slice allUrls (r_batchOffset r) (r_batchOffset r + r_batchSize r) /\
  processedInBatch r = count (results r) /\
  successfulBackups r = count (List.filter success (results r)) /\
  successfulBackups r + failedBackups r = processedInBatch r /\
  count (errors r) = failedBackups r /\
  Forall (fun message => message <> EmptyString) (errors r) /\
  incl (changedUrls r) (url <$> List.filter success (results r)) /\
  r_batchSize r <= MAX_BATCH_SIZE /\
  (0 <= r_batchSize r -> processedInBatch r <= r_batchSize r) /\
  nextOffset r
  = (if hasMore r then Some (r_batchOffset r + processedInBatch r) else None) /\
  (hasMore r = false -> percentComplete (progress r) = 100).

End Accounting.

(** ** ContentComparer: comparisons and summaries *)

Module Comparison.
Import ContentComparer.

Inductive ChangeType := ContentChange | StatusChange | MetadataChange.

Record DiffResult := {
  dr_url : string;
  hasChanged : bool;
  dr_previousHash : option string;
  dr_currentHash : option string;
  changeSize : Z;
  changeType : ChangeType
}.

Record LineSummary := {
  linesAdded : Z;
  linesRemoved : Z;
  charsAdded : Z;
  charsRemoved : Z
}.

Record DiffComparison := {
  dc_url : string;
  previousContent : option string;
  currentContent : string;
  dc_hasChanged : bool;
  diffSummary : LineSummary
}.

Definition len (s : string) : Z := Z.of_nat (String.length s).

(** [set.has(line)] *)
Definition has (lines : list string) (line : string) : bool :=
  existsb (String.eqb line) lines.

(** [new Set(lines)] iterated: the distinct lines in the order of their
    first occurrence. *)
Fixpoint distinctFrom (seen lines : list string) : list string :=
  match lines with
  | [] => []
  | line :: rest =>
      if has seen line then distinctFrom seen rest
      else line :: distinctFrom (line :: seen) rest
  end.

Definition distinct (lines : list string) : list string := distinctFrom [] lines.

Definition countAddedLines (previousLines currentLines : list string) : Z :=
  Z.of_nat (length (List.filter (fun line => negb (has (distinct previousLines) line))
                      (distinct currentLines))).

Definition countRemovedLines (previousLines currentLines : list string) : Z :=
  Z.of_nat (length (List.filter (fun line => negb (has (distinct currentLines) line))
                      (distinct previousLines))).

Definition isSignificantChange (previousContent currentContent : string)
    (minChangeSize : option Z) : bool :=
  let sizeDiff := Z.abs (len currentContent - len previousContent) in
  default 0 minChangeSize <=? sizeDiff.

Section WithPlatform.
Context `{Platform}.

Definition compareContent (u previousContent currentContent : string)
    (ignorePatterns : option (list string)) : DiffResult :=
  let previousHash := calculateNormalizedHash previousContent ignorePatterns in
  let currentHash := calculateNormalizedHash currentContent ignorePatterns in
  let hasChanged := negb (String.eqb previousHash currentHash) in
  {| dr_url := u; hasChanged := hasChanged;
     dr_previousHash := Some previousHash; dr_currentHash := Some currentHash;
     changeSize := Z.abs (len currentContent - len previousContent);
     changeType := if hasChanged then ContentChange else MetadataChange |}.

Definition generateDiff (previousContent currentContent : string) : DiffComparison :=
  let normalizedPrevious := normalizeContent previousContent None in
  let normalizedCurrent := normalizeContent currentContent None in
  let previousLines := Str.split "010" normalizedPrevious in
  let currentLines := Str.split "010" normalizedCurrent in
  {| dc_url := EmptyString;
     previousContent := Some normalizedPrevious;
     currentContent := normalizedCurrent;
     dc_hasChanged := negb (String.eqb normalizedPrevious normalizedCurrent);
     diffSummary :=
       {| linesAdded := countAddedLines previousLines currentLines;
          linesRemoved := countRemovedLines previousLines currentLines;
          charsAdded := Z.max 0 (len normalizedCurrent - len normalizedPrevious);
          charsRemoved := Z.max 0 (len normalizedPrevious - len normalizedCurrent) |} |}.

Definition compareBatch
    (comparisons : list (string * string * string * option (list string)))
  : list DiffResult :=
  (fun '(u, previousContent, currentContent, ignorePatterns) =>
     compareContent u previousContent currentContent ignorePatterns) <$> comparisons.
End WithPlatform.

Record ChangeSummary := {
  cs_totalUrls : Z;
  cs_changedUrls : Z;
  totalChanges : Z;
  (** [totalChanges / changedResults.length] as a fraction, [0] over [1]
      when nothing changed *)
  averageChangeSize : Z * Z;
  largestChange : option (string * Z)
}.

(** The body of the loop over the changed results:
    [if (!largestChange || result.changeSize > largestChange.size)]. *)
Definition pick (largest : option (string * Z)) (result : DiffResult)
  : option (string * Z) :=
  match largest with
  | Some (_, size) =>
      if size <? changeSize result
      then Some (dr_url result, changeSize result) else largest
  | None => Some (dr_url result, changeSize result)
  end.

Definition summarizeChanges (diffResults : list DiffResult) : ChangeSummary :=
  let changedResults := List.filter hasChanged diffResults in
  let totalChanges := foldl (fun sum result => sum + changeSize result) 0 changedResults in
  {| cs_totalUrls := Z.of_nat (length diffResults);
     cs_changedUrls := Z.of_nat (length changedResults);
     totalChanges := totalChanges;
     averageChangeSize :=
       match changedResults with
       | [] => (0, 1)
       | _ :: _ => (totalChanges, Z.of_nat (length changedResults))
       end;
     largestChange := foldl pick None changedResults |}.

(** [firstLargest l u size]: [u] and [size] are those of the first
    result of [l] that no result of [l] exceeds in size. *)
Definition firstLargest (l : list DiffResult) (u : string) (size : Z) : Prop :=
  exists before r after,
    l = before ++ r :: after /\ dr_url r = u /\ changeSize r = size /\
    (forall x, In x before -> changeSize x < size) /\
    (forall x, In x after -> changeSize x <= size).

End Comparison.

(** ** A concrete platform to run the model on

    The library functions of [Platform] are given simple stand-ins with
    the properties the worker relies on: an injective digest, a JSON
    codec that round-trips, and an XML reader that finds the [<loc>]
    entries of a sitemap. *)

Module Sample.

(** *** The JSON codec: a tag, then lengths in unary *)

Definition natCode (n : nat) : list ascii := List.repeat "1"%char n ++ ["0"%char].

Definition strCode (s : string) : list ascii :=
  natCode (String.length s) ++ list_ascii_of_string s.

Fixpoint write (j : Json) : list ascii :=
  match j with
  | JNull => ["n"%char]
  | JBool b => [if b then "t"%char else "f"%char]
  | JNum n =>
      "i"%char :: (if n <? 0 then "-"%char else "+"%char) :: natCode (Z.abs_nat n)
  | JStr s => "s"%char :: strCode s
  | JArr items => "a"%char :: natCode (length items) ++ concat (map write items)
  | JObj fields =>
      "o"%char :: natCode (length fields)
        ++ concat (map (fun '(k, v) => strCode k ++ write v) fields)
  end.

Fixpoint readNat (s : list ascii) : option (nat * list ascii) :=
  match s with
  | c :: s' =>
      if Ascii.eqb c "1" then
        match readNat s' with
        | Some (n, rest) => Some (S n, rest)
        | None => None
        end
      else if Ascii.eqb c "0" then Some (O, s')
      else None
  | [] => None
  end.

Definition readStr (s : list ascii) : option (string * list ascii) :=
  match readNat s with
  | Some (n, rest) =>
      if (length rest <? n)%nat then None
      else Some (string_of_list_ascii (take n rest), drop n rest)
  | None => None
  end.

(** [n] values, each read by [one]. *)
Fixpoint readItems (one : list ascii -> option (Json * list ascii)) (n : nat)
    (s : list ascii) : option (list Json * list ascii) :=
  match n with
  | O => Some ([], s)
  | S n' =>
      match one s with
      | Some (j, s1) =>
          match readItems one n' s1 with
          | Some (js, s2) => Some (j :: js, s2)
          | None => None
          end
      | None => None
      end
  end.

(** [n] members, each a key and a value read by [one]. *)
Fixpoint readFields (one : list ascii -> option (Json * list ascii)) (n : nat)
    (s : list ascii) : option (list (string * Json) * list ascii) :=
  match n with
  | O => Some ([], s)
  | S n' =>
      match readStr s with
      | Some (k, s1) =>
          match one s1 with
          | Some (v, s2) =>
              match readFields one n' s2 with
              | Some (kvs, s3) => Some ((k, v) :: kvs, s3)
              | None => None
              end
          | None => None
          end
      | None => None
      end
  end.

Fixpoint read (fuel : nat) (s : list ascii) : option (Json * list ascii) :=
  match fuel with
  | O => None
  | S fuel' =>
      match s with
      | [] => None
      | tag :: rest =>
          if Ascii.eqb tag "n" then Some (JNull, rest)
          else if Ascii.eqb tag "t" then Some (JBool true, rest)
          else if Ascii.eqb tag "f" then Some (JBool false, rest)
          else if Ascii.eqb tag "i" then
            match rest with
            | sign :: digits =>
                match readNat digits with
                | Some (n, rest') =>
                    if Ascii.eqb sign "-" then Some (JNum (- Z.of_nat n), rest')
                    else if Ascii.eqb sign "+" then Some (JNum (Z.of_nat n), rest')
                    else None
                | None => None
                end
            | [] => None
            end
          else if Ascii.eqb tag "s" then
            match readStr rest with
            | Some (text, rest') => Some (JStr text, rest')
            | None => None
            end
          else if Ascii.eqb tag "a" then
            match readNat rest with
            | Some (n, rest') =>
                match readItems (read fuel') n rest' with
                | Some (items, rest'') => Some (JArr items, rest'')
                | None => None
                end
            | None => None
            end
          else if Ascii.eqb tag "o" then
            match readNat rest with
            | Some (n, rest') =>
                match readFields (read fuel') n rest' with
                | Some (fields, rest'') => Some (JObj fields, rest'')
                | None => None
                end
            | None => None
            end
          else None
      end
  end.

Definition stringify (j : Json) : string := string_of_list_ascii (write j).

Definition parse (text : string) : option Json :=
  let s := list_ascii_of_string text in
  match read (S (length s)) s with
  | Some (j, []) => Some j
  | _ => None
  end.

(** *** The XML reader *)

Fixpoint contains (needle : string) (s : string) : bool :=
  String.prefix needle s ||
  match s with
  | EmptyString => false
  | String _ s' => contains needle s'
  end.

(** The texts between [<loc>] and [</loc>]; [skip] counts the units of a
    tag still to be passed, [inside] collects the current text. *)
Fixpoint locTexts (skip : nat) (inside : option string) (s : string) : list string :=
  match s with
  | EmptyString => []
  | String c s' =>
      match skip with
      | S n => locTexts n inside s'
      | O =>
          match inside with
          | None =>
              if String.prefix "<loc>" s then locTexts 4 (Some EmptyString) s'
              else locTexts 0 None s'
          | Some text =>
              if String.prefix "</loc>" s
              then String.rev text :: locTexts 5 None s'
              else locTexts 0 (Some (String c text)) s'
          end
      end
  end.

Definition entries (root : string) (xmlText : string) : option (list (option string)) :=
  if contains root xmlText then
    match locTexts 0 None xmlText with
    | [] => None
    | texts => Some (Some <$> texts)
    end
  else None.

Definition xml (xmlText : string) : option XmlDoc :=
  Some {| urlset_url := entries "<urlset" xmlText;
          sitemapindex_sitemap := entries "<sitemapindex" xmlText |}.

(** *** The platform *)

(** Patterns are compiled by the engine of [RegExp], with the flag i
    when the flags name it; every replacement is global. *)
Definition regExp (source flags : string) : option RegExpObject.t :=
  (fun r =>
     {| RegExpObject.test := RegExp.test r;
        RegExpObject.replace := fun s replacement =>
          RegExp.replaceGroups r (RegExp.groupCount source) replacement s |})
  <$> RegExp.compile source (contains "i" flags).

(** The digest is the reversed text (injective, like SHA-256 on the inputs
    at hand); markup is left as it is by the minifier; redirect targets
    are absolute; the calendar is not implemented, the cutoff of the
    retention cleanup is the given timestamp itself. *)
#[local] Instance platform : Platform := {|
  calculateHash := String.rev;
  JSON_parse := parse;
  JSON_stringify := stringify;
  parseXml := xml;
  minify := Some;
  minifyContinuing := Some;
  newRegExp := regExp;
  resolveUrl := fun location _ => Some location;
  minusDays := fun timestamp _ => timestamp
|}.

Definition emptyWorld : World := {| kv := ∅; fetched := [] |}.

(** A custom pattern for [normalizeHTML], markup with a nonce, a
    version, a time and a match of the pattern, and its normalized
    text. *)
Definition secretPattern : list (RegExpObject.t * string) :=
  match ContentNormalizer.createCustomPattern "secret" "secret-\d+" "[SECRET]" with
  | Some (_, pattern, replacement) => [(pattern, replacement)]
  | None => []
  end.

Definition noisyMarkup : string :=
  "<p nonce=" +:+ ContentNormalizer.quote +:+ "abc" +:+ ContentNormalizer.quote
  +:+ "> v1.2.3 , 12:30:45 </p> <p>secret-12</p>".

Definition stableMarkup : string :=
  "<p nonce=" +:+ ContentNormalizer.quote +:+ "[NONCE]" +:+ ContentNormalizer.quote
  +:+ ">[VERSION],[TIME]</p><p>[SECRET]</p>".

Definition okResponse (u text : string) : FetchOutcome :=
  Responded {| status := 200; statusText := "OK"; redirected := false;
               responseUrl := u; headers := [("content-type", "text/html")];
               body := text |}.

(** A site whose sitemap is served at [/sitemap.xml] with the given text
    and whose pages all answer with the same document. *)
Definition site (sitemapText : string) : Network := fun req =>
  if String.eqb (requestUrl req) "https://example.com/sitemap.xml"
  then okResponse (requestUrl req) sitemapText
  else okResponse (requestUrl req) "<html><body>ok</body></html>".

Definition config : SiteConfig :=
  {| id := "test-site"; name := "Test Site"; baseUrl := "https://example.com";
     sitemapUrl := Some "https://example.com/sitemap.xml"; urls := None;
     retentionDays := 7; schedule := "0 2 * * *"; slackWebhook := None;
     fetchOptions := {| timeout := 10000; retries := 2; concurrency := 3 |};
     changeThreshold := Some {| minChangeSize := Some 0; ignorePatterns := Some [] |};
     excludePatterns := None |}.

Definition continueWith (size : Z) : option BatchOptions :=
  Some {| batchSize := Some size; batchOffset := None; continueFromLast := Some true |}.

Definition urlEntry (loc lastmod : string) : string :=
  "<url><loc>" +:+ loc +:+ "</loc><lastmod>" +:+ lastmod +:+ "</lastmod></url>".

Definition now : string := "2026-02-22T10:00:00.000Z".

Definition sitemapXml : string := "https://example.com/sitemap.xml".
Definition sitemapB : string := "https://example.com/sitemap-b.xml".

Definition indexOf (loc : string) : string :=
  "<sitemapindex><sitemap><loc>" +:+ loc +:+ "</loc></sitemap></sitemapindex>".

(** Sitemap A is an index that lists B, and B is an index that lists A. *)
Definition cycle : Network := fun req =>
  if String.eqb (requestUrl req) sitemapB
  then okResponse (requestUrl req) (indexOf sitemapXml)
  else okResponse (requestUrl req) (indexOf sitemapB).

(** Two versions of one sitemap: the same two [<loc>] entries, a later
    [<lastmod>] in the second. *)
Definition firstSitemap : string :=
  "<urlset>" +:+ urlEntry "https://example.com/page1" "2026-02-22T00:00:00Z"
  +:+ urlEntry "https://example.com/page2" "2026-02-22T00:00:00Z" +:+ "</urlset>".
Definition secondSitemap : string :=
  "<urlset>" +:+ urlEntry "https://example.com/page1" "2026-02-22T00:05:00Z"
  +:+ urlEntry "https://example.com/page2" "2026-02-22T00:05:00Z" +:+ "</urlset>".

(** A flat sitemap of 101 pages. *)
Definition largeSitemap : string :=
  "<urlset>"
  +:+ String.concat EmptyString
        ((fun i : nat => urlEntry ("https://example.com/page" +:+ pretty i) "2026-02-22")
           <$> seq 1 101)
  +:+ "</urlset>".

(** A site whose sitemap answers with a server error. *)
Definition broken : Network := fun req =>
  Responded {| status := 500; statusText := "Internal Server Error";
               redirected := false; responseUrl := requestUrl req;
               headers := []; body := EmptyString |}.

(** A store that holds saved progress at the given offset. *)
Definition resumedAt (offset totalUrls : Z) : World :=
  {| kv := {[ BackupFetcher.progressKey "test-site" :=
                stringify (BackupFetcher.progressJson offset totalUrls now) ]};
     fetched := [] |}.

Definition stateAfter {A : Type} (o : Outcome A) : World :=
  match o with
  | Done _ w => w
  | Diverges w => w
  end.

Definition resultOf {A : Type} (o : Outcome A) : option A :=
  match o with
  | Done a _ => Some a
  | Diverges _ => None
  end.

(** The requests of a log that are not for the sitemap. *)
Definition pageFetches (w : World) : list string :=
  List.filter (fun u => negb (String.eqb u sitemapXml)) (fetched w).

Definition everyCall (net : Network) (size : option Z) : nat -> Cycle.Call :=
  fun _ => {| Cycle.servers := net; Cycle.clock := now; Cycle.depth := 5;
              Cycle.requestedSize := size |}.

(** *** Runs and stores used in the statements *)

Definition page1 : string := "https://example.com/page1".
Definition page2 : string := "https://example.com/page2".

(** The first run of a cycle on an empty store, and a second run after
    it, possibly on a changed sitemap. *)
Definition firstRun (sitemapText : string) : Outcome BatchedBackupResult :=
  BackupFetcher.performSiteBackup (site sitemapText) now 5 config (continueWith 25) emptyWorld.

Definition secondRun (before after : string) : Outcome BatchedBackupResult :=
  BackupFetcher.performSiteBackup (site after) now 5 config (continueWith 25)
    (stateAfter (firstRun before)).

(** A continuation that finds progress saved at offset 50 while the
    sitemap lists two pages. *)
Definition staleRun : Outcome BatchedBackupResult :=
  BackupFetcher.performSiteBackup (site firstSitemap) now 5 config (continueWith 25)
    (resumedAt 50 101).

(** A cycle on the sitemap of 101 pages that a failure interrupts: after
    the first run the sitemap answers with a server error, and a quarter
    of an hour later it is served again as before. *)
Definition interruptedRun : Outcome BatchedBackupResult :=
  BackupFetcher.performSiteBackup broken "2026-02-22T10:15:00.000Z" 5 config
    (continueWith 25) (stateAfter (firstRun largeSitemap)).

Definition recoveredRun : Outcome BatchedBackupResult :=
  BackupFetcher.performSiteBackup (site largeSitemap) "2026-02-22T10:30:00.000Z" 5
    config (continueWith 25) (stateAfter interruptedRun).

(** A store with one latest record, and results fetched for two pages. *)
Definition stored : BackupMetadata :=
  {| bm_url := page1; timestamp := "2026-02-21T10:00:00.000Z";
     hash := "raw-before"; normalizedHash := Some "normalized";
     bm_status := 200; contentType := "text/html"; etag := None; size := 28;
     fetchTime := 0; redirectCount := Some 0 |}.

Definition fetchedMetadata (u rawHash : string) : BackupMetadata :=
  {| bm_url := u; timestamp := now; hash := rawHash;
     normalizedHash := Some "normalized"; bm_status := 200;
     contentType := "text/html"; etag := None; size := 28;
     fetchTime := 0; redirectCount := Some 0 |}.

Definition fetchedAs (u rawHash : string) : BackupResult :=
  {| url := u; success := true; metadata := Some (fetchedMetadata u rawHash);
     content := Some "<html><body>ok</body></html>"; error := None |}.

Definition withLatest (text : string) : World :=
  {| kv := {[ BackupFetcher.latestKey "test-site" (BackupFetcher.getUrlHash page1) := text ]}; fetched := [] |}.

Definition latestOf (u : string) : option BackupMetadata :=
  if String.eqb u page1 then Some stored else None.

End Sample.

(** ** Inputs for the examples on fetching, storing and retention *)

Module Scenario.
Import BackupFetcher Sample.
#[local] Existing Instance Sample.platform.

(** Later on the day of [now]. *)
Definition later : string := "2026-02-22T18:30:00.000Z".

(** A store that holds nothing but the record of a full scan a week
    before [now]. *)
Definition lastWeek : World :=
  {| kv := {[ fullScanKey "test-site" :=
                stringify (fullScanJson "2026-02-15" "2026-02-15T10:00:00.000Z" 2) ]};
     fetched := [] |}.

Definition frenchPage : string := "https://example.com/fr/page1".

(** A site configured by a list of pages instead of a sitemap; one of
    the pages lies under an i18n path. *)
Definition listed : SiteConfig :=
  {| id := "test-site"; name := "Test Site"; baseUrl := "https://example.com";
     sitemapUrl := None; urls := Some [page1; frenchPage; page2];
     retentionDays := 7; schedule := "0 2 * * *"; slackWebhook := None;
     fetchOptions := {| timeout := 10000; retries := 2; concurrency := 3 |};
     changeThreshold := Some {| minChangeSize := Some 0; ignorePatterns := Some [] |};
     excludePatterns := None |}.

(** One batch of 25 from the start, without [continueFromLast]. *)
Definition once : option BatchOptions :=
  Some {| batchSize := Some 25; batchOffset := None; continueFromLast := Some false |}.

Definition listedRun : Outcome BatchedBackupResult :=
  performSiteBackup (site firstSitemap) now 5 listed once emptyWorld.

(** The first batch of size 1 over a sitemap of two pages. *)
Definition partialRun : Outcome BatchedBackupResult :=
  performSiteBackup (site firstSitemap) now 5 config (continueWith 1) emptyWorld.

Definition noConcurrency : FetchOptions :=
  {| timeout := 10000; retries := 2; concurrency := 0 |}.

(** A page that answered with an empty body, and a page that failed. *)
Definition emptyPage : BackupResult :=
  {| url := page2; success := true; metadata := Some (fetchedMetadata page2 "raw");
     content := Some EmptyString; error := None |}.

Definition failedPage : BackupResult :=
  failure page1 "HTTP 500: Internal Server Error".

Definition fetchedPages : list BackupResult :=
  [fetchedAs page1 "raw-after"; fetchedAs page2 "raw"].

(** A store with an old and a recent backup of one page, and its latest
    record. *)
Definition archive : World :=
  {| kv := <[contentKey "test-site" "2026-01-01" "abc" := "<html>old</html>"]>
             (<[metadataKey "test-site" "2026-01-01" "abc" := "old metadata"]>
                (<[contentKey "test-site" "2026-02-22" "abc" := "<html>new</html>"]>
                   (<[metadataKey "test-site" "2026-02-22" "abc" := "new metadata"]>
                      (<[latestKey "test-site" "abc" := "new metadata"]> ∅))));
     fetched := [] |}.

(** Today's backup of a site whose identifier holds a colon. *)
Definition colonArchive : World :=
  {| kv := <[contentKey "shop:1" "2026-02-22" "abc" := "<html>new</html>"]> ∅;
     fetched := [] |}.

(** A site whose second page answers with an empty body. *)
Definition blankSite : Network := fun req =>
  if String.eqb (requestUrl req) page2
  then okResponse (requestUrl req) EmptyString
  else okResponse (requestUrl req) "<html><body>ok</body></html>".

Definition blankRun : Outcome BatchedBackupResult :=
  performSiteBackup blankSite now 5 listed once emptyWorld.

(** The result for the second page of [blankRun]. *)
Definition blankPage : BackupResult :=
  default failedPage
    (results (default buildNoopResult (resultOf blankRun)) !! 1%nat).

(** The sitemap check of a second run on the unchanged sitemap. *)
Definition recheck : Outcome bool :=
  hasSitemapChanged (site firstSitemap) later "test-site" sitemapXml
    (stateAfter (firstRun firstSitemap)).

Definition contentChange (priority : Z) : Diff.ContentChange :=
  {| Diff.cc_priority := priority; Diff.cc_element := "p";
     Diff.cc_position := {| Diff.line := 1; Diff.column := 1 |};
     Diff.cc_change := Diff.Modified; Diff.cc_before := None;
     Diff.cc_after := None; Diff.cc_context := None |}.

(** A diff with seven content changes and nothing else. *)
Definition manyChanges : Diff.DetailedDiff :=
  {| Diff.dd_url := page1; Diff.dd_date := "2026-02-22";
     Diff.previousHash := "before"; Diff.currentHash := "after";
     Diff.classification :=
       {| Diff.content := contentChange <$> [3; 1; 4; 1; 5; 9; 2];
          Diff.style := []; Diff.structure := [] |};
     Diff.summary :=
       {| Diff.totalChanges := 7; Diff.contentChanges := 7; Diff.styleChanges := 0;
          Diff.structureChanges := 0; Diff.highestPriority := 9 |};
     Diff.metadata :=
       {| Diff.generatedAt := now; Diff.generationTime := 0; Diff.isPartial := false;
          Diff.cacheKey := None |} |}.

End Scenario.

(* ================================================================== *)
(** * Theorems *)
(* ================================================================== *)

Module JSFacts.

Section Sort.
Context {A : Type} (cmp : A -> A -> Z).

Lemma insertBy_perm x l : Permutation (JS.insertBy cmp x l) (x :: l).
Proof.
  induction l as [|y l IH]; simpl; [reflexivity|].
  destruct (_ <=? 0); [reflexivity|].
  rewrite IH. apply perm_swap.
Qed.

Lemma sort_perm l : Permutation (JS.sort cmp l) l.
Proof.
  induction l as [|x l IH]; simpl; [reflexivity|].
  unfold JS.sort in *. simpl. rewrite insertBy_perm. by constructor.
Qed.
End Sort.

(** Where [slice] starts inside the list, it returns no more than what is
    left of the list from there; started at or behind the end, it returns
    nothing. *)
Lemma slice_count {A : Type} (l : list A) (start stop : Z) :
  let n := Z.of_nat (length l) in
  let taken := Z.of_nat (length (JS.slice l start stop)) in
  0 <= taken <= n /\
  (start <= n -> start + taken <= n) /\
  (n <= start -> taken = 0).
Proof.
  unfold JS.slice, JS.relIndex. cbv zeta.
  rewrite length_take, length_drop.
  destruct (Z.ltb_spec start 0), (Z.ltb_spec stop 0); lia.
Qed.

(** A batch of positive size cut at an offset inside the list. *)
Lemma slice_batch {A : Type} (l : list A) (offset size : Z) :
  0 <= offset <= Z.of_nat (length l) -> 0 <= size ->
  Z.of_nat (length (JS.slice l offset (offset + size)))
  = Z.min size (Z.of_nat (length l) - offset).
Proof.
  intros Hoffset Hsize. unfold JS.slice, JS.relIndex.
  rewrite length_take, length_drop.
  destruct (Z.ltb_spec offset 0), (Z.ltb_spec (offset + size) 0); lia.
Qed.

End JSFacts.

Module DiffGeneratorFacts.
Import Diff DiffGenerator JSFacts.

Section Truncation.
Context {A : Type} (priority : A -> Z).

Local Abbreviation byPriority := (prioritySort priority).
Local Abbreviation nonIncreasing :=
  (StronglySorted (fun x y : A => priority y <= priority x)).

Lemma insertBy_sorted x l :
  nonIncreasing l -> nonIncreasing (JS.insertBy byPriority x l).
Proof.
  induction 1 as [|y l Hs IH Hy]; simpl.
  - repeat constructor.
  - destruct (Z.leb_spec (byPriority x y) 0) as [Hle|Hgt];
      unfold byPriority, prioritySort in *.
    + constructor; [by constructor|].
      constructor; [lia|].
      eapply List.Forall_impl; [|exact Hy]. simpl. intros; lia.
    + constructor; [exact IH|].
      eapply Permutation_Forall; [symmetry; apply insertBy_perm|].
      constructor; [lia | exact Hy].
Qed.

Lemma sort_sorted l : nonIncreasing (JS.sort byPriority l).
Proof.
  induction l as [|x l IH]; simpl; [constructor|].
  by apply insertBy_sorted.
Qed.

Lemma sorted_take_drop n l x y :
  nonIncreasing l -> In x (take n l) -> In y (drop n l) ->
  priority y <= priority x.
Proof.
  intros Hs. revert n.
  induction Hs as [|z l Hs IH Hz]; intros n Hx Hy.
  - by rewrite take_nil in Hx.
  - destruct n as [|n]; simpl in *; [done|].
    destruct Hx as [->|Hx]; [|by eapply IH].
    rewrite List.Forall_forall in Hz. apply Hz.
    rewrite <- (take_drop n l). apply in_or_app. by right.
Qed.

(** [slice(0, limit)] always returns a prefix of the array. *)
Lemma slice_from_zero (l : list A) limit :
  exists n, JS.slice l 0 limit = take n l.
Proof.
  unfold JS.slice, JS.relIndex. simpl.
  rewrite (Z.min_l 0) by lia. simpl. eauto.
Qed.

Lemma limitCategory_keptAhead changes limit :
  keptAhead priority changes (limitCategory priority changes limit).
Proof.
  unfold limitCategory, keptAhead.
  destruct (slice_from_zero (JS.sort byPriority changes) limit) as [n ->].
  exists (drop n (JS.sort byPriority changes)). split.
  - rewrite take_drop. symmetry. apply sort_perm.
  - intros x y Hx Hy. eapply sorted_take_drop; eauto using sort_sorted.
Qed.

Lemma limitCategory_length changes limit :
  0 <= limit ->
  Z.of_nat (length (limitCategory priority changes limit))
  = Z.min (Z.of_nat (length changes)) limit.
Proof.
  intros Hl. unfold limitCategory, JS.slice, JS.relIndex.
  destruct (Z.ltb_spec limit 0); [lia|]. simpl.
  rewrite (Z.min_l 0) by lia. simpl.
  rewrite length_take. change (Z.to_nat 0) with 0%nat. rewrite drop_0.
  rewrite (Permutation_length (sort_perm byPriority changes)). lia.
Qed.
End Truncation.

(** C8. For every diff and every limit, [limitChanges] keeps in each
    category a prefix of that category sorted by priority descending:
    what is dropped from a category never has a strictly higher priority
    than what is kept from it. For a non-negative limit the content list is
    cut to 60% of the limit and the style and structure lists to 20% each. *)
Theorem limitChanges_keeps_highest_priority (diff : DetailedDiff) (maxChanges : Z) :
  let limited := classification (limitChanges diff maxChanges) in
  keptAhead cc_priority (content (classification diff)) (content limited) /\
  keptAhead sc_priority (style (classification diff)) (style limited) /\
  keptAhead tc_priority (structure (classification diff)) (structure limited) /\
  (0 <= maxChanges ->
   Z.of_nat (length (content limited))
   = Z.min (Z.of_nat (length (content (classification diff)))) (6 * maxChanges / 10) /\
   Z.of_nat (length (style limited))
   = Z.min (Z.of_nat (length (style (classification diff)))) (2 * maxChanges / 10) /\
   Z.of_nat (length (structure limited))
   = Z.min (Z.of_nat (length (structure (classification diff)))) (2 * maxChanges / 10)).
Proof.
  simpl. repeat split; try apply limitCategory_keptAhead.
  all: apply limitCategory_length; unfold sixtyPercent, twentyPercent;
    apply Z.div_pos; lia.
Qed.

End DiffGeneratorFacts.

(** ** The change detector *)

Module ChangeDetector.
Import BackupFetcher ChangeDetectorSpec.

Section Detect.
Context `{Platform}.

(** The detector never writes and always returns: its result is a
    filter over the batch. *)
Lemma detectChanges_filter siteId results w :
  detectChanges siteId results w
  = Done (url <$> List.filter
                    (fun r => match metadata r with
                              | Some m =>
                                  changedAgainst
                                    (kv w !! latestKey siteId (getUrlHash (url r))) m
                              | None => false
                              end) results) w.
Proof.
  induction results as [|r rest IH]; simpl; [done|].
  destruct (metadata r) as [m|]; [|done].
  unfold mbind, M_bind, KV.get. rewrite IH.
  by destruct (changedAgainst _ m).
Qed.

Lemma orElse_recorded m :
  recorded m ->
  JS.orElse (normalizedHash m) (Some (hash m)) = Some (comparableHash m).
Proof.
  unfold recorded, comparableHash, JS.orElse, JS.truthy.
  destruct (normalizedHash m) as [h|]; [|done]. simpl.
  destruct (String.eqb_spec h EmptyString); [congruence | done].
Qed.

Lemma comparable_of_json p :
  recorded p ->
  Js.orElse (Js.prop (metadataJson p) "normalizedHash")
            (Js.prop (metadataJson p) "hash")
  = Some (JStr (comparableHash p)).
Proof.
  unfold recorded, comparableHash, metadataJson, Js.object.
  destruct (normalizedHash p) as [h|]; simpl.
  - unfold Js.orElse. simpl. unfold JS.truthy.
    destruct (String.eqb_spec h EmptyString); [congruence | done].
  - by destruct (etag p), (redirectCount p).
Qed.

Lemma changedAgainst_spec w siteId u previous m :
  latestIs w siteId u previous -> recorded m ->
  changedAgainst (kv w !! latestKey siteId (getUrlHash u)) m = changed previous m.
Proof.
  intros Hlatest Hm. unfold changedAgainst.
  destruct previous as [p|]; simpl in Hlatest.
  - destruct Hlatest as (text & -> & Hne & -> & Hp).
    assert (JS.truthy text = true) as ->.
    { unfold JS.truthy. by destruct (String.eqb_spec text EmptyString). }
    rewrite (orElse_recorded m Hm).
    assert (exists fields, metadataJson p = JObj fields) as [fields Hobj]
      by (by eexists).
    pose proof (comparable_of_json p Hp) as Hc. rewrite Hobj in Hc |- *.
    rewrite Hc. done.
  - by rewrite Hlatest.
Qed.
End Detect.

(** C3. For the successfully fetched results of a batch, the detector
    reports a URL exactly when it has no stored latest record or when its
    comparable hash (the normalized hash, the raw hash when no normalized
    hash was recorded) differs from that of the stored record; so a result
    whose normalized hash equals the stored one is not reported, whatever
    the raw hashes are. *)
Theorem detectChanges_reports_changed_hashes `{Platform}
    (siteId : string) (results : list BackupResult) (w : World)
    (latest : string -> option BackupMetadata) :
  (forall r m, In r results -> metadata r = Some m ->
               recorded m /\ latestIs w siteId (url r) (latest (url r))) ->
  detectChanges siteId results w = Done (changedUrlsOf latest results) w /\
  (forall m, changed None m = true) /\
  (forall p m h, normalizedHash p = Some h -> normalizedHash m = Some h ->
                 changed (Some p) m = false).
Proof.
  intros Hstore. split; [|split].
  - rewrite detectChanges_filter. unfold changedUrlsOf. do 2 f_equal.
    apply List.filter_ext_in. intros r Hr.
    destruct (metadata r) as [m|] eqn:Hm; [|done].
    destruct (Hstore r m Hr Hm) as [Hrec Hlatest].
    by apply changedAgainst_spec.
  - done.
  - intros p m h Hp Hm. unfold changed, comparableHash. rewrite Hp, Hm. simpl.
    by rewrite String.eqb_refl.
Qed.

(** C10. A stored latest record that does not parse as JSON neither fails
    the batch nor hides the URL: the detector returns, leaves the store as
    it is, and lists the URL as changed. *)
Theorem detectChanges_unparsable_latest_is_changed `{Platform}
    (siteId : string) (results : list BackupResult) (w : World)
    (r : BackupResult) (m : BackupMetadata) (text : string) :
  In r results -> metadata r = Some m ->
  kv w !! latestKey siteId (getUrlHash (url r)) = Some text ->
  JSON_parse text = None ->
  exists changedUrls,
    detectChanges siteId results w = Done changedUrls w /\ In (url r) changedUrls.
Proof.
  intros Hr Hm Hkv Hparse. rewrite detectChanges_filter. eexists; split; [done|].
  apply in_map. apply filter_In. split; [done|].
  rewrite Hm, Hkv. unfold changedAgainst. rewrite Hparse.
  by destruct (JS.truthy text).
Qed.

End ChangeDetector.

(** ** Reasoning about computations *)

Module Steps.
Export Behaviour.


Lemma bind_done {A B : Type} (m : M A) (f : A -> M B) w b w' :
  (m ≫= f) w = Done b w' <->
  exists a w1, m w = Done a w1 /\ f a w1 = Done b w'.
Proof.
  unfold mbind, M_bind. split.
  - destruct (m w) as [a w1|w1]; [eauto | discriminate].
  - by intros (a & w1 & -> & ->).
Qed.

Lemma bind_run {A B : Type} (m : M A) (f : A -> M B) w a w1 :
  m w = Done a w1 -> (m ≫= f) w = f a w1.
Proof. unfold mbind, M_bind. by intros ->. Qed.

Lemma keeps_ret k {A : Type} (a : A) : keeps k (mret a).
Proof. by intros w a' w' [= _ <-]. Qed.

Lemma keeps_bind k {A B : Type} (m : M A) (f : A -> M B) :
  keeps k m -> (forall a, keeps k (f a)) -> keeps k (m ≫= f).
Proof.
  intros Hm Hf w b w' (a & w1 & H1 & H2)%bind_done.
  rewrite (Hf a _ _ _ H2). by eapply Hm.
Qed.

Lemma keeps_diverge k {A : Type} : keeps k (diverge : M A).
Proof. by intros w a w'. Qed.

Lemma total_ret {A : Type} (a : A) : returns (mret a).
Proof. intros w. by do 2 eexists. Qed.

Lemma total_bind {A B : Type} (m : M A) (f : A -> M B) :
  returns m -> (forall a, returns (f a)) -> returns (m ≫= f).
Proof.
  intros Hm Hf w. destruct (Hm w) as (a & w1 & H1).
  destruct (Hf a w1) as (b & w2 & H2).
  exists b, w2. by rewrite (bind_run _ _ _ _ _ H1).
Qed.

Lemma keeps_get k key : keeps k (KV.get key).
Proof. by intros w a w' [= _ <-]. Qed.

Lemma keeps_put k key value : k <> key -> keeps k (KV.put key value).
Proof. intros Hne w a w' [= _ <-]. simpl. by rewrite lookup_insert_ne. Qed.

Lemma keeps_delete k key : k <> key -> keeps k (KV.delete key).
Proof. intros Hne w a w' [= _ <-]. simpl. by rewrite lookup_delete_ne. Qed.

Lemma keeps_list k prefix limit : keeps k (KV.list prefix limit).
Proof. by intros w a w' [= _ <-]. Qed.

Lemma total_get key : returns (KV.get key).
Proof. intros w. by do 2 eexists. Qed.

Lemma total_put key value : returns (KV.put key value).
Proof. intros w. by do 2 eexists. Qed.

Lemma total_delete key : returns (KV.delete key).
Proof. intros w. by do 2 eexists. Qed.

Lemma total_list prefix limit : returns (KV.list prefix limit).
Proof. intros w. by do 2 eexists. Qed.

Lemma keeps_fetch k net req : keeps k (BackupFetcher.fetch net req).
Proof. by intros w a w' [= _ <-]. Qed.

Lemma total_fetch net req : returns (BackupFetcher.fetch net req).
Proof. intros w. by do 2 eexists. Qed.

(** A step that returns and keeps [k] can be run in front of what
    follows it. *)
Lemma run_step k {A B : Type} (m : M A) (f : A -> M B) w :
  returns m -> keeps k m ->
  exists a w1, kv w1 !! k = kv w !! k /\ (m ≫= f) w = f a w1.
Proof.
  intros Ht Hk. destruct (Ht w) as (a & w1 & H1).
  exists a, w1. split; [by eapply Hk | by apply bind_run].
Qed.

Create HintDb steps.

#[global] Hint Resolve keeps_ret keeps_diverge keeps_get keeps_list keeps_fetch
  total_ret total_get total_put total_delete total_list total_fetch : steps.

(** Two keys of the store that differ in their fixed prefixes. *)
Ltac distinct_keys :=
  unfold BackupFetcher.progressKey, BackupFetcher.sitemapStateKey,
    BackupFetcher.fullScanKey, BackupFetcher.latestKey,
    BackupFetcher.prevLatestKey, BackupFetcher.contentKey,
    BackupFetcher.metadataKey;
  simpl; discriminate.

(** One structural step through a computation. *)
Ltac step :=
  lazymatch goal with
  | |- keeps _ (mbind _ _) => apply keeps_bind; [|intros ?]
  | |- returns (mbind _ _) => apply total_bind; [|intros ?]
  | |- keeps _ (KV.put _ _) => apply keeps_put; distinct_keys
  | |- keeps _ (KV.delete _) => apply keeps_delete; distinct_keys
  | |- keeps _ (match ?x with _ => _ end) => destruct x
  | |- returns (match ?x with _ => _ end) => destruct x
  | |- _ => solve [eauto with steps]
  end.

End Steps.

(** ** The batch state machine *)

Module Machine.
Import BackupFetcher Steps.

Section Frame.
Context `{Platform}.
Variable net : Network.
Variable now : string.
(** The site whose progress record is followed. *)
Variable p : string.

Local Abbreviation keepsProgress := (keeps (progressKey p)).

Lemma recordSitemapState_keeps siteId response xmlText :
  keepsProgress (recordSitemapState now siteId response xmlText).
Proof. unfold recordSitemapState. step. Qed.

Lemma recordSitemapState_total siteId response xmlText :
  returns (recordSitemapState now siteId response xmlText).
Proof. unfold recordSitemapState. step. Qed.

Hint Resolve recordSitemapState_keeps recordSitemapState_total : steps.

Lemma parseSitemap_keeps fuel siteId sitemapUrl :
  keepsProgress (parseSitemap net now fuel siteId sitemapUrl).
Proof.
  revert sitemapUrl. induction fuel as [|fuel IH]; intros sitemapUrl;
    cbn [parseSitemap]; repeat step.
  match goal with |- keeps _ (foldl ?f _ ?l) =>
    assert (forall acc : M (list string),
               keepsProgress acc -> keepsProgress (foldl f acc l)) as Hfold
  end.
  { match goal with |- forall acc, _ -> keeps _ (foldl _ _ ?l) =>
      induction l as [|loc rest IHs] end;
      intros acc Hacc; cbn [foldl]; [done|].
    apply IHs. repeat step. }
  apply Hfold. step.
Qed.

Lemma getUrlsToBackup_keeps fuel siteConfig :
  keepsProgress (getUrlsToBackup net now fuel siteConfig).
Proof.
  unfold getUrlsToBackup. repeat step.
  all: try (destruct (JS.truthy _); repeat step); apply parseSitemap_keeps.
Qed.

Lemma hasSitemapChanged_keeps siteId sitemapUrl :
  keepsProgress (hasSitemapChanged net now siteId sitemapUrl).
Proof. unfold hasSitemapChanged. repeat step. Qed.

Lemma hasSitemapChanged_total siteId sitemapUrl :
  returns (hasSitemapChanged net now siteId sitemapUrl).
Proof. unfold hasSitemapChanged. repeat step. Qed.

Lemma getFullScanState_run siteId w :
  exists j, getFullScanState siteId w = Done j w.
Proof.
  unfold getFullScanState, mbind, M_bind, KV.get.
  destruct (kv w !! _) as [text|]; [destruct (JS.truthy text)|]; by eexists.
Qed.

Lemma loadBatchProgress_run siteId w :
  exists j, loadBatchProgress siteId w = Done j w.
Proof.
  unfold loadBatchProgress, mbind, M_bind, KV.get.
  destruct (kv w !! _) as [text|]; [destruct (JS.truthy text)|]; by eexists.
Qed.

Lemma getFullScanState_keeps siteId : keepsProgress (getFullScanState siteId).
Proof.
  intros w j w' Hrun. destruct (getFullScanState_run siteId w) as [j' Hj].
  rewrite Hj in Hrun. by injection Hrun as _ <-.
Qed.

Lemma getFullScanState_total siteId : returns (getFullScanState siteId).
Proof. intros w. destruct (getFullScanState_run siteId w) as [j Hj]. eauto. Qed.

Hint Resolve hasSitemapChanged_keeps hasSitemapChanged_total
  getFullScanState_keeps getFullScanState_total : steps.

Lemma alreadyScanned_keeps siteConfig :
  keepsProgress (alreadyScanned net now siteConfig).
Proof. unfold alreadyScanned. repeat step. Qed.

Lemma alreadyScanned_total siteConfig : returns (alreadyScanned net now siteConfig).
Proof. unfold alreadyScanned. repeat step. Qed.

Lemma followRedirects_keeps hops currentUrl response redirectCount :
  keepsProgress (followRedirects net hops currentUrl response redirectCount).
Proof.
  revert currentUrl response redirectCount.
  induction hops as [|hops IH]; intros; cbn [followRedirects]; repeat step.
Qed.

Lemma followRedirects_total hops currentUrl response redirectCount :
  returns (followRedirects net hops currentUrl response redirectCount).
Proof.
  revert currentUrl response redirectCount.
  induction hops as [|hops IH]; intros; cbn [followRedirects]; repeat step.
Qed.

Hint Resolve followRedirects_keeps followRedirects_total : steps.

Lemma performFetch_keeps u : keepsProgress (performFetch net u).
Proof. unfold performFetch. repeat step. Qed.

Lemma performFetch_total u : returns (performFetch net u).
Proof. unfold performFetch. repeat step. Qed.

Hint Resolve performFetch_keeps performFetch_total : steps.

Lemma fetchAttempts_keeps attempts u ignorePatterns lastError :
  keepsProgress (fetchAttempts net now attempts u ignorePatterns lastError).
Proof.
  revert lastError. induction attempts as [|attempts IH]; intros;
    cbn [fetchAttempts]; repeat step.
Qed.

Lemma fetchAttempts_total attempts u ignorePatterns lastError :
  returns (fetchAttempts net now attempts u ignorePatterns lastError).
Proof.
  revert lastError. induction attempts as [|attempts IH]; intros;
    cbn [fetchAttempts]; repeat step.
Qed.

Hint Resolve fetchAttempts_keeps fetchAttempts_total : steps.

Lemma fetchChunk_keeps batch options ignorePatterns :
  keepsProgress (fetchChunk net now batch options ignorePatterns).
Proof.
  induction batch as [|u rest IH]; cbn [fetchChunk]; unfold fetchUrlWithRetries;
    repeat step.
Qed.

Lemma fetchChunk_total batch options ignorePatterns :
  returns (fetchChunk net now batch options ignorePatterns).
Proof.
  induction batch as [|u rest IH]; cbn [fetchChunk]; unfold fetchUrlWithRetries;
    repeat step.
Qed.

Hint Resolve fetchChunk_keeps fetchChunk_total : steps.

Lemma fetchChunks_keeps iterations urls i step options ignorePatterns acc :
  keepsProgress (fetchChunks net now iterations urls i step options ignorePatterns acc).
Proof.
  revert i acc. induction iterations as [|iterations IH]; intros;
    cbn [fetchChunks]; repeat step.
Qed.

(** The chunk loop returns when its step is positive: [iterations] rounds
    are enough for what is left of the list. *)
Lemma fetchChunks_total iterations urls i step options ignorePatterns acc w :
  1 <= step -> (Z.to_nat (Z.of_nat (length urls) - i) <= iterations)%nat ->
  exists rs w',
    fetchChunks net now iterations urls i step options ignorePatterns acc w
    = Done rs w'.
Proof.
  intros Hstep. revert i acc w.
  induction iterations as [|iterations IH]; intros i acc w Hleft; cbn [fetchChunks].
  - destruct (Z.ltb_spec i (Z.of_nat (length urls))); [lia | by do 2 eexists].
  - destruct (Z.ltb_spec i (Z.of_nat (length urls))); [|by do 2 eexists].
    destruct (fetchChunk_total (JS.slice urls i (i + step)) options ignorePatterns w)
      as (rs & w1 & Hrs).
    rewrite (bind_run _ _ _ _ _ Hrs). apply IH. lia.
Qed.

Lemma fetchUrlsWithConcurrency_keeps urls options ignorePatterns :
  keepsProgress (fetchUrlsWithConcurrency net now urls options ignorePatterns).
Proof. apply fetchChunks_keeps. Qed.

Lemma fetchUrlsWithConcurrency_total urls options ignorePatterns :
  1 <= concurrency options ->
  returns (fetchUrlsWithConcurrency net now urls options ignorePatterns).
Proof. intros Hc w. apply fetchChunks_total; lia. Qed.

Lemma detectChanges_keeps siteId results : keepsProgress (detectChanges siteId results).
Proof.
  intros w a w' Hrun. rewrite ChangeDetector.detectChanges_filter in Hrun.
  by injection Hrun as _ <-.
Qed.

Lemma detectChanges_total siteId results : returns (detectChanges siteId results).
Proof. intros w. rewrite ChangeDetector.detectChanges_filter. eauto. Qed.

Lemma storeBackups_keeps siteId results :
  keepsProgress (storeBackups now siteId results).
Proof. induction results as [|r rest IH]; cbn [storeBackups]; repeat step. Qed.

Lemma storeBackups_total siteId results : returns (storeBackups now siteId results).
Proof. induction results as [|r rest IH]; cbn [storeBackups]; repeat step. Qed.

Lemma prefix_cons a q s :
  String.prefix (String a q) s = true ->
  exists s', s = String a s' /\ String.prefix q s' = true.
Proof.
  destruct s as [|b s']; simpl; [discriminate|].
  destruct (ascii_dec a b) as [->|]; [eauto | discriminate].
Qed.

(** A listed backup key and the metadata key derived from it are not the
    progress key. *)
Lemma backup_key_not_progress rest key :
  String.prefix ("backup:" +:+ rest) key = true ->
  key <> progressKey p /\ Str.replaceFirst "backup:" "meta:" key <> progressKey p.
Proof.
  intros Hprefix. simpl in Hprefix.
  repeat (apply prefix_cons in Hprefix as (? & -> & Hprefix)).
  split; [unfold progressKey; simpl; discriminate|].
  unfold Str.replaceFirst. simpl.
  assert (String.prefix EmptyString x = true) as -> by (by destruct x).
  unfold progressKey; simpl; discriminate.
Qed.

Lemma list_prefix prefix limit w keys w' key :
  KV.list prefix limit w = Done keys w' -> In key keys ->
  String.prefix prefix key = true.
Proof.
  intros [= <- _] Hin.
  assert (In key (JS.sort Str.compareZ
                    (List.filter (String.prefix prefix) (fst <$> map_to_list (kv w)))))
    as Hsorted.
  { rewrite <- (take_drop limit (JS.sort _ _)). apply in_or_app. by left. }
  eapply Permutation_in in Hsorted; [|apply JSFacts.sort_perm].
  by apply filter_In in Hsorted as [_ ?].
Qed.

Lemma deleteAll_keeps keys (acc : M ()) :
  (forall key, In key keys -> key <> progressKey p) ->
  keepsProgress acc ->
  keepsProgress (foldl (fun (acc : M ()) key => acc;; KV.delete key) acc keys).
Proof.
  revert acc. induction keys as [|key rest IH]; intros acc Hkeys Hacc; cbn [foldl];
    [done|].
  apply IH; [by intros ? ?; apply Hkeys; right|].
  apply keeps_bind; [done|]. intros _. apply keeps_delete.
  intros Heq. by apply (Hkeys key); [left|].
Qed.

Lemma deleteAll_total keys (acc : M ()) :
  returns acc -> returns (foldl (fun (acc : M ()) key => acc;; KV.delete key) acc keys).
Proof.
  revert acc. induction keys as [|key rest IH]; intros acc Hacc; cbn [foldl]; [done|].
  apply IH. repeat step.
Qed.

Lemma cleanupOldBackups_keeps siteId retentionDays :
  keepsProgress (cleanupOldBackups now siteId retentionDays).
Proof.
  unfold cleanupOldBackups. intros w a w' (keys & w1 & Hlist & Hrun)%bind_done.
  assert (kv w1 = kv w) as <- by (by injection Hlist as _ <-).
  revert Hrun. apply deleteAll_keeps; [|step].
  intros key (names & Hnames & Hkey)%in_concat.
  apply in_map_iff in Hnames as (keyName & <- & HkeyName).
  pose proof (list_prefix _ _ _ _ _ _ Hlist HkeyName) as Hprefix.
  apply backup_key_not_progress in Hprefix as [Hne Hmeta].
  unfold expiredKeys in Hkey.
  destruct (Str.split ":" keyName) as [|? [|? [|date [|? ?]]]]; try done.
  destruct (String.ltb date _); [|done].
  destruct Hkey as [<-|[<-|[]]]; done.
Qed.

Lemma cleanupOldBackups_total siteId retentionDays :
  returns (cleanupOldBackups now siteId retentionDays).
Proof.
  unfold cleanupOldBackups. step; [step|]. apply deleteAll_total. step.
Qed.

End Frame.

Section Batch.
Context `{Platform}.
Variable net : Network.
Variable now : string.


Lemma completeCycle_run siteId totalUrls w :
  completeCycle now siteId totalUrls w = Done () (closed now siteId totalUrls w).
Proof. reflexivity. Qed.

Lemma closed_progress siteId totalUrls w :
  kv (closed now siteId totalUrls w) !! progressKey siteId = None.
Proof.
  simpl. rewrite lookup_insert_ne by distinct_keys. apply lookup_delete_eq.
Qed.

(** An empty batch closes the cycle without fetching a page. *)
Lemma runBatch_empty fuel siteConfig batchOffset batchSize w allUrls w1 :
  getUrlsToBackup net now fuel siteConfig w = Done allUrls w1 ->
  JS.slice allUrls batchOffset (batchOffset + batchSize) = [] ->
  exists r,
    runBatch net now fuel siteConfig batchOffset batchSize w
    = Done r (closed now (id siteConfig) (count allUrls) w1) /\
    totalUrls r = count allUrls /\ processedInBatch r = 0 /\
    r_batchOffset r = batchOffset /\ hasMore r = false /\ results r = [].
Proof.
  intros Hurls Hslice. unfold runBatch.
  rewrite (bind_run _ _ _ _ _ Hurls), Hslice.
  rewrite (bind_run _ _ _ _ _ (completeCycle_run _ _ _)).
  eexists. split; [reflexivity|]. done.
Qed.

(** A non-empty batch is fetched and stored; the result counts it, and the
    progress record afterwards says where the next batch starts, or is
    cleared when nothing is left. *)
Lemma runBatch_batch fuel siteConfig batchOffset batchSize w allUrls w1 :
  getUrlsToBackup net now fuel siteConfig w = Done allUrls w1 ->
  JS.slice allUrls batchOffset (batchOffset + batchSize) <> [] ->
  1 <= concurrency (fetchOptions siteConfig) ->
  let processed := count (JS.slice allUrls batchOffset (batchOffset + batchSize)) in
  let more := batchOffset + processed <? count allUrls in
  exists r w',
    runBatch net now fuel siteConfig batchOffset batchSize w = Done r w' /\
    totalUrls r = count allUrls /\ processedInBatch r = processed /\
    r_batchOffset r = batchOffset /\ hasMore r = more /\
    kv w' !! progressKey (id siteConfig)
    = if more
      then Some (JSON_stringify
                   (progressJson (batchOffset + processed) (count allUrls) now))
      else None.
Proof.
  intros Hurls Hslice Hconcurrency processed more. unfold runBatch.
  rewrite (bind_run _ _ _ _ _ Hurls).
  fold processed. fold more.
  destruct (JS.slice allUrls batchOffset (batchOffset + batchSize))
    as [|u batch] eqn:Hbatch; [done|].
  destruct (fetchUrlsWithConcurrency_total net now (u :: batch)
              (fetchOptions siteConfig)
              (changeThreshold siteConfig ≫= ignorePatterns) Hconcurrency w1)
    as (fetchedResults & w2 & Hfetch).
  rewrite (bind_run _ _ _ _ _ Hfetch).
  rewrite (bind_run _ _ _ _ _ (ChangeDetector.detectChanges_filter _ _ _)).
  destruct (storeBackups_total now (id siteConfig)
              (List.filter success fetchedResults) w2) as (? & w3 & Hstore).
  rewrite (bind_run _ _ _ _ _ Hstore).
  assert (exists w4,
             (if batchOffset =? 0
              then cleanupOldBackups now (id siteConfig) (retentionDays siteConfig)
              else mret ()) w3 = Done () w4) as [w4 Hcleanup].
  { destruct (batchOffset =? 0); [|by eexists].
    destruct (cleanupOldBackups_total now (id siteConfig)
                (retentionDays siteConfig) w3) as ([] & w4 & ?). eauto. }
  rewrite (bind_run _ _ _ _ _ Hcleanup).
  destruct more.
  - do 2 eexists. split; [reflexivity|]. repeat split.
    simpl. apply lookup_insert_eq.
  - rewrite (bind_run _ _ _ _ _ (completeCycle_run _ _ _)).
    do 2 eexists. split; [reflexivity|]. repeat split.
    apply closed_progress.
Qed.

(** What a returned batch result says, whatever the state it ran in. *)
Lemma runBatch_result fuel siteConfig batchOffset batchSize w r w' :
  runBatch net now fuel siteConfig batchOffset batchSize w = Done r w' ->
  exists allUrls : list string,
    let processed := count (JS.slice allUrls batchOffset (batchOffset + batchSize)) in
    totalUrls r = count allUrls /\ processedInBatch r = processed /\
    r_batchOffset r = batchOffset /\
    hasMore r = (0 <? processed) && (batchOffset + processed <? count allUrls) /\
    total (progress r) = count allUrls /\
    completed (progress r)
    = if 0 <? processed then Z.min (batchOffset + processed) (count allUrls)
      else count allUrls.
Proof.
  unfold runBatch. intros (allUrls & w1 & _ & Hrun)%bind_done.
  exists allUrls. cbv zeta.
  destruct (JS.slice allUrls batchOffset (batchOffset + batchSize))
    as [|u batch] eqn:Hbatch.
  - apply bind_done in Hrun as (? & ? & _ & [= <- _]). done.
  - apply bind_done in Hrun as (? & ? & _ & Hrun).
    apply bind_done in Hrun as (? & ? & _ & Hrun).
    apply bind_done in Hrun as (? & ? & _ & Hrun).
    apply bind_done in Hrun as (? & ? & _ & Hrun).
    apply bind_done in Hrun as (? & ? & _ & [= <- _]).
    unfold count. simpl. done.
Qed.

Lemma loadBatchProgress_saved siteId w j :
  JsonRoundTrip ->
  kv w !! progressKey siteId = Some (JSON_stringify j) ->
  loadBatchProgress siteId w = Done j w.
Proof.
  intros [Hparse Htext] Hsaved. unfold loadBatchProgress.
  erewrite bind_run by (unfold KV.get; by rewrite Hsaved). cbv beta iota.
  assert (JS.truthy (JSON_stringify j) = true) as ->.
  { unfold JS.truthy. destruct (String.eqb_spec (JSON_stringify j) EmptyString) as [Hempty|];
      [by apply Htext in Hempty | done]. }
  by rewrite Hparse.
Qed.

Lemma loadBatchProgress_none siteId w :
  kv w !! progressKey siteId = None ->
  loadBatchProgress siteId w = Done JNull w.
Proof.
  intros Hnone. unfold loadBatchProgress.
  by erewrite bind_run by (unfold KV.get; by rewrite Hnone).
Qed.

(** With saved progress a continuation runs the batch at the saved
    offset. *)
Lemma performSiteBackup_resumes fuel siteConfig size requested w
    offset savedTotal savedTime :
  JsonRoundTrip ->
  kv w !! progressKey (id siteConfig)
  = Some (JSON_stringify (progressJson offset savedTotal savedTime)) ->
  performSiteBackup net now fuel siteConfig
    (Some {| batchSize := size; batchOffset := requested;
             continueFromLast := Some true |}) w
  = runBatch net now fuel siteConfig offset
      (Z.min (default DEFAULT_BATCH_SIZE size) MAX_BATCH_SIZE) w.
Proof.
  intros Hcodec Hsaved. unfold performSiteBackup. simpl.
  assert (resume (id siteConfig) (default 0 requested) true w = Done (offset, true) w)
    as Hresume.
  { unfold resume.
    by rewrite (bind_run _ _ _ _ _ (loadBatchProgress_saved _ _ _ Hcodec Hsaved)). }
  rewrite (bind_run _ _ _ _ _ Hresume). simpl.
  by erewrite bind_run by reflexivity.
Qed.

(** Without saved progress a continuation starts at offset 0, unless
    today's scan is already done. *)
Lemma performSiteBackup_starts fuel siteConfig size w :
  kv w !! progressKey (id siteConfig) = None ->
  performSiteBackup net now fuel siteConfig
    (Some {| batchSize := size; batchOffset := None;
             continueFromLast := Some true |}) w
  = (skip ← alreadyScanned net now siteConfig;
     if (skip : bool) then mret buildNoopResult
     else runBatch net now fuel siteConfig 0
            (Z.min (default DEFAULT_BATCH_SIZE size) MAX_BATCH_SIZE)) w.
Proof.
  intros Hnone. unfold performSiteBackup. simpl.
  assert (resume (id siteConfig) 0 true w = Done (0, false) w) as Hresume.
  { unfold resume.
    by rewrite (bind_run _ _ _ _ _ (loadBatchProgress_none _ _ Hnone)). }
  by rewrite (bind_run _ _ _ _ _ Hresume).
Qed.

End Batch.

Section Results.
Context `{Platform}.
Variable net : Network.
Variable now : string.

(** A returned result is the no-op result or the result of a batch. *)
Lemma performSiteBackup_result fuel siteConfig batchOptions w r w' :
  performSiteBackup net now fuel siteConfig batchOptions w = Done r w' ->
  r = buildNoopResult \/
  exists batchOffset batchSize w1,
    runBatch net now fuel siteConfig batchOffset batchSize w1 = Done r w'.
Proof.
  unfold performSiteBackup.
  intros ([batchOffset had] & w1 & _ & Hrun)%bind_done.
  apply bind_done in Hrun as ([|] & w2 & _ & Hrun).
  - left. by injection Hrun as <- _.
  - right. eauto.
Qed.

Lemma alreadyScanned_fresh siteConfig w :
  kv w !! fullScanKey (id siteConfig) = None ->
  alreadyScanned net now siteConfig w = Done false w.
Proof.
  intros Hnone. unfold alreadyScanned, getFullScanState.
  erewrite bind_run; last first.
  { erewrite bind_run by (unfold KV.get; by rewrite Hnone). reflexivity. }
  reflexivity.
Qed.

End Results.


(** What a continuation does when the resolution yields no URL, a
    failed resolution included: it takes the exit for a list that has
    been worked off. It fetches no page, returns [hasMore = false] with
    [totalUrls = 0], clears the progress record it found and records a
    full scan of 0 URLs for today. *)
Lemma empty_resolution_closes_cycle `{Platform} (net : Network) (now : string)
    (fuel : nat) (siteConfig : SiteConfig) (size requested : option Z)
    (w w1 : World) (offset savedTotal : Z) (savedTime : string) :
  JsonRoundTrip ->
  kv w !! progressKey (id siteConfig)
  = Some (JSON_stringify (progressJson offset savedTotal savedTime)) ->
  getUrlsToBackup net now fuel siteConfig w = Done [] w1 ->
  exists r w',
    performSiteBackup net now fuel siteConfig
      (Some {| batchSize := size; batchOffset := requested;
               continueFromLast := Some true |}) w = Done r w' /\
    totalUrls r = 0 /\ processedInBatch r = 0 /\ hasMore r = false /\
    fetched w' = fetched w1 /\
    kv w' !! progressKey (id siteConfig) = None /\
    kv w' !! fullScanKey (id siteConfig)
    = Some (JSON_stringify (fullScanJson (today now) now 0)).
Proof.
  intros Hcodec Hsaved Hurls.
  rewrite (performSiteBackup_resumes net now fuel siteConfig size requested w
             offset savedTotal savedTime Hcodec Hsaved).
  destruct (runBatch_empty net now fuel siteConfig offset
              (Z.min (default DEFAULT_BATCH_SIZE size) MAX_BATCH_SIZE) w [] w1 Hurls)
    as (r & Hrun & Htotal & Hprocessed & _ & Hmore & _).
  { unfold JS.slice. by rewrite drop_nil, take_nil. }
  exists r, (closed now (id siteConfig) 0 w1).
  repeat split; try done.
  - apply closed_progress.
  - simpl. apply lookup_insert_eq.
Qed.

Lemma processed_cons r rs :
  Cycle.processed (r :: rs) = processedInBatch r + Cycle.processed rs.
Proof. reflexivity. Qed.

Section Continuation.
Context `{Platform}.
Variable siteConfig : SiteConfig.
Variable calls : nat -> Cycle.Call.
Variable allUrls : list string.

Hypothesis concurrent : 1 <= concurrency (fetchOptions siteConfig).
Hypothesis sized :
  forall i size, Cycle.requestedSize (calls i) = Some size -> 1 <= size.
Hypothesis stable :
  forall i w, exists w',
    getUrlsToBackup (Cycle.servers (calls i)) (Cycle.clock (calls i))
      (Cycle.depth (calls i)) siteConfig w = Done allUrls w'.

Local Abbreviation T := (count allUrls).

Lemma effective_size i :
  1 <= Z.min (default DEFAULT_BATCH_SIZE (Cycle.requestedSize (calls i)))
             MAX_BATCH_SIZE.
Proof.
  unfold DEFAULT_BATCH_SIZE, MAX_BATCH_SIZE.
  destruct (Cycle.requestedSize (calls i)) as [size|] eqn:Hsize; simpl; [|lia].
  apply sized in Hsize. lia.
Qed.

(** One batch at an offset inside the list. *)
Lemma batch_at i offset w :
  0 <= offset < T ->
  let size := Z.min (default DEFAULT_BATCH_SIZE (Cycle.requestedSize (calls i)))
                    MAX_BATCH_SIZE in
  let processed := Z.min size (T - offset) in
  let more := offset + processed <? T in
  exists r w',
    runBatch (Cycle.servers (calls i)) (Cycle.clock (calls i))
      (Cycle.depth (calls i)) siteConfig offset size w = Done r w' /\
    totalUrls r = T /\ processedInBatch r = processed /\ hasMore r = more /\
    kv w' !! progressKey (id siteConfig)
    = if more
      then Some (JSON_stringify
                   (progressJson (offset + processed) T (Cycle.clock (calls i))))
      else None.
Proof.
  intros Hoffset size processed more.
  destruct (stable i w) as (w1 & Hurls).
  pose proof (effective_size i) as Hsize. fold size in Hsize.
  assert (count (JS.slice allUrls offset (offset + size)) = processed) as Hcount.
  { unfold count, processed in *. apply JSFacts.slice_batch; lia. }
  destruct (runBatch_batch _ _ _ siteConfig offset size w allUrls w1 Hurls)
    as (r & w' & Hrun & Htotal & Hprocessed & _ & Hmore & Hkv); [|done|].
  { intros Hnil. rewrite Hnil in Hcount. unfold count, processed in Hcount.
    simpl in Hcount. unfold count in *. lia. }
  cbv zeta in Hprocessed, Hmore, Hkv. rewrite Hcount in *.
  exists r, w'. done.
Qed.

End Continuation.

End Machine.

(** ** The sample codec round-trips *)

Module SampleFacts.
Import Sample.

Lemma readNat_natCode n rest : readNat (natCode n ++ rest) = Some (n, rest).
Proof.
  unfold natCode. induction n as [|n IH]; simpl; [done|].
  unfold natCode in IH. by rewrite IH.
Qed.

Lemma length_list_ascii s : length (list_ascii_of_string s) = String.length s.
Proof. induction s as [|c s IH]; simpl; [done | by rewrite IH]. Qed.

Lemma readStr_strCode s rest : readStr (strCode s ++ rest) = Some (s, rest).
Proof.
  unfold readStr, strCode. rewrite <- app_assoc, readNat_natCode.
  rewrite <- length_list_ascii.
  destruct (Nat.ltb_spec (length (list_ascii_of_string s ++ rest))
              (length (list_ascii_of_string s))) as [Hlt|_].
  - rewrite length_app in Hlt. lia.
  - rewrite take_app_length, drop_app_length.
    by rewrite string_of_list_ascii_of_string.
Qed.

Lemma readItems_write (one : list ascii -> option (Json * list ascii)) items rest :
  (forall j rest', In j items -> one (write j ++ rest') = Some (j, rest')) ->
  readItems one (length items) (concat (map write items) ++ rest)
  = Some (items, rest).
Proof.
  induction items as [|j items IH]; intros Hone; simpl; [done|].
  rewrite <- app_assoc, Hone by (by left).
  rewrite IH; [done|]. intros; apply Hone; by right.
Qed.

Lemma readFields_write (one : list ascii -> option (Json * list ascii)) fields rest :
  (forall k v rest', In (k, v) fields -> one (write v ++ rest') = Some (v, rest')) ->
  readFields one (length fields)
    (concat (map (fun '(k, v) => strCode k ++ write v) fields) ++ rest)
  = Some (fields, rest).
Proof.
  induction fields as [|[k v] fields IH]; intros Hone; simpl; [done|].
  rewrite <- !app_assoc, readStr_strCode, (Hone k) by (by left).
  rewrite IH; [done|]. intros; eapply Hone; by right.
Qed.

Lemma length_concat_member {A : Type} (f : A -> list ascii) x (l : list A) :
  In x l -> (length (f x) <= length (concat (map f l)))%nat.
Proof.
  induction l as [|y l IH]; simpl; [done|].
  rewrite length_app. intros [->|Hin]; [lia|]. apply IH in Hin. lia.
Qed.

Lemma read_write fuel j rest :
  (length (write j) < fuel)%nat -> read fuel (write j ++ rest) = Some (j, rest).
Proof.
  revert j rest. induction fuel as [|fuel IH]; intros j rest Hfuel; [lia|].
  destruct j as [|b|n|s|items|fields]; cbn [write] in *.
  - done.
  - by destruct b.
  - simpl. rewrite readNat_natCode.
    destruct (Z.ltb_spec n 0); simpl; f_equal; f_equal; f_equal; lia.
  - simpl. by rewrite readStr_strCode.
  - simpl. rewrite <- app_assoc, readNat_natCode, readItems_write; [done|].
    intros j rest' Hin. apply IH.
    pose proof (length_concat_member write j items Hin).
    simpl in Hfuel. rewrite length_app in Hfuel. lia.
  - simpl. rewrite <- app_assoc, readNat_natCode, readFields_write; [done|].
    intros k v rest' Hin. apply IH.
    pose proof (length_concat_member (fun '(k, v) => strCode k ++ write v)
                  (k, v) fields Hin) as Hlen.
    simpl in Hfuel, Hlen. rewrite length_app in Hfuel, Hlen. lia.
Qed.

Lemma codec_round_trip : JsonRoundTrip (H := Sample.platform).
Proof.
  split; intros j; simpl.
  - unfold parse, stringify. rewrite list_ascii_of_string_of_list_ascii.
    rewrite <- (app_nil_r (write j)) at 2.
    by rewrite read_write by lia.
  - unfold stringify. by destruct j as [| [] | | | |].
Qed.

End SampleFacts.

(** ** Sitemap resolution *)

Module Resolution.
Import BackupFetcher Behaviour.

Section Index.
Context `{Platform}.
Variable net : Network.
Variable now : string.


(** Resolving such an index fetches it and then resolves its entry, one
    level deeper. *)
Lemma parseSitemap_index fuel siteId u next w :
  listsOnly net u next ->
  exists w1,
    fetched w1 = fetched w ++ [u] /\
    parseSitemap net now (S fuel) siteId u w
    = match parseSitemap net now fuel siteId next w1 with
      | Done subUrls w2 => Done subUrls w2
      | Diverges w2 => Diverges w2
      end.
Proof.
  intros (response & result & Hnet & Hok & Hxml & Hset & Hidx).
  eexists. split; last first.
  - cbn [parseSitemap]. unfold mbind, M_bind, fetch at 1. rewrite Hnet, Hok. cbn [negb].
    unfold recordSitemapState, KV.put. rewrite Hxml, Hset, Hidx.
    cbn [foldl]. unfold mret, M_ret.
    match goal with |- ?run = _ =>
      match run with context [parseSitemap net now fuel siteId next ?w1] =>
        transitivity (match parseSitemap net now fuel siteId next w1 with
                      | Done subUrls w2 => Done subUrls w2
                      | Diverges w2 => Diverges w2
                      end);
        [destruct (parseSitemap net now fuel siteId next w1); reflexivity
        | reflexivity]
      end
    end.
  - reflexivity.
Qed.

(** With a two-element cycle there is no depth at which the resolution
    returns: every level performs one more fetch. *)
Lemma parseSitemap_cycle a b siteId :
  listsOnly net a b -> listsOnly net b a ->
  forall fuel w,
    (exists w', parseSitemap net now fuel siteId a w = Diverges w' /\
                length (fetched w') = (length (fetched w) + fuel)%nat) /\
    (exists w', parseSitemap net now fuel siteId b w = Diverges w' /\
                length (fetched w') = (length (fetched w) + fuel)%nat).
Proof.
  intros Ha Hb. induction fuel as [|fuel IH]; intros w.
  - split; (eexists; split; [reflexivity | simpl; lia]).
  - split.
    + destruct (parseSitemap_index fuel siteId a b w Ha) as (w1 & Hlog & ->).
      destruct (IH w1) as [_ (w' & -> & Hlen)].
      eexists; split; [reflexivity|].
      rewrite Hlen, Hlog, length_app. simpl. lia.
    + destruct (parseSitemap_index fuel siteId b a w Hb) as (w1 & Hlog & ->).
      destruct (IH w1) as [(w' & -> & Hlen) _].
      eexists; split; [reflexivity|].
      rewrite Hlen, Hlog, length_app. simpl. lia.
Qed.
End Index.

(** C1, on the code: for the cycle A -> B -> A the resolution of
    [parseSitemap] does not return at any recursion depth, and the number
    of sitemap fetches grows with the depth: no visited set bounds it. *)
Theorem parseSitemap_cycle_never_returns (fuel : nat) :
  exists w,
    parseSitemap (H := Sample.platform) Sample.cycle Sample.now fuel "test-site"
      Sample.sitemapXml Sample.emptyWorld = Diverges w /\
    length (fetched w) = fuel.
Proof.
  destruct (parseSitemap_cycle (H := Sample.platform) Sample.cycle Sample.now
              Sample.sitemapXml Sample.sitemapB "test-site") with (fuel := fuel)
    (w := Sample.emptyWorld) as [(w & Hrun & Hlen) _].
  - do 2 eexists. repeat split; vm_compute; reflexivity.
  - do 2 eexists. repeat split; vm_compute; reflexivity.
  - exists w. split; [exact Hrun | exact Hlen].
Qed.

End Resolution.

(** ** Runs of the worker on the sample site *)

Module Runs.
Import BackupFetcher Sample.
#[local] Existing Instance Sample.platform.


(** C4, on the code: after a complete scan of a two-page sitemap, a run
    in which only the [<lastmod>] values differ does not short-circuit. The
    stored hash is the hash of the whole sitemap body, which changed, so
    both pages are fetched again and [totalUrls] is 2. *)
Theorem lastmod_only_change_rescans :
  (totalUrls <$> resultOf (firstRun firstSitemap)) = Some 2 /\
  kv (stateAfter (firstRun firstSitemap)) !! fullScanKey "test-site"
  = Some (JSON_stringify (fullScanJson "2026-02-22" now 2)) /\
  (totalUrls <$> resultOf (secondRun firstSitemap secondSitemap)) = Some 2 /\
  (processedInBatch <$> resultOf (secondRun firstSitemap secondSitemap)) = Some 2 /\
  pageFetches (stateAfter (secondRun firstSitemap secondSitemap))
  = pageFetches (stateAfter (firstRun firstSitemap))
    ++ ["https://example.com/page1"; "https://example.com/page2"].
Proof. vm_compute. repeat split; reflexivity. Qed.

(** C5, on the code: the first run on a flat sitemap of 101 URLs backs up
    the first 25 pages and saves progress at offset 25; no listener flag
    and no snapshot are stored. *)
Theorem large_sitemap_is_backfilled :
  (totalUrls <$> resultOf (firstRun largeSitemap)) = Some 101 /\
  (processedInBatch <$> resultOf (firstRun largeSitemap)) = Some 25 /\
  (nextOffset <$> resultOf (firstRun largeSitemap)) = Some (Some 25) /\
  length (pageFetches (stateAfter (firstRun largeSitemap))) = 25%nat /\
  kv (stateAfter (firstRun largeSitemap)) !! "sitemap_listener:test-site" = None /\
  kv (stateAfter (firstRun largeSitemap)) !! "sitemap_snapshot:test-site" = None.
Proof. vm_compute. repeat split; reflexivity. Qed.

(** C6, on the code: the first run on a sitemap of 101 URLs saves
    progress at offset 25. The next run finds the sitemap answering with
    a server error: the resolution yields no URL, and the run takes the
    exit for a list that has been worked off. It clears the progress
    record and records a full scan of 0 URLs for the day. When the
    sitemap is served again the same day, the run that follows finds no
    progress and today's scan recorded: it returns the no-op result, and
    of the 101 pages the 25 of the first run stay the only ones fetched. *)
Theorem failed_resolution_abandons_cycle :
  kv (stateAfter (firstRun largeSitemap)) !! progressKey "test-site"
  = Some (JSON_stringify (progressJson 25 101 now)) /\
  (totalUrls <$> resultOf interruptedRun) = Some 0 /\
  (hasMore <$> resultOf interruptedRun) = Some false /\
  kv (stateAfter interruptedRun) !! progressKey "test-site" = None /\
  kv (stateAfter interruptedRun) !! fullScanKey "test-site"
  = Some (JSON_stringify (fullScanJson "2026-02-22" "2026-02-22T10:15:00.000Z" 0)) /\
  resultOf recoveredRun = Some buildNoopResult /\
  kv (stateAfter recoveredRun) !! progressKey "test-site" = None /\
  length (pageFetches (stateAfter recoveredRun)) = 25%nat.
Proof. vm_compute. repeat split; reflexivity. Qed.

End Runs.

(** ** Normalization of content that holds no further match *)

Module Normalization.
Import RegExp Whitespace.

Lemma ws_eq : runs = Seq (Seq (Char CSpace) (Star true (Char CSpace))) Empty.
Proof. reflexivity. Qed.

Lemma starLoop_S step greedy k n p :
  starLoop step greedy k (S n) p =
    let again :=
      step (fun q =>
              if (length (after q) <? length (after p))%nat
              then starLoop step greedy k n q else None) p in
    if greedy
    then match again with Some q => Some q | None => k p end
    else match k p with Some q => Some q | None => again end.
Proof. reflexivity. Qed.

Lemma star_spaces step n s b cs :
  (forall k p, step k p = run (Char CSpace) k p) ->
  (length s < n)%nat ->
  exists b', starLoop step true Some n {| before := b; after := s; captures := cs |}
    = Some {| before := b'; after := Str.dropSpaces s; captures := cs |}.
Proof.
  intros Hstep. revert s b. induction n as [|n IH]; intros s b Hn; [lia|].
  rewrite starLoop_S, Hstep.
  destruct s as [|c s]; cbn [run after before captures Str.dropSpaces accepts].
  - eauto.
  - destruct (isSpace c) eqn:Hc; cbn zeta.
    + assert (Hlt : (length s <? length (c :: s))%nat = true) by (apply Nat.ltb_lt; simpl; lia).
      rewrite Hlt. destruct (IH s (Some c)) as [b' ->]; [simpl in Hn; lia|]. eauto.
    + eauto.
Qed.

Lemma exec_ws_space b c s cs :
  isSpace c = true ->
  exists b', exec runs {| before := b; after := c :: s; captures := cs |}
             = Some {| before := b'; after := Str.dropSpaces s; captures := cs |}.
Proof.
  intros Hc. unfold exec. rewrite ws_eq. cbn [run after captures accepts]. rewrite Hc.
  apply (star_spaces (run (Char CSpace))); [reflexivity|simpl; lia].
Qed.

Lemma exec_ws_other b s cs :
  startsClean s ->
  exec runs {| before := b; after := s; captures := cs |} = None.
Proof.
  unfold exec. rewrite ws_eq. destruct s as [|c s]; [reflexivity|].
  intros Hc. cbn [run after accepts]. rewrite Hc. reflexivity.
Qed.

Lemma replaceFrom_0 r rep prev s :
  replaceFrom r rep 0 prev s =
  match exec r {| before := prev; after := s; captures := [] |} with
  | Some q =>
      match (length s - length (after q))%nat with
      | O => rep ++ match s with
                    | [] => []
                    | c :: s' => c :: replaceFrom r rep 0 (Some c) s'
                    end
      | S n => rep ++ match s with
                      | [] => []
                      | c :: s' => replaceFrom r rep n (Some c) s'
                      end
      end
  | None =>
      match s with
      | [] => []
      | c :: s' => c :: replaceFrom r rep 0 (Some c) s'
      end
  end.
Proof. destruct s; reflexivity. Qed.

Lemma replaceFrom_S r rep n prev c s :
  replaceFrom r rep (S n) prev (c :: s) = replaceFrom r rep n (Some c) s.
Proof. reflexivity. Qed.

Lemma searchFrom_false r prev s :
  searchFrom r prev s = false ->
  exec r {| before := prev; after := s; captures := [] |} = None /\
  match s with c :: s' => searchFrom r (Some c) s' = false | [] => True end.
Proof.
  destruct s as [|c s]; simpl; destruct (exec r _); try discriminate; auto.
Qed.

Lemma replaceFrom_no_match r rep s : forall prev,
  searchFrom r prev s = false -> replaceFrom r rep 0 prev s = s.
Proof.
  induction s as [|c s IH]; intros prev Hs;
    destruct (searchFrom_false _ _ _ Hs) as [He Hrest];
    rewrite replaceFrom_0, He; [reflexivity|].
  f_equal. auto.
Qed.

Lemma replaceAll_no_match r rep s :
  test r s = false -> replaceAll r rep s = s.
Proof.
  unfold test, replaceAll. intros Hs.
  rewrite replaceFrom_no_match by exact Hs.
  apply string_of_list_ascii_of_string.
Qed.

Lemma leading_dropSpaces s :
  (length (Str.dropSpaces s) + leading s = length s)%nat.
Proof.
  induction s as [|c s IH]; simpl; [reflexivity|].
  destruct (isSpace c); simpl; lia.
Qed.

Lemma replaceFrom_ws s : forall prev,
  replaceFrom runs [space] 0 prev s = collapse false s /\
  replaceFrom runs [space] (leading s) prev s = collapse true s.
Proof.
  induction s as [|c s IH]; intros prev.
  - split; reflexivity.
  - assert (H0 : replaceFrom runs [space] 0 prev (c :: s) = collapse false (c :: s)).
    { rewrite replaceFrom_0. cbn [collapse].
      destruct (isSpace c) eqn:Hc.
      - destruct (exec_ws_space prev c s [] Hc) as [b' ->]. cbn [after].
        pose proof (leading_dropSpaces s) as Hlen.
        replace (length (c :: s) - length (Str.dropSpaces s))%nat
          with (S (leading s)) by (simpl; lia).
        simpl. f_equal. apply IH.
      - rewrite exec_ws_other by exact Hc. f_equal. apply IH. }
    split; [exact H0|].
    cbn [leading collapse]. destruct (isSpace c) eqn:Hc.
    + rewrite replaceFrom_S. apply IH.
    + rewrite H0. cbn [collapse]. rewrite Hc. reflexivity.
Qed.

Lemma code_eqb c d : (code c =? code d)%N = Ascii.eqb c d.
Proof.
  destruct (Ascii.eqb_spec c d) as [->|Hne]; [apply N.eqb_refl|].
  apply N.eqb_neq. intros Heq. apply Hne.
  rewrite <- (ascii_N_embedding c), <- (ascii_N_embedding d).
  unfold code in Heq. congruence.
Qed.

Lemma gt_eq :
  tagGap = Seq (Char (CUnit (code ">")))
         (Seq (Char (CUnit (code " "))) (Seq (Char (CUnit (code "<"))) Empty)).
Proof. reflexivity. Qed.

Lemma exec_gt b s cs :
  exec tagGap {| before := b; after := s; captures := cs |} =
  match gap s with
  | Some rest => Some {| before := Some "<"%char; after := rest; captures := cs |}
  | None => None
  end.
Proof.
  unfold exec. rewrite gt_eq.
  destruct s as [|c1 [|c2 [|c3 rest]]]; cbn [run after captures accepts gap];
    rewrite ?code_eqb; try reflexivity.
  - destruct (Ascii.eqb c1 ">"); reflexivity.
  - destruct (Ascii.eqb c1 ">"); [|reflexivity].
    destruct (Ascii.eqb c2 " "); reflexivity.
  - destruct (Ascii.eqb c1 ">"); [|reflexivity].
    destruct (Ascii.eqb c2 " "); [|reflexivity].
    destruct (Ascii.eqb_spec c3 "<") as [->|]; reflexivity.
Qed.

Lemma gap_Some s rest :
  gap s = Some rest -> s = ">"%char :: " "%char :: "<"%char :: rest.
Proof.
  destruct s as [|c1 [|c2 [|c3 r]]]; try discriminate. cbn [gap].
  destruct (Ascii.eqb_spec c1 ">") as [->|]; [|discriminate].
  destruct (Ascii.eqb_spec c2 " ") as [->|]; [|discriminate].
  destruct (Ascii.eqb_spec c3 "<") as [->|]; [|discriminate].
  simpl. congruence.
Qed.

Lemma gap_hit rest :
  gap (">"%char :: " "%char :: "<"%char :: rest) = Some rest.
Proof. reflexivity. Qed.

Lemma gap_first c s : c <> ">"%char -> gap (c :: s) = None.
Proof.
  intros Hc. destruct s as [|c2 [|c3 rest]]; try reflexivity. cbn [gap].
  destruct (Ascii.eqb_spec c ">"); [contradiction|reflexivity].
Qed.

Lemma gap_second c c2 s : c2 <> " "%char -> gap (c :: c2 :: s) = None.
Proof.
  intros Hc. destruct s as [|c3 rest]; try reflexivity. cbn [gap].
  destruct (Ascii.eqb_spec c2 " "); [contradiction|].
  rewrite andb_false_r. reflexivity.
Qed.

Lemma squeeze_gap rest :
  squeeze (">"%char :: " "%char :: "<"%char :: rest)
  = ">"%char :: "<"%char :: squeeze rest.
Proof. reflexivity. Qed.

Lemma squeeze_cons c s :
  gap (c :: s) = None -> squeeze (c :: s) = c :: squeeze s.
Proof.
  destruct s as [|c2 [|c3 rest]]; try reflexivity.
  cbn [gap squeeze].
  destruct (Ascii.eqb c ">" && Ascii.eqb c2 " " && Ascii.eqb c3 "<");
    [discriminate|reflexivity].
Qed.

Lemma squeeze_cases (P : list ascii -> Prop) :
  P [] ->
  (forall c s, gap (c :: s) = None -> P s -> P (c :: s)) ->
  (forall rest, P rest -> P (">"%char :: " "%char :: "<"%char :: rest)) ->
  forall s, P s.
Proof.
  intros Hnil Hcons Hgap s.
  assert (Hall : forall n s, (length s <= n)%nat -> P s).
  { clear s. induction n as [|n IH]; intros s Hn.
    - destruct s; [exact Hnil|simpl in Hn; lia].
    - destruct s as [|c s]; [exact Hnil|].
      destruct (gap (c :: s)) as [rest|] eqn:Hg.
      + rewrite (gap_Some _ _ Hg). apply Hgap, IH.
        apply gap_Some in Hg. apply (f_equal (@length _)) in Hg.
        simpl in Hg, Hn. lia.
      + apply Hcons; [exact Hg|]. apply IH. simpl in Hn. lia. }
  apply (Hall (length s)). lia.
Qed.

Lemma replaceFrom_gt s : forall prev,
  replaceFrom tagGap [">"%char; "<"%char] 0 prev s = squeeze s.
Proof.
  induction s as [| c s Hg IH | rest IH] using squeeze_cases; intros prev.
  - reflexivity.
  - rewrite replaceFrom_0, exec_gt, Hg, squeeze_cons by exact Hg.
    f_equal. apply IH.
  - rewrite replaceFrom_0, exec_gt, gap_hit. cbn [after].
    assert (Hlen : (length (">"%char :: " "%char :: "<"%char :: rest)
                    - length rest = 3)%nat) by (simpl; lia).
    rewrite Hlen, squeeze_gap. simpl. f_equal. f_equal. apply IH.
Qed.

Lemma tidy_collapse s : forall b, tidy b (collapse b s) = true.
Proof.
  induction s as [|c s IH]; intros b; [reflexivity|].
  cbn [collapse]. destruct (isSpace c) eqn:Hc.
  - destruct b; [apply IH|]. cbn [tidy]. rewrite IH. reflexivity.
  - cbn [tidy]. rewrite Hc. apply IH.
Qed.

Lemma collapse_tidy s : forall b, tidy b s = true -> collapse b s = s.
Proof.
  induction s as [|c s IH]; intros b; [reflexivity|].
  cbn [collapse tidy]. destruct (isSpace c) eqn:Hc.
  - intros Ht. apply andb_prop in Ht as [Ht Hs]. apply andb_prop in Ht as [Hc' Hb].
    apply Ascii.eqb_eq in Hc'. subst c. destruct b; [discriminate|].
    f_equal. apply IH, Hs.
  - intros Ht. f_equal. apply IH, Ht.
Qed.

Lemma tidy_squeeze s : forall b, tidy b s = true -> tidy b (squeeze s) = true.
Proof.
  induction s as [| c s Hg IH | rest IH] using squeeze_cases; intros b.
  - reflexivity.
  - rewrite squeeze_cons by exact Hg. cbn [tidy].
    destruct (isSpace c).
    + intros Ht. apply andb_prop in Ht as [-> Hs]. apply IH, Hs.
    + apply IH.
  - rewrite squeeze_gap. simpl. apply IH.
Qed.

Lemma squeeze_head c s : exists t, squeeze (c :: s) = c :: t.
Proof.
  destruct (gap (c :: s)) as [rest|] eqn:Hg.
  - apply gap_Some in Hg. injection Hg as -> ->. rewrite squeeze_gap. eauto.
  - rewrite squeeze_cons by exact Hg. eauto.
Qed.

Lemma gap_squeeze c s : gap (c :: s) = None -> gap (c :: squeeze s) = None.
Proof.
  destruct s as [|c2 [|c3 rest]]; try reflexivity.
  destruct (gap (c2 :: c3 :: rest)) as [r|] eqn:Hg.
  - apply gap_Some in Hg. injection Hg as -> -> ->. intros _.
    rewrite squeeze_gap. cbn [gap]. destruct (Ascii.eqb c ">"); reflexivity.
  - rewrite squeeze_cons by exact Hg.
    destruct (squeeze_head c3 rest) as [t ->]. cbn [gap].
    destruct (Ascii.eqb c ">" && Ascii.eqb c2 " " && Ascii.eqb c3 "<");
      [discriminate|reflexivity].
Qed.

Lemma noGap_squeeze s : noGap (squeeze s) = true.
Proof.
  induction s as [| c s Hg IH | rest IH] using squeeze_cases.
  - reflexivity.
  - rewrite squeeze_cons by exact Hg. cbn [noGap].
    rewrite gap_squeeze by exact Hg. exact IH.
  - rewrite squeeze_gap. cbn [noGap].
    rewrite gap_second, gap_first by discriminate. exact IH.
Qed.

Lemma squeeze_noGap s : noGap s = true -> squeeze s = s.
Proof.
  induction s as [|c s IH]; [reflexivity|].
  cbn [noGap]. destruct (gap (c :: s)) eqn:Hg; [discriminate|].
  intros Hs. rewrite squeeze_cons by exact Hg. f_equal. auto.
Qed.

Import Str.

Lemma dropSpaces_suffix s : exists w, s = w ++ dropSpaces s.
Proof.
  induction s as [|c s [w IH]]; [exists []; reflexivity|].
  cbn [dropSpaces]. destruct (isSpace c).
  - exists (c :: w). simpl. congruence.
  - exists []. reflexivity.
Qed.

Lemma dropSpaces_clean s : startsClean (dropSpaces s).
Proof.
  induction s as [|c s IH]; [exact I|].
  cbn [dropSpaces]. destruct (isSpace c) eqn:Hc; [exact IH|exact Hc].
Qed.

Lemma dropSpaces_fixed s : startsClean s -> dropSpaces s = s.
Proof. destruct s as [|c s]; [reflexivity|]. simpl. intros ->. reflexivity. Qed.

Lemma dropSpaces_keeps_last l c :
  isSpace c = false -> exists l', dropSpaces (l ++ [c]) = l' ++ [c].
Proof.
  intros Hc. induction l as [|d l IH]; simpl.
  - rewrite Hc. exists []. reflexivity.
  - destruct (isSpace d); [exact IH|]. exists (d :: l). reflexivity.
Qed.

Lemma trimEnd_prefix s : exists w, s = rev (dropSpaces (rev s)) ++ w.
Proof.
  destruct (dropSpaces_suffix (rev s)) as [w Hw].
  exists (rev w). rewrite <- rev_app_distr, <- Hw, rev_involutive. reflexivity.
Qed.

Lemma trimEnd_clean s : startsClean s -> startsClean (rev (dropSpaces (rev s))).
Proof.
  destruct s as [|c s]; [intros _; exact I|]. cbn [startsClean rev]. intros Hc.
  destruct (dropSpaces_keeps_last (rev s) c Hc) as [l' ->].
  rewrite rev_app_distr. exact Hc.
Qed.

Lemma tidy_dropSpaces s : forall b, tidy b s = true -> tidy false (dropSpaces s) = true.
Proof.
  induction s as [|c s IH]; intros b; [reflexivity|].
  cbn [tidy dropSpaces]. destruct (isSpace c) eqn:Hc.
  - intros Ht. apply andb_prop in Ht as [_ Hs]. apply (IH true), Hs.
  - cbn [tidy]. rewrite Hc. auto.
Qed.

Lemma tidy_prefix y w : forall b, tidy b (y ++ w) = true -> tidy b y = true.
Proof.
  induction y as [|c y IH]; intros b; [reflexivity|].
  cbn [tidy app]. destruct (isSpace c).
  - intros Ht. apply andb_prop in Ht as [-> Hs]. apply IH, Hs.
  - apply IH.
Qed.

Lemma noGap_dropSpaces s : noGap s = true -> noGap (dropSpaces s) = true.
Proof.
  induction s as [|c s IH]; [reflexivity|].
  cbn [dropSpaces]. destruct (isSpace c); [|auto].
  cbn [noGap]. destruct (gap (c :: s)); [discriminate|exact IH].
Qed.

Lemma gap_prefix c y w : gap (c :: y ++ w) = None -> gap (c :: y) = None.
Proof.
  destruct y as [|c2 [|c3 r]]; try reflexivity. cbn [gap app].
  destruct (Ascii.eqb c ">" && Ascii.eqb c2 " " && Ascii.eqb c3 "<");
    [discriminate|reflexivity].
Qed.

Lemma noGap_prefix y w : noGap (y ++ w) = true -> noGap y = true.
Proof.
  induction y as [|c y IH]; [reflexivity|].
  cbn [noGap app]. change (c :: y ++ w) with (c :: (y ++ w)).
  destruct (gap (c :: y ++ w)) eqn:Hg; [discriminate|].
  rewrite (gap_prefix _ _ _ Hg). exact IH.
Qed.

(** What the three whitespace steps produce needs none of them again. *)
Lemma whitespace_settled s : settled (whitespace s).
Proof.
  unfold whitespace.
  set (u := squeeze (collapse false s)).
  assert (Ht : tidy false u = true) by apply tidy_squeeze, tidy_collapse.
  assert (Hg : noGap u = true) by apply noGap_squeeze.
  apply tidy_dropSpaces in Ht. apply noGap_dropSpaces in Hg.
  pose proof (dropSpaces_clean u) as Hc.
  destruct (trimEnd_prefix (dropSpaces u)) as [w Hw].
  rewrite Hw in Ht, Hg.
  repeat split.
  - exact (tidy_prefix _ _ _ Ht).
  - exact (noGap_prefix _ _ Hg).
  - apply trimEnd_clean, Hc.
  - rewrite rev_involutive. apply dropSpaces_clean.
Qed.

Lemma settled_whitespace s : settled s -> whitespace s = s.
Proof.
  intros (Ht & Hg & Hs & He). unfold whitespace.
  rewrite (collapse_tidy _ _ Ht), (squeeze_noGap _ Hg).
  rewrite (dropSpaces_fixed _ Hs), (dropSpaces_fixed _ He).
  apply rev_involutive.
Qed.

Lemma whitespace_idempotent s : whitespace (whitespace s) = whitespace s.
Proof. apply settled_whitespace, whitespace_settled. Qed.

Lemma whitespace_steps n :
  Str.trim (replaceAll tagGap "><" (replaceAll runs " " n))
  = string_of_list_ascii (whitespace (list_ascii_of_string n)).
Proof.
  unfold Str.trim, replaceAll. rewrite !list_ascii_of_string_of_list_ascii.
  change (list_ascii_of_string " ") with [space].
  change (list_ascii_of_string "><") with [">"%char; "<"%char].
  rewrite (proj1 (replaceFrom_ws _ _)), replaceFrom_gt. reflexivity.
Qed.

(** *** Replacements read by [substitute] *)

Lemma substitute_plain groups caps matched preceding following rep :
  Forall (fun c => c <> "$"%char) rep ->
  substitute groups caps matched preceding following rep = rep.
Proof.
  induction 1 as [|c rep Hc _ IH]; [reflexivity|].
  cbn [substitute]. destruct (Ascii.eqb_spec c "$") as [|_]; [contradiction|].
  cbn [negb]. f_equal. exact IH.
Qed.

Lemma replaceGroupsFrom_0 r groups rep seen s :
  replaceGroupsFrom r groups rep 0 seen s =
  match exec r {| before := head seen; after := s; captures := [] |} with
  | Some q =>
      let size := (length s - length (after q))%nat in
      let text :=
        substitute groups (captures q) (take size s) (rev seen) (after q) rep in
      match size with
      | O => text ++ match s with
                     | [] => []
                     | c :: s' =>
                         c :: replaceGroupsFrom r groups rep 0 (c :: seen) s'
                     end
      | S n => text ++ match s with
                       | [] => []
                       | c :: s' => replaceGroupsFrom r groups rep n (c :: seen) s'
                       end
      end
  | None =>
      match s with
      | [] => []
      | c :: s' => c :: replaceGroupsFrom r groups rep 0 (c :: seen) s'
      end
  end.
Proof. destruct s; reflexivity. Qed.

(** A replacement without [$] stands for itself. *)
Lemma replaceGroupsFrom_plain r groups rep s :
  Forall (fun c => c <> "$"%char) rep ->
  forall skip seen,
    replaceGroupsFrom r groups rep skip seen s = replaceFrom r rep skip (head seen) s.
Proof.
  intros Hrep. induction s as [|c s IH]; intros [|n] seen; try reflexivity.
  - rewrite replaceGroupsFrom_0, replaceFrom_0.
    destruct (exec r _) as [q|]; [|reflexivity]. cbv zeta.
    rewrite substitute_plain by exact Hrep.
    destruct (_ - _)%nat; reflexivity.
  - rewrite replaceGroupsFrom_0, replaceFrom_0.
    destruct (exec r _) as [q|]; cbv zeta.
    + rewrite substitute_plain by exact Hrep.
      destruct (_ - _)%nat; rewrite IH; reflexivity.
    + rewrite IH. reflexivity.
  - cbn [replaceGroupsFrom]. rewrite replaceFrom_S. apply IH.
Qed.

Lemma replaceGroups_plain r groups rep s :
  Forall (fun c => c <> "$"%char) (list_ascii_of_string rep) ->
  replaceGroups r groups rep s = replaceAll r rep s.
Proof.
  intros Hrep. unfold replaceGroups, replaceAll.
  rewrite replaceGroupsFrom_plain by exact Hrep. reflexivity.
Qed.

(** The code units of a match are passed over. *)
Lemma replaceGroupsFrom_skip r groups rep n : forall seen s,
  (n <= length s)%nat ->
  exists seen',
    replaceGroupsFrom r groups rep n seen s
    = replaceGroupsFrom r groups rep 0 seen' (drop n s).
Proof.
  induction n as [|n IH]; intros seen s Hn; [eauto|].
  destruct s as [|c s]; [simpl in Hn; lia|].
  cbn [replaceGroupsFrom drop]. apply IH. simpl in Hn. lia.
Qed.

(** *** The marks of [cleanupWhitespace] *)

Lemma isMark_space c : isSpace c = true -> isMark c = false.
Proof.
  destruct c as [[] [] [] [] [] [] [] []]; vm_compute; intros;
    first [reflexivity | discriminate].
Qed.

Lemma marks_eq :
  exists cls,
    marks = Seq (Star true (Char CSpace))
              (Seq (Group 1 (Seq (Char cls) Empty))
                   (Seq (Star true (Char CSpace)) Empty)) /\
    forall c, accepts cls c = isMark c.
Proof.
  eexists. split; [reflexivity|].
  intros c. destruct c as [[] [] [] [] [] [] [] []]; reflexivity.
Qed.

(** A greedy [\s*] in front of a term that cannot start with whitespace
    takes the whole run. *)
Lemma star_spaces_then step k n s b cs :
  (forall k p, step k p = run (Char CSpace) k p) ->
  (forall p c rest, after p = c :: rest -> isSpace c = true -> k p = None) ->
  (length s < n)%nat ->
  exists b', starLoop step true k n {| before := b; after := s; captures := cs |}
    = k {| before := b'; after := Str.dropSpaces s; captures := cs |}.
Proof.
  intros Hstep Hk. revert s b. induction n as [|n IH]; intros s b Hn; [lia|].
  rewrite starLoop_S, Hstep.
  destruct s as [|c s]; cbn [run after before captures Str.dropSpaces accepts].
  - eauto.
  - destruct (isSpace c) eqn:Hc; cbn zeta.
    + assert (Hlt : (length s <? length (c :: s))%nat = true)
        by (apply Nat.ltb_lt; simpl; lia).
      rewrite Hlt. destruct (IH s (Some c)) as [b' ->]; [simpl in Hn; lia|].
      exists b'. destruct (k {| before := b'; after := _; captures := _ |}); [reflexivity|].
      apply (Hk _ c s); [reflexivity | exact Hc].
    + eauto.
Qed.

Lemma run_Seq a b k p : run (Seq a b) k p = run a (run b k) p.
Proof. reflexivity. Qed.

Lemma run_Star greedy a k p :
  run (Star greedy a) k p = starLoop (run a) greedy k (S (length (after p))) p.
Proof. reflexivity. Qed.

Lemma exec_marks b s :
  exists b',
    exec marks {| before := b; after := s; captures := [] |} =
    match Str.dropSpaces s with
    | m :: rest =>
        if isMark m
        then Some {| before := b'; after := Str.dropSpaces rest;
                     captures := [(1%nat, [m])] |}
        else None
    | [] => None
    end.
Proof.
  destruct marks_eq as (cls & -> & Hcls). unfold exec.
  rewrite run_Seq, run_Star. cbn [after].
  set (k := run (Seq (Group 1 (Seq (Char cls) Empty))
                   (Seq (Star true (Char CSpace)) Empty)) Some).
  destruct (star_spaces_then (run (Char CSpace)) k (S (length s)) s b [])
    as [b1 ->]; [reflexivity| |lia|].
  { intros p c rest Hp Hc. unfold k. cbn [run]. rewrite Hp, Hcls.
    rewrite (isMark_space c Hc). reflexivity. }
  unfold k. cbn [run after]. destruct (Str.dropSpaces s) as [|m rest]; [eauto|].
  rewrite Hcls. destruct (isMark m); [|eauto].
  unfold capture. cbn [before after captures].
  replace (length (m :: rest) - length rest)%nat with 1%nat by (simpl; lia).
  cbn [take].
  destruct (star_spaces (run (Char CSpace)) (S (length rest)) rest (Some m)
              [(1%nat, [m])]) as [b' Hb']; [reflexivity|lia|].
  exists b'. exact Hb'.
Qed.

Lemma tighten_dropSpaces s : forall f, tighten true s = tighten f (Str.dropSpaces s).
Proof.
  induction s as [|c s IH]; intros f; [reflexivity|].
  cbn [tighten Str.dropSpaces]. destruct (isSpace c) eqn:Hc; cbn [orb].
  - apply IH.
  - cbn [tighten]. rewrite Hc. reflexivity.
Qed.

Lemma markAhead_space c s : isSpace c = true -> markAhead (c :: s) = markAhead s.
Proof. intros Hc. unfold markAhead. cbn [Str.dropSpaces]. by rewrite Hc. Qed.

Lemma markAhead_other c s : isSpace c = false -> markAhead (c :: s) = isMark c.
Proof. intros Hc. unfold markAhead. cbn [Str.dropSpaces]. by rewrite Hc. Qed.

(** Whitespace, a mark and more whitespace become the mark. *)
Lemma tighten_mark s m rest : forall f,
  Str.dropSpaces s = m :: rest -> isMark m = true ->
  tighten f s = m :: tighten false (Str.dropSpaces rest).
Proof.
  induction s as [|c s IH]; intros f Hs Hm; [discriminate|].
  cbn [Str.dropSpaces] in Hs. cbn [tighten].
  destruct (isSpace c) eqn:Hc.
  - assert (markAhead s = true) as -> by (unfold markAhead; by rewrite Hs).
    rewrite orb_true_r. by apply IH.
  - injection Hs as -> ->. rewrite Hm. f_equal. apply tighten_dropSpaces.
Qed.

(** A code unit that starts no match of [marks] stays. *)
Lemma tighten_keep c s :
  match Str.dropSpaces (c :: s) with
  | m :: _ => isMark m = false
  | [] => True
  end ->
  tighten false (c :: s) = c :: tighten false s.
Proof.
  cbn [Str.dropSpaces tighten]. destruct (isSpace c) eqn:Hc.
  - intros Hs. assert (markAhead s = false) as ->; [|reflexivity].
    unfold markAhead. destruct (Str.dropSpaces s); done.
  - intros ->. reflexivity.
Qed.

Lemma replaceGroupsFrom_marks n : forall s seen,
  (length s <= n)%nat ->
  replaceGroupsFrom marks 1 ["$"%char; "1"%char] 0 seen s = tighten false s.
Proof.
  induction n as [|n IH]; intros s seen Hn.
  - destruct s; [|simpl in Hn; lia].
    rewrite replaceGroupsFrom_0. destruct (exec_marks (head seen) []) as [b' ->].
    reflexivity.
  - destruct s as [|c s].
    { rewrite replaceGroupsFrom_0. destruct (exec_marks (head seen) []) as [b' ->].
      reflexivity. }
    rewrite replaceGroupsFrom_0.
    destruct (exec_marks (head seen) (c :: s)) as [b' ->].
    destruct (Str.dropSpaces (c :: s)) as [|m rest] eqn:Hdrop.
    + rewrite tighten_keep by (by rewrite Hdrop). f_equal. apply IH.
      simpl in Hn. lia.
    + destruct (isMark m) eqn:Hm.
      * cbv zeta. cbn [after captures].
        destruct (dropSpaces_suffix (c :: s)) as [w1 Hw1]. rewrite Hdrop in Hw1.
        destruct (dropSpaces_suffix rest) as [w2 Hw2].
        assert (c :: s = (w1 ++ m :: w2) ++ Str.dropSpaces rest) as Hsplit.
        { rewrite Hw1 at 1. rewrite Hw2 at 1. by rewrite <- app_assoc. }
        assert (length (c :: s) - length (Str.dropSpaces rest)
                = S (length (w1 ++ w2)))%nat as ->.
        { rewrite Hsplit at 1. rewrite !length_app. simpl. lia. }
        assert (substitute 1 [(1%nat, [m])] (take (S (length (w1 ++ w2))) (c :: s))
                  (rev seen) (Str.dropSpaces rest) ["$"%char; "1"%char] = [m])
          as -> by reflexivity.
        rewrite (tighten_mark _ _ _ false Hdrop Hm). cbn [app]. f_equal.
        destruct (replaceGroupsFrom_skip marks 1 ["$"%char; "1"%char]
                    (length (w1 ++ w2)) (c :: seen) s) as [seen' ->].
        { apply (f_equal (@length _)) in Hsplit. rewrite !length_app in *.
          simpl in Hsplit. lia. }
        assert (drop (length (w1 ++ w2)) s = Str.dropSpaces rest) as ->.
        { change (drop (length (w1 ++ w2)) s)
            with (drop (S (length (w1 ++ w2))) (c :: s)).
          rewrite Hsplit at 1.
          replace (S (length (w1 ++ w2))) with (length (w1 ++ m :: w2))
            by (rewrite !length_app; simpl; lia).
          apply drop_app_length. }
        apply IH.
        apply (f_equal (@length _)) in Hsplit. rewrite !length_app in Hsplit.
        simpl in Hsplit, Hn. lia.
      * rewrite tighten_keep by (by rewrite Hdrop). f_equal. apply IH.
        simpl in Hn. lia.
Qed.

(** *** What the clean-up leaves, and what it leaves alone *)

Lemma markAhead_tighten s : markAhead (tighten false s) = markAhead s.
Proof.
  induction s as [|c s IH]; [reflexivity|].
  cbn [tighten]. destruct (isSpace c) eqn:Hc; cbn [orb].
  - rewrite (markAhead_space c s Hc). destruct (markAhead s) eqn:Hs; [exact IH|].
    rewrite (markAhead_space c _ Hc). exact IH.
  - by rewrite !markAhead_other.
Qed.

Lemma snug_tighten s : forall f, snug f (tighten f s) = true.
Proof.
  induction s as [|c s IH]; intros f; [reflexivity|].
  cbn [tighten]. destruct (isSpace c) eqn:Hc.
  - destruct f; cbn [orb]; [apply IH|].
    destruct (markAhead s) eqn:Hs; [apply IH|].
    cbn [snug]. rewrite Hc, markAhead_tighten, Hs, IH. reflexivity.
  - cbn [snug]. rewrite Hc. apply IH.
Qed.

Lemma tighten_snug s : forall f, snug f s = true -> tighten f s = s.
Proof.
  induction s as [|c s IH]; intros f; [reflexivity|].
  cbn [snug tighten]. destruct (isSpace c).
  - intros Hs. apply andb_prop in Hs as [Hs Hrest]. apply andb_prop in Hs as [Hf Hm].
    apply negb_true_iff in Hf, Hm. rewrite Hf, Hm. cbn [orb]. f_equal. by apply IH.
  - intros Hs. f_equal. by apply IH.
Qed.

Lemma tidy_weaken s : tidy true s = true -> tidy false s = true.
Proof.
  destruct s as [|c s]; [reflexivity|]. cbn [tidy]. destruct (isSpace c); [|done].
  intros Ht. apply andb_prop in Ht as [Ht _]. apply andb_prop in Ht as [_ Ht].
  discriminate.
Qed.

Lemma tidy_tighten s : forall b f, tidy b s = true -> tidy b (tighten f s) = true.
Proof.
  induction s as [|c s IH]; intros b f; [reflexivity|].
  cbn [tidy tighten]. destruct (isSpace c) eqn:Hc.
  - intros Ht. apply andb_prop in Ht as [Ht Hs]. apply andb_prop in Ht as [Hsp Hb].
    apply negb_true_iff in Hb. subst b.
    destruct (f || markAhead s).
    + apply IH, tidy_weaken, Hs.
    + cbn [tidy]. rewrite Hc, Hsp. cbn [negb andb]. apply IH, Hs.
  - intros Ht. cbn [tidy]. rewrite Hc. apply IH, Ht.
Qed.

Lemma tighten_head c s f : isSpace c = false -> exists t, tighten f (c :: s) = c :: t.
Proof. intros Hc. cbn [tighten]. rewrite Hc. eauto. Qed.

(** In text whose whitespace is single spaces, dropping the spaces next
    to marks brings no [>] and [<] to either side of a space. *)
Lemma gap_tighten c s b :
  tidy b s = true -> gap (c :: s) = None -> gap (c :: tighten (isMark c) s) = None.
Proof.
  intros Ht Hg.
  destruct (Ascii.eqb_spec c ">") as [->|Hc]; [|by apply gap_first].
  change (isMark ">") with false.
  destruct s as [|c2 s]; [reflexivity|]. cbn [tighten].
  cbn [tidy] in Ht. destruct (isSpace c2) eqn:Hc2.
  - apply andb_prop in Ht as [Ht Hs]. apply andb_prop in Ht as [Hsp _].
    apply Ascii.eqb_eq in Hsp. subst c2. cbn [orb].
    destruct s as [|c3 s].
    { reflexivity. }
    cbn [tidy] in Hs. destruct (isSpace c3) eqn:Hc3.
    { apply andb_prop in Hs as [Hs _]. apply andb_prop in Hs as [_ Hs]. discriminate. }
    rewrite (markAhead_other c3 s Hc3).
    destruct (isMark c3) eqn:Hm3.
    + destruct (tighten_head c3 s false Hc3) as [t ->].
      apply gap_second. intros ->. discriminate.
    + destruct (tighten_head c3 s false Hc3) as [t ->].
      cbn [gap] in *. destruct (Ascii.eqb c3 "<"); [discriminate|reflexivity].
  - destruct (tighten_head c2 s false Hc2) as [t Ht2]. cbn [tighten] in Ht2.
    rewrite Hc2 in Ht2. apply gap_second. intros ->. discriminate.
Qed.

Lemma noGap_tighten s : forall b f,
  tidy b s = true -> noGap s = true -> noGap (tighten f s) = true.
Proof.
  induction s as [|c s IH]; intros b f Ht; [reflexivity|].
  cbn [noGap]. destruct (gap (c :: s)) eqn:Hg; [discriminate|]. intros Hs.
  cbn [tidy] in Ht. cbn [tighten]. destruct (isSpace c) eqn:Hc.
  - apply andb_prop in Ht as [_ Ht].
    destruct (f || markAhead s); [by apply (IH true)|].
    cbn [noGap]. rewrite gap_first; [by apply (IH true)|].
    intros ->. discriminate.
  - cbn [noGap]. rewrite (gap_tighten c s false Ht Hg). by apply (IH false).
Qed.

Lemma snug_dropSpaces s : forall f, snug f s = true -> snug false (Str.dropSpaces s) = true.
Proof.
  induction s as [|c s IH]; intros f; [reflexivity|].
  cbn [snug Str.dropSpaces]. destruct (isSpace c) eqn:Hc.
  - intros Hs. apply andb_prop in Hs as [_ Hs]. by apply (IH false).
  - intros Hs. cbn [snug]. by rewrite Hc.
Qed.

Lemma markAhead_prefix y w : markAhead (y ++ w) = false -> markAhead y = false.
Proof.
  induction y as [|c y IH]; [reflexivity|]. cbn [app].
  destruct (isSpace c) eqn:Hc.
  - rewrite !markAhead_space by exact Hc. exact IH.
  - by rewrite !markAhead_other.
Qed.

Lemma snug_prefix y w : forall f, snug f (y ++ w) = true -> snug f y = true.
Proof.
  induction y as [|c y IH]; intros f; [reflexivity|].
  cbn [snug app]. destruct (isSpace c).
  - intros Hs. apply andb_prop in Hs as [Hs Hrest]. apply andb_prop in Hs as [-> Hm].
    apply negb_true_iff in Hm. rewrite (markAhead_prefix _ _ Hm). cbn [negb andb].
    by apply IH.
  - apply IH.
Qed.

(** What the four steps of the clean-up produce needs none of them
    again. *)
Lemma cleanup_neat s : neat (cleanup s).
Proof.
  unfold cleanup.
  set (u := tighten false (squeeze (collapse false s))).
  assert (Ht0 : tidy false (squeeze (collapse false s)) = true)
    by apply tidy_squeeze, tidy_collapse.
  assert (Ht : tidy false u = true) by apply tidy_tighten, Ht0.
  assert (Hg : noGap u = true)
    by (apply (noGap_tighten _ false false); [exact Ht0 | apply noGap_squeeze]).
  assert (Hm : snug false u = true) by apply snug_tighten.
  apply tidy_dropSpaces in Ht. apply noGap_dropSpaces in Hg.
  apply snug_dropSpaces in Hm.
  pose proof (dropSpaces_clean u) as Hc.
  destruct (trimEnd_prefix (Str.dropSpaces u)) as [w Hw].
  rewrite Hw in Ht, Hg, Hm.
  split; [repeat split|].
  - exact (tidy_prefix _ _ _ Ht).
  - exact (noGap_prefix _ _ Hg).
  - apply trimEnd_clean, Hc.
  - rewrite rev_involutive. apply dropSpaces_clean.
  - exact (snug_prefix _ _ _ Hm).
Qed.

Lemma neat_cleanup s : neat s -> cleanup s = s.
Proof.
  intros [(Ht & Hg & Hs & He) Hm]. unfold cleanup.
  rewrite (collapse_tidy _ _ Ht), (squeeze_noGap _ Hg), (tighten_snug _ _ Hm).
  rewrite (dropSpaces_fixed _ Hs), (dropSpaces_fixed _ He).
  apply rev_involutive.
Qed.

Lemma cleanup_idempotent s : cleanup (cleanup s) = cleanup s.
Proof. apply neat_cleanup, cleanup_neat. Qed.

Lemma cleanupWhitespace_steps content :
  ContentNormalizer.cleanupWhitespace content
  = string_of_list_ascii (cleanup (list_ascii_of_string content)).
Proof.
  unfold ContentNormalizer.cleanupWhitespace, replaceLiteral.
  fold runs tagGap marks.
  rewrite (replaceGroups_plain runs), (replaceGroups_plain tagGap)
    by (repeat constructor; discriminate).
  unfold Str.trim, replaceGroups, replaceAll.
  rewrite !list_ascii_of_string_of_list_ascii.
  change (list_ascii_of_string " ") with [space].
  change (list_ascii_of_string "><") with [">"%char; "<"%char].
  change (list_ascii_of_string "$1") with ["$"%char; "1"%char].
  rewrite (proj1 (replaceFrom_ws _ _)), replaceFrom_gt.
  change (groupCount _) with 1%nat.
  rewrite (replaceGroupsFrom_marks _ _ _ (Nat.le_refl _)). reflexivity.
Qed.


(** A text without a match is returned as it is, whatever the
    replacement. *)
Lemma replaceGroupsFrom_no_match r groups rep s : forall seen,
  searchFrom r (head seen) s = false ->
  replaceGroupsFrom r groups rep 0 seen s = s.
Proof.
  induction s as [|c s IH]; intros seen Hs;
    destruct (searchFrom_false _ _ _ Hs) as [He Hrest];
    rewrite replaceGroupsFrom_0, He; [reflexivity|].
  f_equal. by apply IH.
Qed.

Lemma replaceLiteral_no_match source ignoreCase rep s :
  test (regex source ignoreCase) s = false ->
  replaceLiteral source ignoreCase rep s = s.
Proof.
  unfold test, replaceLiteral, replaceGroups. intros Hs.
  rewrite replaceGroupsFrom_no_match by exact Hs.
  apply string_of_list_ascii_of_string.
Qed.

(** The regex literals of both normalizers are in the part of the
    syntax that [compile] reads. *)
Lemma IGNORE_PATTERNS_compile :
  Forall (fun pattern => pattern <> Char CNone) ContentComparer.IGNORE_PATTERNS.
Proof.
  unfold ContentComparer.IGNORE_PATTERNS.
  repeat (apply Forall_cons_2; [vm_compute; discriminate|]). apply Forall_nil_2.
Qed.

Lemma DEFAULT_PATTERNS_compile :
  Forall (fun patternObj =>
            is_Some (compile (ContentNormalizer.source patternObj)
                             (ContentNormalizer.ignoreCase patternObj)))
         ContentNormalizer.DEFAULT_PATTERNS.
Proof.
  unfold ContentNormalizer.DEFAULT_PATTERNS.
  repeat (apply Forall_cons_2; [vm_compute; by eexists|]). apply Forall_nil_2.
Qed.

Lemma foldl_fixed {A B : Type} (f : A -> B -> A) (y : A) (l : list B) :
  Forall (fun b => f y b = y) l -> foldl f y l = y.
Proof.
  induction 1 as [|b l Hb _ IH]; [reflexivity|].
  cbn [foldl]. by rewrite Hb.
Qed.

Section Normalize.
Context `{Platform}.
Import ContentComparer.

(** The whitespace steps of [normalizeContent] never change their own
    result. *)
Lemma normalizeContent_settles n :
  Str.trim (replaceAll tagGap "><" (replaceAll runs " "
     (Str.trim (replaceAll tagGap "><" (replaceAll runs " " n)))))
  = Str.trim (replaceAll tagGap "><" (replaceAll runs " " n)).
Proof.
  rewrite !whitespace_steps, list_ascii_of_string_of_list_ascii.
  by rewrite whitespace_idempotent.
Qed.

(** Neither does [cleanupWhitespace]. *)
Lemma cleanupWhitespace_settles n :
  ContentNormalizer.cleanupWhitespace (ContentNormalizer.cleanupWhitespace n)
  = ContentNormalizer.cleanupWhitespace n.
Proof.
  rewrite !cleanupWhitespace_steps, list_ascii_of_string_of_list_ascii.
  by rewrite cleanup_idempotent.
Qed.

End Normalize.

End Normalization.

(** ** Instances on the sample site *)

Module Instances.
Import BackupFetcher Sample Steps Machine.
#[local] Existing Instance Sample.platform.

(** A flat sitemap resolves to its entries at any depth above 0. *)
Lemma parseSitemap_urlset `{Platform} (net : Network) (clock : string)
    (fuel : nat) (siteId u : string) (w : World) response result items :
  net {| requestUrl := u; requestHeaders := []; manualRedirect := false |}
  = Responded response ->
  ok response = true ->
  parseXml (body response) = Some result ->
  urlset_url result = Some items ->
  exists w', parseSitemap net clock (S fuel) siteId u w = Done (locs items) w'.
Proof.
  intros Hnet Hok Hxml Hset. cbn [parseSitemap].
  unfold mbind, M_bind, fetch at 1. rewrite Hnet, Hok. cbn [negb].
  unfold recordSitemapState, KV.put. rewrite Hxml, Hset. by eexists.
Qed.


Lemma firstSitemap_resolves w :
  exists w',
    getUrlsToBackup (site firstSitemap) now 5 config w = Done [page1; page2] w'.
Proof.
  unfold getUrlsToBackup. cbn [urls sitemapUrl config id].
  change (JS.truthy "https://example.com/sitemap.xml") with true. cbv iota.
  edestruct (parseSitemap_urlset (site firstSitemap) now 4 "test-site"
               "https://example.com/sitemap.xml" w) as (w' & Hrun);
    [reflexivity | reflexivity | vm_compute; reflexivity | reflexivity |].
  rewrite (bind_run _ _ _ _ _ Hrun). by eexists.
Qed.






Lemma detectChanges_reports_changed_hashes_witness :
  detectChanges "test-site" [fetchedAs page1 "raw-after"; fetchedAs page2 "raw"]
    (withLatest (JSON_stringify (metadataJson stored)))
  = Done [page2] (withLatest (JSON_stringify (metadataJson stored))).
Proof.
  apply (ChangeDetector.detectChanges_reports_changed_hashes "test-site"
           [fetchedAs page1 "raw-after"; fetchedAs page2 "raw"]
           (withLatest (JSON_stringify (metadataJson stored))) latestOf).
  intros r m [<-|[<-|[]]] [= <-]; (split; [discriminate|]).
  - exists (JSON_stringify (metadataJson stored)).
    repeat split; [discriminate | discriminate].
  - reflexivity.
Defined.

Lemma detectChanges_unparsable_latest_is_changed_witness :
  exists changedUrls,
    detectChanges "test-site" [fetchedAs page1 "raw-after"; fetchedAs page2 "raw"]
      (withLatest "{not json") = Done changedUrls (withLatest "{not json") /\
    In page1 changedUrls.
Proof.
  apply (ChangeDetector.detectChanges_unparsable_latest_is_changed "test-site"
           [fetchedAs page1 "raw-after"; fetchedAs page2 "raw"]
           (withLatest "{not json") (fetchedAs page1 "raw-after")
           (fetchedMetadata page1 "raw-after") "{not json").
  - by left.
  - reflexivity.
  - reflexivity.
  - reflexivity.
Defined.



End Instances.

(** ** Fetching pages: requests, retries and chunks *)

Module FetchFacts.
Import BackupFetcher Steps Traffic.

Lemma logged_nil w : logged w [] = w.
Proof. unfold logged. rewrite app_nil_r. by destruct w. Qed.

Lemma logged_app w a b : logged (logged w a) b = logged w (a ++ b).
Proof. unfold logged. simpl. by rewrite app_assoc. Qed.

Section Requests.
Context `{Platform}.
Variable net : Network.

Lemma fetch_logged req w :
  fetch net req w = Done (net req) (logged w [requestUrl req]).
Proof. reflexivity. Qed.

(** The redirect loop: what it returns and which requests it makes do not
    depend on the state it starts in. *)
Lemma followRedirects_run hops : forall currentUrl response redirectCount,
  exists res extra,
    (forall w, followRedirects net hops currentUrl response redirectCount w
               = Done res (logged w extra)) /\
    (length extra <= hops)%nat /\
    forall last n, res = inl (last, n) -> n = redirectCount + Z.of_nat (length extra).
Proof.
  induction hops as [|hops IH]; intros currentUrl response redirectCount;
    cbn [followRedirects].
  - exists (inl (response, redirectCount)), []. split; [|split].
    + intros w. by rewrite logged_nil.
    + done.
    + intros last n [= _ <-]. simpl. lia.
  - assert (Hstay : exists res extra,
               (forall w, (mret (inl (response, redirectCount))
                           : M (Response * Z + string)) w
                          = Done res (logged w extra)) /\
               (length extra <= S hops)%nat /\
               forall last n, res = inl (last, n) ->
                              n = redirectCount + Z.of_nat (length extra)).
    { exists (inl (response, redirectCount)), []. split; [|split].
      - intros w. by rewrite logged_nil.
      - simpl. lia.
      - intros last n [= _ <-]. simpl. lia. }
    destruct (redirected response); [|exact Hstay].
    destruct (header "location" (headers response)) as [location|]; [|exact Hstay].
    destruct (JS.truthy location); [|exact Hstay].
    destruct (resolveUrl location currentUrl) as [next|].
    + destruct (net {| requestUrl := next; requestHeaders := userAgentHeaders;
                       manualRedirect := true |}) as [response'|message] eqn:Hnet.
      * destruct (IH next response' (redirectCount + 1))
          as (res & extra & Hrun & Hlen & Hcount).
        exists res, (next :: extra). split; [|split].
        -- intros w. erewrite bind_run by apply fetch_logged. rewrite Hnet.
           rewrite Hrun. by rewrite logged_app.
        -- simpl. lia.
        -- intros last n Hres. rewrite (Hcount last n Hres). simpl length. lia.
      * exists (inr message), [next]. split; [|split].
        -- intros w. erewrite bind_run by apply fetch_logged. by rewrite Hnet.
        -- simpl. lia.
        -- intros last n [=].
    + exists (inr "Invalid URL"), []. split; [|split].
      * intros w. by rewrite logged_nil.
      * simpl. lia.
      * intros last n [=].
Qed.

(** One [performFetch]: the first request goes to the URL itself, at most
    five more follow redirects, and a result is returned only for a 2xx
    answer. *)
Lemma performFetch_run u :
  exists res hops,
    (forall w, performFetch net u w = Done res (logged w (u :: hops))) /\
    (length hops <= 5)%nat /\
    forall r, res = inl r ->
      fr_url r = u /\ 200 <= fr_status r <= 299 /\
      fr_redirectCount r = Z.of_nat (length hops).
Proof.
  destruct (net {| requestUrl := u; requestHeaders := userAgentHeaders;
                   manualRedirect := false |}) as [first|message] eqn:Hnet.
  - destruct (followRedirects_run 5 u first 0) as (res & extra & Hrun & Hlen & Hcount).
    assert (Hstart : forall w,
               performFetch net u w
               = (match res with
                  | inr message => mret (inr message)
                  | inl (response, redirectCount) =>
                      if negb (ok response) then
                        mret (inr ("HTTP " +:+ pretty (status response) +:+ ": "
                                   +:+ statusText response))
                      else
                        mret (inl {| fr_content := body response;
                                     fr_status := status response;
                                     fr_headers := headers response;
                                     fr_url := u;
                                     finalUrl := responseUrl response;
                                     fr_redirectCount := redirectCount;
                                     fr_fetchTime := 0 |})
                  end : M (FetchResult + string)) (logged w (u :: extra))).
    { intros w. unfold performFetch. erewrite bind_run by apply fetch_logged.
      rewrite Hnet. erewrite bind_run by apply Hrun. by rewrite logged_app. }
    destruct res as [[response n]|message].
    + destruct (ok response) eqn:Hok.
      * eexists _, extra. split; [|split; [done|]].
        -- intros w. rewrite Hstart. reflexivity.
        -- intros r [= <-]. cbn. unfold ok in Hok.
           apply andb_prop in Hok as [?%Z.leb_le ?%Z.leb_le].
           rewrite (Hcount _ _ eq_refl). split; [done|lia].
      * eexists _, extra. split; [|split; [done|]].
        -- intros w. rewrite Hstart. reflexivity.
        -- intros r [=].
    + eexists _, extra. split; [|split; [done|]].
      * intros w. rewrite Hstart. reflexivity.
      * intros r [=].
  - eexists _, []. split; [|split; [simpl; lia|]].
    + intros w. unfold performFetch. erewrite bind_run by apply fetch_logged.
      by rewrite Hnet.
    + intros r [=].
Qed.

Lemma orElse_message lastError :
  default "Unknown error" (JS.orElse lastError (Some "Unknown error")) <> EmptyString.
Proof.
  destruct lastError as [message|]; [|done]. unfold JS.orElse, JS.truthy.
  destruct (String.eqb_spec message EmptyString); simpl; done.
Qed.

Lemma fetchAttempts_run attempts u ignorePatterns : forall lastError,
  exists r extra,
    (forall now w, fetchAttempts net now attempts u ignorePatterns lastError w
                   = Done (retimed now r) (logged w extra)) /\
    (length extra <= 6 * attempts)%nat /\
    fetchedFrom ignorePatterns u r.
Proof.
  induction attempts as [|attempts IH]; intros lastError.
  - eexists (failure u _), []. split; [|split].
    + intros now w. cbn [fetchAttempts]. by rewrite logged_nil.
    + simpl. lia.
    + split; [done|]. cbn. split; [done|]. split; [done|].
      eexists. split; [done|]. apply orElse_message.
  - destruct (performFetch_run u) as (res & hops & Hrun & Hlen & Hres).
    destruct res as [r|message].
    + destruct (Hres r eq_refl) as (Hurl & Hstatus & Hcount).
      exists {| url := fr_url r; success := true;
                metadata :=
                  Some {| bm_url := fr_url r; timestamp := EmptyString;
                          hash := calculateHash (fr_content r);
                          normalizedHash :=
                            Some (ContentComparer.calculateNormalizedHash
                                    (fr_content r) ignorePatterns);
                          bm_status := fr_status r;
                          contentType :=
                            default "unknown"
                              (JS.orElse (header "content-type" (fr_headers r))
                                         (Some "unknown"));
                          etag := header "etag" (fr_headers r);
                          size := Z.of_nat (String.length (fr_content r));
                          fetchTime := fr_fetchTime r;
                          redirectCount := Some (fr_redirectCount r) |};
                content := Some (fr_content r); error := None |}, (u :: hops).
      split; [|split].
      * intros now w. cbn [fetchAttempts]. rewrite (bind_run _ _ _ _ _ (Hrun w)).
        reflexivity.
      * simpl. lia.
      * split; [done|]. cbn.
        eexists _, _. split; [reflexivity|]. split; [reflexivity|].
        split; [reflexivity|]. cbn.
        split; [done|]. split; [done|]. split; [done|]. split; [done|].
        split; [lia|]. eexists. split; [reflexivity|]. lia.
    + destruct (IH (Some message)) as (r & extra & Hrest & Hlen' & Hshape).
      exists r, ((u :: hops) ++ extra). split; [|split; [|done]].
      * intros now w. cbn [fetchAttempts]. rewrite (bind_run _ _ _ _ _ (Hrun w)).
        rewrite Hrest. by rewrite logged_app.
      * rewrite length_app. simpl. lia.
Qed.

Lemma fetchChunk_run batch options ignorePatterns :
  exists rs extra,
    (forall now w, fetchChunk net now batch options ignorePatterns w
                   = Done (retimed now <$> rs) (logged w extra)) /\
    (length extra <= 6 * Z.to_nat (retries options + 1) * length batch)%nat /\
    Forall2 (fetchedFrom ignorePatterns) batch rs.
Proof.
  induction batch as [|u rest (rs & extra & Hrest & Hlen' & Hall)].
  - exists [], []. split; [|split].
    + intros now w. cbn [fetchChunk]. by rewrite logged_nil.
    + simpl. lia.
    + constructor.
  - destruct (fetchAttempts_run (Z.to_nat (retries options + 1)) u ignorePatterns None)
      as (r & extra1 & Hrun & Hlen & Hshape).
    exists (r :: rs), (extra1 ++ extra). split; [|split].
    + intros now w. cbn [fetchChunk]. unfold fetchUrlWithRetries.
      rewrite (bind_run _ _ _ _ _ (Hrun now w)).
      rewrite (bind_run _ _ _ _ _ (Hrest now _)). by rewrite logged_app.
    + rewrite length_app. simpl length. lia.
    + by constructor.
Qed.

Lemma slice_chunk (urls : list string) (i step : Z) :
  0 <= i -> 0 <= step ->
  JS.slice urls i (i + step) = take (Z.to_nat step) (drop (Z.to_nat i) urls).
Proof.
  intros Hi Hstep. unfold JS.slice, JS.relIndex.
  destruct (Z.ltb_spec i 0), (Z.ltb_spec (i + step) 0); try lia.
  destruct (Z.le_gt_cases i (Z.of_nat (length urls))) as [Hin|Hout].
  - rewrite (Z.min_l i) by lia.
    destruct (Z.le_gt_cases (i + step) (Z.of_nat (length urls))).
    + rewrite Z.min_l by lia. f_equal. lia.
    + rewrite Z.min_r by lia.
      rewrite (take_ge (drop _ _) (Z.to_nat step)) by (rewrite length_drop; lia).
      apply take_ge. rewrite length_drop. lia.
  - rewrite !drop_ge by lia. by rewrite !take_nil.
Qed.

Lemma fetchChunks_run iterations urls step options ignorePatterns :
  1 <= step ->
  forall i acc done,
    0 <= i -> (Z.to_nat (Z.of_nat (length urls) - i) <= iterations)%nat ->
    Forall2 (fetchedFrom ignorePatterns) (take (Z.to_nat i) urls) acc ->
    (length done
     <= 6 * Z.to_nat (retries options + 1) * length (take (Z.to_nat i) urls))%nat ->
    exists rs extra,
      (forall now w,
         fetchChunks net now iterations urls i step options ignorePatterns
           (retimed now <$> acc) w
         = Done (retimed now <$> rs) (logged w extra)) /\
      (length (done ++ extra)
       <= 6 * Z.to_nat (retries options + 1) * length urls)%nat /\
      Forall2 (fetchedFrom ignorePatterns) urls rs.
Proof.
  intros Hstep. induction iterations as [|iterations IH];
    intros i acc done Hi Hleft Hacc Hdone.
  - assert (Z.of_nat (length urls) <= i) by lia.
    rewrite take_ge in Hacc, Hdone by lia.
    exists acc, []. split; [|split; [by rewrite app_nil_r | done]].
    intros now w. cbn [fetchChunks].
    destruct (Z.ltb_spec i (Z.of_nat (length urls))); [lia|]. by rewrite logged_nil.
  - destruct (Z.ltb_spec i (Z.of_nat (length urls))) as [Hlt|Hge].
    + destruct (fetchChunk_run (JS.slice urls i (i + step)) options ignorePatterns)
        as (rs1 & extra1 & Hrun & Hlen & Hall).
      rewrite slice_chunk in Hlen, Hall by lia.
      assert (Htake : take (Z.to_nat (i + step)) urls
                      = take (Z.to_nat i) urls
                        ++ take (Z.to_nat step) (drop (Z.to_nat i) urls)).
      { replace (Z.to_nat (i + step)) with (Z.to_nat i + Z.to_nat step)%nat by lia.
        symmetry. apply take_take_drop. }
      destruct (IH (i + step) (acc ++ rs1) (done ++ extra1))
        as (rs & extra & Hrest & Hlen' & Hall'); [lia|lia|..].
      * rewrite Htake. by apply Forall2_app.
      * rewrite Htake, !length_app. lia.
      * exists rs, (extra1 ++ extra). split; [|split; [by rewrite app_assoc | done]].
        intros now w. cbn [fetchChunks].
        destruct (Z.ltb_spec i (Z.of_nat (length urls))); [|lia].
        rewrite (bind_run _ _ _ _ _ (Hrun now w)). rewrite <- fmap_app.
        rewrite Hrest. by rewrite logged_app.
    + rewrite take_ge in Hacc, Hdone by lia.
      exists acc, []. split; [|split; [by rewrite app_nil_r | done]].
      intros now w. cbn [fetchChunks].
      destruct (Z.ltb_spec i (Z.of_nat (length urls))); [lia|]. by rewrite logged_nil.
Qed.

(** The fetch loop with a positive step: one result for each URL, in the
    order of the URLs; at most 6 requests for each attempt at a URL, none
    of them changing the store. What is fetched depends on the servers
    only, not on the state or the time of the invocation. *)
Lemma fetchUrlsWithConcurrency_run urls options ignorePatterns :
  1 <= concurrency options ->
  exists rs extra,
    (forall now w, fetchUrlsWithConcurrency net now urls options ignorePatterns w
                   = Done (retimed now <$> rs) (logged w extra)) /\
    (length extra <= 6 * Z.to_nat (retries options + 1) * length urls)%nat /\
    Forall2 (fetchedFrom ignorePatterns) urls rs.
Proof.
  intros Hc.
  destruct (fetchChunks_run (length urls) urls (Z.min (concurrency options) 5)
              options ignorePatterns ltac:(lia) 0 [] [])
    as (rs & extra & Hrun & Hlen & Hall); try (simpl; lia).
  - simpl. constructor.
  - exists rs, extra. done.
Qed.

(** With a step that is not positive the loop never gets past the start of
    a non-empty list, however many rounds it is given. *)
Lemma fetchChunks_stuck now urls step options ignorePatterns :
  step <= 0 -> urls <> [] ->
  forall iterations i acc w,
    i <= 0 ->
    exists w', fetchChunks net now iterations urls i step options ignorePatterns acc w
               = Diverges w'.
Proof.
  intros Hstep Hurls. induction iterations as [|iterations IH];
    intros i acc w Hi; cbn [fetchChunks].
  all: destruct (Z.ltb_spec i (Z.of_nat (length urls)));
    [|destruct urls; [done | simpl in *; lia]].
  - by eexists.
  - destruct (fetchChunk_run (JS.slice urls i (i + step)) options ignorePatterns)
      as (rs1 & extra1 & Hrun & _).
    rewrite (bind_run _ _ _ _ _ (Hrun now w)). apply IH. lia.
Qed.

Lemma fetchedFrom_retimed now ignorePatterns u r :
  fetchedFrom ignorePatterns u r -> fetchedFrom ignorePatterns u (retimed now r).
Proof.
  intros [Hurl Hshape]. split; [done|]. cbn. destruct (success r).
  - destruct Hshape as (m & c & -> & -> & -> & Hrest). cbn. do 2 eexists.
    split; [done|]. split; [done|]. split; [done|]. exact Hrest.
  - destruct Hshape as (-> & -> & Hrest). done.
Qed.

(** X1. One [performFetch] of [u] always returns: its first request
    goes to [u] itself and at most five more follow redirects (six
    requests in all, whatever the servers answer), it writes nothing, and
    it yields a result only for an answer with a status from 200 to 299,
    naming [u] and counting the redirects followed. *)
Theorem performFetch_follows_at_most_five_redirects (u : string) :
  exists res hops,
    (forall w, performFetch net u w = Done res (logged w (u :: hops))) /\
    (length hops <= 5)%nat /\
    forall r, res = inl r ->
      fr_url r = u /\ 200 <= fr_status r <= 299 /\
      fr_redirectCount r = Z.of_nat (length hops).
Proof. apply performFetch_run. Qed.


(** X3. With a concurrency of at least 1 the fetch loop returns exactly
    one result for each URL, in the order of the URLs and each named for
    its URL, after at most [6 * (retries + 1)] requests for each URL and
    without writing to the store; the results depend on the servers
    only. *)
Theorem fetchUrlsWithConcurrency_one_result_per_url (urls : list string)
    (options : FetchOptions) (ignorePatterns : option (list string)) :
  1 <= concurrency options ->
  exists rs extra,
    (forall now w,
       fetchUrlsWithConcurrency net now urls options ignorePatterns w
       = Done (retimed now <$> rs) (logged w extra)) /\
    (length extra <= 6 * Z.to_nat (retries options + 1) * length urls)%nat /\
    Forall2 (fetchedFrom ignorePatterns) urls rs /\
    url <$> rs = urls.
Proof.
  intros Hc.
  destruct (fetchUrlsWithConcurrency_run urls options ignorePatterns Hc)
    as (rs & extra & Hrun & Hlen & Hall).
  exists rs, extra. split; [done|]. split; [done|]. split; [done|].
  clear -Hall. induction Hall as [|u r us rs [Hurl _] _ IH]; [done|].
  rewrite fmap_cons. congruence.
Qed.

(** X4. With a concurrency of 0 or less the loop over a non-empty list
    of URLs never advances: however many rounds it is given it does not
    return, and so [fetchUrlsWithConcurrency] does not return. *)
Theorem fetchUrlsWithConcurrency_stuck_without_concurrency (now : string)
    (urls : list string) (options : FetchOptions)
    (ignorePatterns : option (list string)) (w : World) :
  concurrency options <= 0 -> urls <> [] ->
  (forall iterations,
     exists w',
       fetchChunks net now iterations urls 0 (Z.min (concurrency options) 5)
         options ignorePatterns [] w = Diverges w') /\
  exists w',
    fetchUrlsWithConcurrency net now urls options ignorePatterns w = Diverges w'.
Proof.
  intros Hc Hurls.
  assert (Hstuck : forall iterations,
             exists w',
               fetchChunks net now iterations urls 0 (Z.min (concurrency options) 5)
                 options ignorePatterns [] w = Diverges w').
  { intros iterations. apply fetchChunks_stuck; [lia | done | lia]. }
  split; [exact Hstuck | apply Hstuck].
Qed.

End Requests.
End FetchFacts.

(** ** Storing results and detecting changes *)

Module StoreFacts.
Import BackupFetcher Steps Traffic Storage.

Section Store.
Context `{Platform}.
Variable now : string.
Variable siteId : string.

Lemma storeBackups_cons r rest w :
  storeBackups now siteId (r :: rest) w
  = match storable r with
    | Some (m, text) =>
        storeBackups now siteId rest
          {| kv := recorded now siteId r m text (kv w); fetched := fetched w |}
    | None => storeBackups now siteId rest w
    end.
Proof.
  cbn [storeBackups]. unfold storable.
  destruct (metadata r) as [m|]; [|done].
  destruct (content r) as [text|]; [|done].
  destruct (JS.truthy text); [|done].
  unfold mbind, M_bind, KV.get, KV.put, recorded. cbn.
  destruct (kv w !! latestKey siteId (getUrlHash (url r))) as [previous|]; [|by destruct w].
  destruct (JS.truthy previous); by destruct w.
Qed.

Lemma keysOf_disjoint h h' k :
  h <> h' -> In k (keysOf now siteId h) -> ~ In k (keysOf now siteId h').
Proof.
  intros Hne Hk Hk'. unfold keysOf in *. simpl in Hk, Hk'.
  destruct Hk as [<-|[<-|[<-|[<-|[]]]]];
    destruct Hk' as [Heq|[Heq|[Heq|[Heq|[]]]]];
    revert Heq; try distinct_keys.
  all: unfold contentKey, metadataKey, latestKey, prevLatestKey;
    intros Heq; repeat apply (inj (String.app _)) in Heq; congruence.
Qed.

Lemma recorded_other r m text store k :
  ~ In k (keysOf now siteId (getUrlHash (url r))) ->
  recorded now siteId r m text store !! k = store !! k.
Proof.
  intros Hk. unfold recorded. cbv zeta.
  assert (Hwritten :
    <[latestKey siteId (getUrlHash (url r)) := JSON_stringify (metadataJson m)]>
      (<[metadataKey siteId (today now) (getUrlHash (url r))
         := JSON_stringify (metadataJson m)]>
         (<[contentKey siteId (today now) (getUrlHash (url r)) := text]> store)) !! k
    = store !! k).
  { rewrite !lookup_insert_ne; [done|..]; intros <-; apply Hk; unfold keysOf; simpl; auto. }
  destruct (store !! latestKey _ _) as [previous|]; [|done].
  destruct (JS.truthy previous); [|done].
  rewrite lookup_insert_ne; [done|]. intros <-. apply Hk. unfold keysOf. simpl. auto.
Qed.

Lemma storeBackups_frame results : forall w,
  exists w',
    storeBackups now siteId results w = Done () w' /\ fetched w' = fetched w /\
    forall k, (forall r, In r results -> ~ In k (keysOf now siteId (getUrlHash (url r)))) ->
              kv w' !! k = kv w !! k.
Proof.
  induction results as [|r rest IH]; intros w.
  - by exists w.
  - rewrite storeBackups_cons. destruct (storable r) as [[m text]|].
    + destruct (IH {| kv := recorded now siteId r m text (kv w); fetched := fetched w |})
        as (w' & Hrun & Hlog & Hframe).
      exists w'. split; [done|]. split; [done|]. intros k Hk.
      rewrite Hframe by (intros r' Hr'; apply Hk; by right).
      simpl. apply recorded_other. apply Hk. by left.
    + destruct (IH w) as (w' & Hrun & Hlog & Hframe).
      exists w'. split; [done|]. split; [done|]. intros k Hk.
      apply Hframe. intros r' Hr'. apply Hk. by right.
Qed.

(** What [storeBackups] leaves for a result it writes, when no other
    result of the batch has the same URL hash. *)
Lemma storeBackups_written results : forall w r m text,
  NoDup (hashes results) -> In r results -> storable r = Some (m, text) ->
  exists w',
    storeBackups now siteId results w = Done () w' /\
    let urlHash := getUrlHash (url r) in
    kv w' !! contentKey siteId (today now) urlHash = Some text /\
    kv w' !! metadataKey siteId (today now) urlHash
    = Some (JSON_stringify (metadataJson m)) /\
    kv w' !! latestKey siteId urlHash = Some (JSON_stringify (metadataJson m)) /\
    kv w' !! prevLatestKey siteId urlHash
    = match kv w !! latestKey siteId urlHash with
      | Some previous =>
          if JS.truthy previous then Some previous
          else kv w !! prevLatestKey siteId urlHash
      | None => kv w !! prevLatestKey siteId urlHash
      end.
Proof.
  induction results as [|r0 rest IH]; intros w r m text Hnodup Hin Hstorable; [done|].
  apply NoDup_cons in Hnodup as [Hfresh Hnodup].
  rewrite storeBackups_cons.
  destruct Hin as [->|Hin].
  - rewrite Hstorable.
    destruct (storeBackups_frame rest
                {| kv := recorded now siteId r m text (kv w); fetched := fetched w |})
      as (w' & Hrun & _ & Hframe).
    exists w'. split; [done|]. cbv zeta.
    assert (Hother : forall k, In k (keysOf now siteId (getUrlHash (url r))) ->
                               forall r', In r' rest ->
                                          ~ In k (keysOf now siteId (getUrlHash (url r')))).
    { intros k Hk r' Hr'. apply (keysOf_disjoint (getUrlHash (url r))); [|done].
      intros Heq. apply Hfresh. unfold hashes. rewrite Heq.
      apply list_elem_of_fmap. exists r'. split; [done|]. by apply list_elem_of_In. }
    rewrite !Hframe by (apply Hother; unfold keysOf; simpl; auto).
    simpl. unfold recorded. cbv zeta.
    destruct (kv w !! latestKey siteId (getUrlHash (url r))) as [previous|] eqn:Hprev;
      [destruct (JS.truthy previous)|].
    all: repeat first [rewrite lookup_insert_eq
                      | rewrite lookup_insert_ne by distinct_keys]; done.
  - assert (Hne : getUrlHash (url r0) <> getUrlHash (url r)).
    { intros Heq. apply Hfresh. unfold hashes. rewrite Heq.
      apply list_elem_of_fmap. exists r. split; [done|]. by apply list_elem_of_In. }
    assert (Hkeep : forall store m0 text0 k,
               In k (keysOf now siteId (getUrlHash (url r))) ->
               recorded now siteId r0 m0 text0 store !! k = store !! k).
    { intros store m0 text0 k Hk. apply recorded_other.
      by apply (keysOf_disjoint (getUrlHash (url r))). }
    destruct (storable r0) as [[m0 text0]|].
    + destruct (IH {| kv := recorded now siteId r0 m0 text0 (kv w); fetched := fetched w |}
                  r m text Hnodup Hin Hstorable) as (w' & Hrun & Hc & Hm & Hl & Hp).
      exists w'. split; [done|]. cbv zeta. split; [done|]. split; [done|]. split; [done|].
      rewrite Hp. simpl. rewrite !Hkeep by (unfold keysOf; simpl; auto). done.
    + by apply IH.
Qed.

(** A fetched result is unchanged against a stored record with the
    same hashes. *)
Lemma changedAgainst_same_hashes m1 m2 :
  JsonRoundTrip ->
  hash m1 = hash m2 -> normalizedHash m1 = normalizedHash m2 ->
  changedAgainst (Some (JSON_stringify (metadataJson m1))) m2 = false.
Proof.
  intros [Hparse Htext] Hhash Hnorm. unfold changedAgainst.
  assert (JS.truthy (JSON_stringify (metadataJson m1)) = true) as ->.
  { unfold JS.truthy.
    destruct (String.eqb_spec (JSON_stringify (metadataJson m1)) EmptyString) as [He|];
      [by apply Htext in He | done]. }
  rewrite Hparse, <- Hhash, <- Hnorm.
  unfold metadataJson, Js.object.
  destruct (normalizedHash m1) as [h|], (etag m1), (redirectCount m1); simpl.
  all: unfold Js.orElse, JS.orElse; simpl; unfold JS.truthy.
  all: try (destruct (String.eqb_spec h EmptyString); simpl).
  all: by rewrite String.eqb_refl.
Qed.

(** Nothing is reported for results whose hashes are those of the
    stored latest records. *)
Lemma detectChanges_unchanged results w :
  JsonRoundTrip ->
  (forall r m, In r results -> metadata r = Some m ->
     exists previous,
       kv w !! latestKey siteId (getUrlHash (url r))
       = Some (JSON_stringify (metadataJson previous)) /\
       hash previous = hash m /\ normalizedHash previous = normalizedHash m) ->
  detectChanges siteId results w = Done [] w.
Proof.
  intros Hcodec Hlatest. rewrite ChangeDetector.detectChanges_filter.
  match goal with |- Done (url <$> ?l) _ = _ => assert (l = []) as -> end; [|done].
  induction results as [|r rest IH]; [done|]. cbn [List.filter].
  rewrite IH by (intros r' m' Hr'; apply Hlatest; by right).
  destruct (metadata r) as [m|] eqn:Hm; [|done].
  destruct (Hlatest r m ltac:(by left) Hm) as (previous & -> & Hhash & Hnorm).
  by rewrite changedAgainst_same_hashes.
Qed.

Lemma storeBackups_then_unchanged results w :
  JsonRoundTrip -> allStorable results ->
  exists w',
    storeBackups now siteId results w = Done () w' /\ fetched w' = fetched w /\
    forall r m, In r results -> metadata r = Some m ->
      kv w' !! latestKey siteId (getUrlHash (url r))
      = Some (JSON_stringify (metadataJson m)).
Proof.
  intros Hcodec [Hnodup Hall].
  destruct (storeBackups_frame results w) as (w' & Hrun & Hlog & _).
  exists w'. split; [done|]. split; [done|]. intros r m Hr Hm.
  destruct (Hall r m Hr Hm) as [text Hstorable].
  destruct (storeBackups_written results w r m text Hnodup Hr Hstorable)
    as (w'' & Hrun' & _ & _ & Hlatest & _).
  rewrite Hrun in Hrun'. by injection Hrun' as <-.
Qed.

(** X5. For a result with metadata and a non-empty content, whose URL
    hash no other result of the batch shares, [storeBackups] leaves the
    content under today's backup key, the metadata under today's
    metadata key and under the latest key, and the latest record it
    found (if there was a non-empty one) under the previous-latest key;
    it makes no request. *)
Theorem storeBackups_records_each_page (results : list BackupResult) (w : World)
    (r : BackupResult) (m : BackupMetadata) (text : string) :
  NoDup (hashes results) -> In r results ->
  metadata r = Some m -> content r = Some text -> text <> EmptyString ->
  exists w',
    storeBackups now siteId results w = Done () w' /\
    fetched w' = fetched w /\
    let urlHash := getUrlHash (url r) in
    kv w' !! contentKey siteId (today now) urlHash = Some text /\
    kv w' !! metadataKey siteId (today now) urlHash
    = Some (JSON_stringify (metadataJson m)) /\
    kv w' !! latestKey siteId urlHash = Some (JSON_stringify (metadataJson m)) /\
    kv w' !! prevLatestKey siteId urlHash
    = match kv w !! latestKey siteId urlHash with
      | Some previous =>
          if JS.truthy previous then Some previous
          else kv w !! prevLatestKey siteId urlHash
      | None => kv w !! prevLatestKey siteId urlHash
      end.
Proof.
  intros Hnodup Hin Hm Hc Htext.
  assert (Hstorable : storable r = Some (m, text)).
  { unfold storable. rewrite Hm, Hc. unfold JS.truthy.
    by destruct (String.eqb_spec text EmptyString). }
  destruct (storeBackups_written results w r m text Hnodup Hin Hstorable)
    as (w' & Hrun & Hkeys).
  destruct (storeBackups_frame results w) as (w'' & Hrun' & Hlog & _).
  rewrite Hrun in Hrun'. injection Hrun' as <-.
  exists w'. split; [done|]. split; [done|]. exact Hkeys.
Qed.

(** X6. Results without metadata, without content or with an empty
    content are never written: a batch of such results leaves the store
    and the request log as they were. In particular a page that answers
    with an empty body gets no backup and no latest record. *)
Theorem storeBackups_skips_empty_results (results : list BackupResult) (w : World) :
  (forall r, In r results ->
     metadata r = None \/ content r = None \/ content r = Some EmptyString) ->
  storeBackups now siteId results w = Done () w.
Proof.
  induction results as [|r rest IH]; intros Hall; [done|].
  rewrite storeBackups_cons.
  assert (storable r = None) as ->.
  { unfold storable.
    destruct (Hall r ltac:(by left)) as [->|[->| ->]]; [done|by destruct (metadata r)|].
    by destruct (metadata r). }
  apply IH. intros r' Hr'. apply Hall. by right.
Qed.

(** X7. Store, then detect: after [storeBackups] has written a batch of
    results (each with a URL hash of its own and a non-empty content),
    [detectChanges] reports none of them as changed, whatever the time of
    the later fetch: change detection compares hashes, not timestamps. *)
Theorem stored_results_are_unchanged (results : list BackupResult) (w : World) :
  JsonRoundTrip -> allStorable results ->
  exists w',
    storeBackups now siteId results w = Done () w' /\
    forall later, detectChanges siteId (retimed later <$> results) w' = Done [] w'.
Proof.
  intros Hcodec Hall.
  destruct (storeBackups_then_unchanged results w Hcodec Hall)
    as (w' & Hrun & _ & Hlatest).
  exists w'. split; [done|]. intros later.
  apply detectChanges_unchanged; [done|].
  intros r m (r0 & <- & Hr0)%in_map_iff Hm. cbn in Hm |- *.
  destruct (metadata r0) as [m0|] eqn:Hm0; [|done].
  exists m0. split; [by apply Hlatest|]. by injection Hm as <-.
Qed.

End Store.
End StoreFacts.


(** ** The retention cleanup *)

Module RetentionFacts.
Import BackupFetcher Steps Retention.

Lemma splitAcc_token sep b : forall a acc,
  free sep a = true ->
  Str.splitAcc sep acc (a +:+ String sep b)
  = String.rev_app acc a :: Str.splitAcc sep EmptyString b.
Proof.
  induction a as [|c a IH]; intros acc Hfree; simpl.
  - by rewrite Ascii.eqb_refl.
  - simpl in Hfree. apply andb_prop in Hfree as [Hc Hfree].
    apply negb_true_iff in Hc. rewrite Hc. by rewrite IH.
Qed.

Lemma split_token sep a b :
  free sep a = true -> Str.split sep (a +:+ String sep b) = a :: Str.split sep b.
Proof. intros Hfree. unfold Str.split. by rewrite splitAcc_token. Qed.

Lemma split_nonempty sep s : exists part parts, Str.split sep s = part :: parts.
Proof.
  unfold Str.split. generalize EmptyString at 1. induction s as [|c s IH]; intros acc; simpl.
  - by do 2 eexists.
  - destruct (Ascii.eqb c sep); [by do 2 eexists | apply IH].
Qed.

(** The parts of a backup key whose site and date hold no colon. *)
Lemma split_contentKey siteId date urlHash :
  free ":" siteId = true -> free ":" date = true ->
  exists part parts,
    Str.split ":" (contentKey siteId date urlHash)
    = "backup" :: siteId :: date :: part :: parts.
Proof.
  intros Hsite Hdate. unfold contentKey.
  destruct (split_nonempty ":" urlHash) as (part & parts & Hparts).
  exists part, parts.
  change ("backup:" +:+ siteId +:+ ":" +:+ date +:+ ":" +:+ urlHash)
    with ("backup" +:+ String ":" (siteId +:+ String ":" (date +:+ String ":" urlHash))).
  by rewrite !split_token, Hparts.
Qed.

Lemma replaceFirst_backup rest :
  Str.replaceFirst "backup:" "meta:" ("backup:" +:+ rest) = "meta:" +:+ rest.
Proof.
  unfold Str.replaceFirst. simpl. change (EmptyString +:+ rest) with rest.
  assert (String.prefix EmptyString rest = true) as -> by (by destruct rest).
  f_equal. rewrite Nat.sub_0_r.
  induction rest as [|c rest IH]; simpl; [done|]. by rewrite IH.
Qed.

Lemma deleteAll_run keys : forall (acc : M ()) w w0,
  acc w = Done () w0 ->
  exists w',
    foldl (fun (acc : M ()) key => acc;; KV.delete key) acc keys w = Done () w' /\
    fetched w' = fetched w0 /\
    forall k, kv w' !! k = if decide (k ∈ keys) then None else kv w0 !! k.
Proof.
  induction keys as [|key rest IH]; intros acc w w0 Hacc; cbn [foldl].
  - exists w0. split; [done|]. split; [done|]. intros k.
    destruct (decide (k ∈ [])) as [Hin|]; [by apply elem_of_nil in Hin | done].
  - destruct (IH (acc;; KV.delete key) w
                {| kv := base.delete key (kv w0); fetched := fetched w0 |})
      as (w' & Hrun & Hlog & Hkv).
    { by rewrite (bind_run _ _ _ _ _ Hacc). }
    exists w'. split; [done|]. split; [done|]. intros k. rewrite Hkv. simpl.
    destruct (decide (k ∈ rest)) as [Hin|Hout].
    + rewrite decide_True by (by right). done.
    + destruct (decide (k = key)) as [->|Hne].
      * rewrite decide_True by (by left). apply lookup_delete_eq.
      * rewrite decide_False by (by intros [?|?]%elem_of_cons).
        by apply lookup_delete_ne.
Qed.

Lemma string_app_assoc (a b c : string) : (a +:+ b) +:+ c = a +:+ (b +:+ c).
Proof.
  induction a as [|x a IH]; [done|].
  change (String x ((a +:+ b) +:+ c) = String x (a +:+ (b +:+ c))). by f_equal.
Qed.

(** The parts of a backup key of a site whose identifier holds one
    colon. *)
Lemma split_contentKey_colon front back date urlHash :
  free ":" front = true -> free ":" back = true ->
  exists part parts,
    Str.split ":" (contentKey (front +:+ ":" +:+ back) date urlHash)
    = "backup" :: front :: back :: part :: parts.
Proof.
  intros Hfront Hback. unfold contentKey.
  destruct (split_nonempty ":" (date +:+ ":" +:+ urlHash)) as (part & parts & Hparts).
  exists part, parts.
  replace ("backup:" +:+ (front +:+ ":" +:+ back) +:+ ":" +:+ date +:+ ":" +:+ urlHash)
    with ("backup" +:+ String ":" (front +:+ String ":"
            (back +:+ String ":" (date +:+ ":" +:+ urlHash)))).
  - by rewrite !split_token, Hparts.
  - rewrite (string_app_assoc front). reflexivity.
Qed.

Section Cleanup.
Context `{Platform}.
Variable now : string.

(** The cleanup returns, makes no request, and deletes exactly the keys
    of the expired backups it lists. *)
Lemma cleanupOldBackups_run siteId retentionDays w :
  exists w',
    cleanupOldBackups now siteId retentionDays w = Done () w' /\
    fetched w' = fetched w /\
    forall k, kv w' !! k
              = if decide (k ∈ doomed now siteId retentionDays w) then None
                else kv w !! k.
Proof.
  unfold cleanupOldBackups, doomed, cutoffString.
  erewrite bind_run by reflexivity. cbn [KV.list].
  eapply deleteAll_run. reflexivity.
Qed.

(** Every deleted key belongs to a listed backup whose date part lies
    before the cutoff: it is that backup's key or its metadata key. *)
Lemma doomed_expired siteId retentionDays w k :
  k ∈ doomed now siteId retentionDays w ->
  exists rest date,
    Str.split ":" ("backup:" +:+ rest) !! 2%nat = Some date /\
    String.ltb date (cutoffString now retentionDays) = true /\
    (k = "backup:" +:+ rest \/ k = "meta:" +:+ rest).
Proof.
  unfold doomed. intros Hk%list_elem_of_In. apply in_concat in Hk as (names & Hnames & Hk).
  apply in_map_iff in Hnames as (name & <- & Hname).
  pose proof (Machine.list_prefix _ _ _ _ _ _ eq_refl Hname) as Hprefix.
  simpl in Hprefix.
  repeat (apply Machine.prefix_cons in Hprefix as (? & -> & Hprefix)).
  match type of Hk with In _ (expiredKeys _ (String _ (String _ (String _ (String _
     (String _ (String _ (String _ ?x)))))))) => exists x end.
  unfold expiredKeys in Hk.
  change (String "b" (String "a" (String "c" (String "k" (String "u" (String "p"
            (String ":" ?x))))))) with ("backup:" +:+ x) in *.
  destruct (Str.split ":" _) as [|? [|? [|date [|? ?]]]]; try done.
  exists date. split; [done|].
  destruct (String.ltb date _); [|done]. split; [done|].
  destruct Hk as [<-|[<-|[]]]; [by left|right]. apply replaceFirst_backup.
Qed.


Lemma list_listed prefix limit w keys w' key :
  KV.list prefix limit w = Done keys w' -> In key keys -> is_Some (kv w !! key).
Proof.
  intros [= <- _] Hin.
  assert (In key (JS.sort Str.compareZ
                    (List.filter (String.prefix prefix) (fst <$> map_to_list (kv w)))))
    as Hsorted.
  { rewrite <- (take_drop limit (JS.sort _ _)). apply in_or_app. by left. }
  eapply Permutation_in in Hsorted; [|apply JSFacts.sort_perm].
  apply filter_In in Hsorted as [Hkey _].
  apply list_elem_of_In, list_elem_of_fmap in Hkey as ([k v] & -> & Hkv).
  apply elem_of_map_to_list in Hkv. by exists v.
Qed.

(** The keys deleted for one listed backup. *)
Lemma doomed_listed siteId retentionDays w k :
  k ∈ doomed now siteId retentionDays w ->
  exists rest date,
    String.prefix ("backup:" +:+ siteId +:+ ":") ("backup:" +:+ rest) = true /\
    is_Some (kv w !! ("backup:" +:+ rest)) /\
    Str.split ":" ("backup:" +:+ rest) !! 2%nat = Some date /\
    String.ltb date (cutoffString now retentionDays) = true /\
    (k = "backup:" +:+ rest \/ k = "meta:" +:+ rest).
Proof.
  unfold doomed. intros Hk%list_elem_of_In. apply in_concat in Hk as (names & Hnames & Hk).
  apply in_map_iff in Hnames as (name & <- & Hname).
  pose proof (Machine.list_prefix _ _ _ _ _ _ eq_refl Hname) as Hprefix.
  pose proof (list_listed _ _ _ _ _ _ eq_refl Hname) as Hlisted.
  pose proof Hprefix as Hsite.
  simpl in Hprefix.
  repeat (apply Machine.prefix_cons in Hprefix as (? & -> & Hprefix)).
  match type of Hk with In _ (expiredKeys _ (String _ (String _ (String _ (String _
     (String _ (String _ (String _ ?x)))))))) => exists x end.
  unfold expiredKeys in Hk.
  change (String "b" (String "a" (String "c" (String "k" (String "u" (String "p"
            (String ":" ?x))))))) with ("backup:" +:+ x) in *.
  destruct (Str.split ":" _) as [|? [|? [|date [|? ?]]]]; try done.
  exists date. split; [done|]. split; [done|]. split; [done|].
  destruct (String.ltb date _); [|done]. split; [done|].
  destruct Hk as [<-|[<-|[]]]; [by left|right]. apply replaceFirst_backup.
Qed.

(** X8. The retention cleanup always returns and makes no request. Every
    key it changes it deletes, and each deleted key is the key of a
    stored backup listed under the site's prefix whose third
    colon-separated part sorts before the cutoff date, or the metadata
    key of that backup. *)
Theorem cleanupOldBackups_deletes_only_expired (siteId : string)
    (retentionDays : Z) (w : World) :
  exists w',
    cleanupOldBackups now siteId retentionDays w = Done () w' /\
    fetched w' = fetched w /\
    forall k,
      kv w' !! k = kv w !! k \/
      kv w' !! k = None /\
      exists rest date,
        String.prefix ("backup:" +:+ siteId +:+ ":") ("backup:" +:+ rest) = true /\
        is_Some (kv w !! ("backup:" +:+ rest)) /\
        Str.split ":" ("backup:" +:+ rest) !! 2%nat = Some date /\
        String.ltb date (Str.isoDate (minusDays now retentionDays)) = true /\
        (k = "backup:" +:+ rest \/ k = "meta:" +:+ rest).
Proof.
  destruct (cleanupOldBackups_run siteId retentionDays w) as (w' & Hrun & Hlog & Hkv).
  exists w'. split; [done|]. split; [done|]. intros k. rewrite Hkv.
  destruct (decide _) as [Hin|]; [right | by left]. split; [done|].
  by apply doomed_listed.
Qed.

Lemma recent_not_doomed siteId retentionDays w site date urlHash :
  free ":" site = true -> free ":" date = true ->
  String.ltb date (cutoffString now retentionDays) = false ->
  ~ contentKey site date urlHash ∈ doomed now siteId retentionDays w /\
  ~ metadataKey site date urlHash ∈ doomed now siteId retentionDays w.
Proof.
  intros Hsite Hdate Hrecent.
  destruct (split_contentKey site date urlHash Hsite Hdate) as (part & parts & Hsplit).
  split; intros (rest & date0 & Hparts & Hold & [Hk|Hk])%doomed_expired.
  - assert (Str.split ":" (contentKey site date urlHash) !! 2%nat = Some date0) as Hp
      by (rewrite Hk; exact Hparts).
    rewrite Hsplit in Hp. injection Hp as <-. congruence.
  - discriminate Hk.
  - discriminate Hk.
  - assert ("backup:" +:+ rest = contentKey site date urlHash) as Hrest.
    { unfold metadataKey in Hk. simpl in Hk. injection Hk as Hk.
      change (site +:+ ":" +:+ date +:+ ":" +:+ urlHash = rest) in Hk.
      by rewrite <- Hk. }
    assert (Str.split ":" (contentKey site date urlHash) !! 2%nat = Some date0) as Hp
      by (rewrite <- Hrest; exact Hparts).
    rewrite Hsplit in Hp. injection Hp as <-. congruence.
Qed.

(** X9. The retention cleanup keeps every backup and metadata record
    dated on or after the cutoff (for site identifiers and dates without
    a colon), and every record that is neither a backup nor a metadata
    record: latest and previous-latest records, progress, sitemap state
    and full-scan records. *)
Theorem cleanupOldBackups_keeps_recent (siteId : string) (retentionDays : Z)
    (w w' : World) :
  cleanupOldBackups now siteId retentionDays w = Done () w' ->
  (forall site date urlHash,
     free ":" site = true -> free ":" date = true ->
     String.ltb date (Str.isoDate (minusDays now retentionDays)) = false ->
     kv w' !! contentKey site date urlHash = kv w !! contentKey site date urlHash /\
     kv w' !! metadataKey site date urlHash = kv w !! metadataKey site date urlHash) /\
  (forall k,
     String.prefix "backup:" k = false -> String.prefix "meta:" k = false ->
     kv w' !! k = kv w !! k).
Proof.
  intros Hrun.
  destruct (cleanupOldBackups_run siteId retentionDays w) as (w'' & Hrun' & _ & Hkv).
  rewrite Hrun in Hrun'. injection Hrun' as <-. split.
  - intros site date urlHash Hsite Hdate Hrecent.
    destruct (recent_not_doomed siteId retentionDays w site date urlHash
                Hsite Hdate Hrecent) as [Hc Hm].
    rewrite !Hkv. by rewrite !decide_False.
  - intros k Hb Hm. rewrite Hkv. destruct (decide _) as [Hin|]; [|done].
    apply doomed_expired in Hin as (rest & date & _ & _ & [->| ->]).
    + simpl in Hb. by destruct rest.
    + simpl in Hm. by destruct rest.
Qed.

(** X10. A backup of the site that is among the first 1000 keys listed
    under the site's prefix and is dated before the cutoff is deleted
    together with its metadata record (site identifier and date without
    a colon). *)
Theorem cleanupOldBackups_deletes_expired (siteId : string) (retentionDays : Z)
    (w : World) (keys : list string) (w0 : World) (date urlHash : string) :
  free ":" siteId = true -> free ":" date = true ->
  KV.list ("backup:" +:+ siteId +:+ ":") 1000 w = Done keys w0 ->
  In (contentKey siteId date urlHash) keys ->
  String.ltb date (Str.isoDate (minusDays now retentionDays)) = true ->
  exists w',
    cleanupOldBackups now siteId retentionDays w = Done () w' /\
    kv w' !! contentKey siteId date urlHash = None /\
    kv w' !! metadataKey siteId date urlHash = None.
Proof.
  intros Hsite Hdate Hlist Hin Hold.
  destruct (cleanupOldBackups_run siteId retentionDays w) as (w' & Hrun & _ & Hkv).
  exists w'. split; [done|].
  destruct (split_contentKey siteId date urlHash Hsite Hdate) as (part & parts & Hsplit).
  assert (Hdoomed : forall k,
             In k [contentKey siteId date urlHash; metadataKey siteId date urlHash] ->
             k ∈ doomed now siteId retentionDays w).
  { intros k Hk. unfold doomed. rewrite Hlist. apply list_elem_of_In, in_concat.
    exists (expiredKeys (cutoffString now retentionDays) (contentKey siteId date urlHash)).
    split; [by apply in_map|].
    unfold expiredKeys. rewrite Hsplit. unfold cutoffString. rewrite Hold.
    unfold contentKey at 2. rewrite replaceFirst_backup. exact Hk. }
  rewrite !Hkv. rewrite !decide_True; [done|..]; apply Hdoomed; simpl; auto.
Qed.

(** X11. The cleanup reads the date from the third colon-separated part
    of a key. For a site whose identifier has the form [front:back] that
    part is [back], not the date: a listed backup of such a site is
    deleted exactly when [back] sorts before the cutoff date, whatever
    the date of the backup (today's included), and is kept for ever
    otherwise. *)
Theorem cleanupOldBackups_reads_third_part (front back : string) (retentionDays : Z)
    (w : World) (keys : list string) (w0 : World) (date urlHash : string) :
  let siteId := front +:+ ":" +:+ back in
  free ":" front = true -> free ":" back = true ->
  KV.list ("backup:" +:+ siteId +:+ ":") 1000 w = Done keys w0 ->
  In (contentKey siteId date urlHash) keys ->
  exists w',
    cleanupOldBackups now siteId retentionDays w = Done () w' /\
    kv w' !! contentKey siteId date urlHash
    = if String.ltb back (Str.isoDate (minusDays now retentionDays)) then None
      else kv w !! contentKey siteId date urlHash.
Proof.
  intros siteId Hfront Hback Hlist Hin.
  destruct (cleanupOldBackups_run siteId retentionDays w) as (w' & Hrun & _ & Hkv).
  exists w'. split; [done|]. rewrite Hkv.
  destruct (split_contentKey_colon front back date urlHash Hfront Hback)
    as (part & parts & Hsplit). fold siteId in Hsplit.
  destruct (String.ltb back _) eqn:Hold.
  - rewrite decide_True; [done|].
    unfold doomed. rewrite Hlist. apply list_elem_of_In, in_concat.
    exists (expiredKeys (cutoffString now retentionDays) (contentKey siteId date urlHash)).
    split; [by apply in_map|].
    unfold expiredKeys. rewrite Hsplit. unfold cutoffString. rewrite Hold. by left.
  - rewrite decide_False; [done|].
    intros (rest & date0 & Hparts & Hexpired & [Hk|Hk])%doomed_expired.
    + assert (Str.split ":" (contentKey siteId date urlHash) !! 2%nat = Some date0) as Hp
        by (rewrite Hk; exact Hparts).
      rewrite Hsplit in Hp. injection Hp as <-. unfold cutoffString in Hexpired. congruence.
    + discriminate Hk.
Qed.

End Cleanup.
End RetentionFacts.

(** ** Resolving the URLs of a site *)

Module ResolutionFacts.
Import BackupFetcher Steps Traffic.

Section Writes.
Context `{Platform}.
Variable net : Network.
Variable now : string.
Variable siteId : string.
(** A key other than the sitemap state record of the site. *)
Variable k : string.
Hypothesis other : k <> sitemapStateKey siteId.

Lemma recordSitemapState_keeps_other response xmlText :
  keeps k (recordSitemapState now siteId response xmlText).
Proof. unfold recordSitemapState. by apply keeps_put. Qed.

Hint Resolve recordSitemapState_keeps_other : steps.

Lemma parseSitemap_keeps_other fuel sitemapUrl :
  keeps k (parseSitemap net now fuel siteId sitemapUrl).
Proof.
  revert sitemapUrl. induction fuel as [|fuel IH]; intros sitemapUrl;
    cbn [parseSitemap]; repeat step.
  match goal with |- keeps _ (foldl ?f _ ?l) =>
    assert (forall acc : M (list string),
               keeps k acc -> keeps k (foldl f acc l)) as Hfold
  end.
  { match goal with |- forall acc, _ -> keeps _ (foldl _ _ ?l) =>
      induction l as [|loc rest IHs] end;
      intros acc Hacc; cbn [foldl]; [done|].
    apply IHs. repeat step. }
  apply Hfold. step.
Qed.

End Writes.

Section Resolve.
Context `{Platform}.
Variable net : Network.
Variable now : string.

(** Resolving the URLs of a site writes nothing but the sitemap state
    record of the site. *)
Lemma getUrlsToBackup_keeps_other fuel siteConfig k :
  k <> sitemapStateKey (id siteConfig) ->
  keeps k (getUrlsToBackup net now fuel siteConfig).
Proof.
  intros Hk. unfold getUrlsToBackup. repeat step.
  all: try (destruct (JS.truthy _); repeat step); by apply parseSitemap_keeps_other.
Qed.

(** X13. Resolving the URLs of a site writes nothing but the sitemap
    state record of that site: every other key holds afterwards what it
    held before, and a site configured with a list of URLs is resolved
    without a request and without a write. *)
Theorem getUrlsToBackup_writes_sitemap_state_only (fuel : nat)
    (siteConfig : SiteConfig) (w : World) (allUrls : list string) (w' : World) :
  getUrlsToBackup net now fuel siteConfig w = Done allUrls w' ->
  (forall k, k <> sitemapStateKey (id siteConfig) -> kv w' !! k = kv w !! k) /\
  (forall u us, urls siteConfig = Some (u :: us) -> w' = w).
Proof.
  intros Hrun. split.
  - intros k Hk. by eapply getUrlsToBackup_keeps_other.
  - intros u us Hurls. unfold getUrlsToBackup in Hrun. rewrite Hurls in Hrun.
    apply bind_done in Hrun as (found & w1 & [= _ <-] & Hrun).
    destruct (default defaultExcludePatterns (excludePatterns siteConfig));
      by injection Hrun as _ <-.
Qed.

End Resolve.
End ResolutionFacts.


(** ** One batch, step by step *)

Module BatchFacts.
Import BackupFetcher Steps Traffic Storage Accounting FetchFacts StoreFacts
  Retention RetentionFacts ResolutionFacts.

Section Trace.
Context `{Platform}.
Variable net : Network.

Lemma cleanupOldBackups_keeps_latest now siteId retentionDays w w' s h :
  cleanupOldBackups now siteId retentionDays w = Done () w' ->
  kv w' !! latestKey s h = kv w !! latestKey s h.
Proof.
  intros Hrun.
  destruct (cleanupOldBackups_run now siteId retentionDays w) as (w'' & Hrun' & _ & Hkv).
  rewrite Hrun in Hrun'. injection Hrun' as <-. rewrite Hkv.
  destruct (decide _) as [Hin|]; [|done].
  apply doomed_expired in Hin as (rest & date & _ & _ & [Hk|Hk]);
    unfold latestKey in Hk; simpl in Hk; discriminate.
Qed.

(** A non-empty batch, step by step: what is fetched depends on the
    servers only; the detector runs against the store as the resolution
    left it, the successful results are stored, and the latest records
    afterwards are those the store step wrote. *)
Lemma runBatch_trace siteConfig allUrls batchOffset batchSize :
  let batch := JS.slice allUrls batchOffset (batchOffset + batchSize) in
  let ignored := changeThreshold siteConfig ≫= ignorePatterns in
  batch <> [] -> 1 <= concurrency (fetchOptions siteConfig) ->
  exists rs extra,
    Forall2 (fetchedFrom ignored) batch rs /\
    (length extra
     <= 6 * Z.to_nat (retries (fetchOptions siteConfig) + 1) * length batch)%nat /\
    forall now fuel w w1,
      getUrlsToBackup net now fuel siteConfig w = Done allUrls w1 ->
      exists r w2 w',
        storeBackups now (id siteConfig) (List.filter success (retimed now <$> rs))
          (logged w1 extra) = Done () w2 /\
        runBatch net now fuel siteConfig batchOffset batchSize w = Done r w' /\
        results r = retimed now <$> rs /\
        changedUrls r
        = reported (id siteConfig) (kv w1) (List.filter success (results r)) /\
        totalUrls r = count allUrls /\
        processedInBatch r = count batch /\
        successfulBackups r = count (List.filter success (results r)) /\
        failedBackups r = count (List.filter (fun r => negb (success r)) (results r)) /\
        length (errors r) = length (List.filter (fun r => negb (success r)) (results r)) /\
        hasMore r = (batchOffset + count batch <? count allUrls) /\
        nextOffset r = (if hasMore r then Some (batchOffset + count batch) else None) /\
        fetched w' = fetched w1 ++ extra /\
        forall h, kv w' !! latestKey (id siteConfig) h
                  = kv w2 !! latestKey (id siteConfig) h.
Proof.
  intros batch ignored Hbatch Hconcurrency.
  destruct (fetchUrlsWithConcurrency_run net batch (fetchOptions siteConfig) ignored
              Hconcurrency) as (rs & extra & Hfetch & Hlen & Hall).
  exists rs, extra. split; [done|]. split; [done|].
  intros now fuel w w1 Hurls.
  destruct (storeBackups_frame now (id siteConfig)
              (List.filter success (retimed now <$> rs)) (logged w1 extra))
    as (w2 & Hstore & Hlog2 & _).
  assert (exists w3,
             (if batchOffset =? 0
              then cleanupOldBackups now (id siteConfig) (retentionDays siteConfig)
              else mret ()) w2 = Done () w3 /\
             fetched w3 = fetched w2 /\
             forall h, kv w3 !! latestKey (id siteConfig) h
                       = kv w2 !! latestKey (id siteConfig) h)
    as (w3 & Hcleanup & Hlog3 & Hkv3).
  { destruct (batchOffset =? 0); [|by exists w2].
    destruct (cleanupOldBackups_run now (id siteConfig) (retentionDays siteConfig) w2)
      as (w3 & Hrun & Hlog & _).
    exists w3. split; [done|]. split; [done|]. intros h.
    by eapply cleanupOldBackups_keeps_latest. }
  unfold runBatch. rewrite (bind_run _ _ _ _ _ Hurls). fold batch.
  destruct batch as [|u rest] eqn:Hslice; [done|].
  fold ignored. rewrite (bind_run _ _ _ _ _ (Hfetch now w1)).
  rewrite (bind_run _ _ _ _ _ (ChangeDetector.detectChanges_filter _ _ _)).
  rewrite (bind_run _ _ _ _ _ Hstore).
  rewrite (bind_run _ _ _ _ _ Hcleanup).
  destruct (batchOffset + count (u :: rest) <? count allUrls) eqn:Hmore.
  - eexists _, w2, _. split; [done|]. split; [reflexivity|].
    cbn. repeat split; try done.
    + by rewrite length_fmap.
    + by rewrite Hlog3, Hlog2.
    + intros h. rewrite lookup_insert_ne by distinct_keys. apply Hkv3.
  - eexists _, w2, _. split; [done|]. split; [reflexivity|].
    cbn. repeat split; try done.
    + by rewrite length_fmap.
    + by rewrite Hlog3, Hlog2.
    + intros h. rewrite lookup_insert_ne by distinct_keys.
      rewrite lookup_delete_ne by distinct_keys. apply Hkv3.
Qed.

(** Whenever the fetch loop returns, it returns one result for each
    URL, in order, and has written nothing. *)
Lemma fetchUrlsWithConcurrency_done urls options ignorePatterns now w rs w' :
  fetchUrlsWithConcurrency net now urls options ignorePatterns w = Done rs w' ->
  Forall2 (fetchedFrom ignorePatterns) urls rs /\ kv w' = kv w.
Proof.
  intros Hrun. destruct (Z_le_gt_dec 1 (concurrency options)) as [Hc|Hc].
  - destruct (fetchUrlsWithConcurrency_run net urls options ignorePatterns Hc)
      as (rs0 & extra & Hfetch & _ & Hall).
    rewrite Hfetch in Hrun. injection Hrun as <- <-. split; [|done].
    apply Forall2_fmap_r. eapply Forall2_impl; [exact Hall|].
    intros u r. apply fetchedFrom_retimed.
  - destruct urls as [|u urls].
    + injection Hrun as <- <-. split; [constructor | done].
    + unfold fetchUrlsWithConcurrency in Hrun.
      destruct (fetchChunks_stuck net now (u :: urls) (Z.min (concurrency options) 5)
                  options ignorePatterns ltac:(lia) ltac:(done)
                  (length (u :: urls)) 0 [] w ltac:(lia)) as [w'' Hstuck].
      congruence.
Qed.

Lemma filter_split {A : Type} (p : A -> bool) (l : list A) :
  count (List.filter p l) + count (List.filter (fun x => negb (p x)) l) = count l.
Proof.
  unfold count. induction l as [|x l IH]; simpl; [done|].
  destruct (p x); simpl; lia.
Qed.

(** A count divided by itself is the double 1. *)
Lemma double_same n : 0 < n -> JS.double n n = (2 ^ 52, 2 ^ 52).
Proof.
  intros Hn. unfold JS.double.
  destruct (Z.eqb_spec n 0) as [|_]; [lia|].
  rewrite (Z.abs_eq n) by lia. rewrite Z.sub_diag.
  change (0 - 53) with (-53). change (0 <=? -53) with false. cbv iota.
  change (- -53) with 53.
  assert ((2 ^ 53 * n <=? n * 2 ^ 53) = true) as -> by (apply Z.leb_le; lia).
  change (-53 + 1) with (-52). change (0 <=? -52) with false. cbv iota.
  change (- -52) with 52.
  rewrite Z.sgn_pos by lia. f_equal. unfold JS.roundHalfEven.
  rewrite (Z.mul_comm n (2 ^ 52)).
  rewrite (Z.div_mul (2 ^ 52) n), (Z.mod_mul (2 ^ 52) n) by lia. cbv zeta.
  assert ((2 * 0 <? n) = true) as -> by (apply Z.ltb_lt; lia). lia.
Qed.

Lemma percent_all n : 0 < n -> percent n n = 100.
Proof. intros Hn. unfold percent. rewrite (double_same n Hn). reflexivity. Qed.

(** What [slice(offset, offset + size)] returns is no longer than a
    non-negative [size]. *)
Lemma slice_within_size {A : Type} (l : list A) (offset size : Z) :
  0 <= size -> count (JS.slice l offset (offset + size)) <= size.
Proof.
  intros Hsize. unfold count, JS.slice, JS.relIndex.
  rewrite length_take, length_drop.
  destruct (Z.ltb_spec offset 0), (Z.ltb_spec (offset + size) 0); lia.
Qed.

Lemma Forall2_urls ignorePatterns urls rs :
  Forall2 (fetchedFrom ignorePatterns) urls rs -> url <$> rs = urls.
Proof.
  induction 1 as [|u r urls rs Hr _ IH]; [done|].
  destruct Hr as [Hurl _]. rewrite fmap_cons. congruence.
Qed.

Lemma runBatch_accounted now fuel siteConfig batchOffset batchSize w r w' :
  batchSize <= MAX_BATCH_SIZE ->
  runBatch net now fuel siteConfig batchOffset batchSize w = Done r w' ->
  exists allUrls w1,
    getUrlsToBackup net now fuel siteConfig w = Done allUrls w1 /\
    accounted allUrls r.
Proof.
  intros Hsize. unfold runBatch. intros (allUrls & w1 & Hurls & Hrun)%bind_done.
  exists allUrls, w1. split; [exact Hurls|]. clear Hurls. revert Hrun. cbv zeta.
  destruct (JS.slice allUrls batchOffset (batchOffset + batchSize))
    as [|u batch] eqn:Hbatch.
  - intros (? & ? & _ & [= <- _])%bind_done. unfold accounted. cbn.
    rewrite Hbatch. repeat split; try done. by intros ? [].
  - intros (rs & w2 & Hfetch & Hrun)%bind_done.
    apply bind_done in Hrun as (changed & w3 & Hdetect & Hrun).
    apply bind_done in Hrun as (? & ? & _ & Hrun).
    apply bind_done in Hrun as (? & ? & _ & Hrun).
    apply bind_done in Hrun as (? & ? & _ & [= <- _]).
    apply fetchUrlsWithConcurrency_done in Hfetch as [Hall _].
    pose proof (Forall2_urls _ _ _ Hall) as Hurls.
    pose proof (Forall2_length _ _ _ Hall) as Hlen.
    rewrite ChangeDetector.detectChanges_filter in Hdetect.
    injection Hdetect as <- _.
    pose proof (filter_split success rs) as Hsplit.
    pose proof (slice_within_size allUrls batchOffset batchSize) as Hwithin.
    rewrite Hbatch in Hwithin.
    assert (Hpos : (0 < length rs)%nat) by (rewrite <- Hlen; simpl; lia).
    unfold accounted. cbn. unfold count in *. rewrite Hlen in *.
    repeat split; try done; try lia.
    all: try (by rewrite ?Hbatch, ?length_fmap).
    + apply Forall_fmap, Forall_forall. intros r0 _. apply orElse_message.
    + intros changedUrl Hx. apply in_map_iff in Hx as (r0 & <- & Hr0).
      apply filter_In in Hr0 as [Hr0 _]. by apply in_map.
    + intros Hmore. apply Z.ltb_ge in Hmore.
      pose proof (JSFacts.slice_count allUrls batchOffset (batchOffset + batchSize))
        as (Hcount & _ & _).
      rewrite Hbatch in Hcount. rewrite Hlen in Hcount.
      rewrite Z.min_r by lia. apply percent_all. lia.
Qed.

End Trace.
End BatchFacts.

(** ** Runs of the worker *)

Module RunFacts.
Import BackupFetcher Steps Traffic Storage Accounting FetchFacts StoreFacts
  Retention RetentionFacts ResolutionFacts BatchFacts.

Section Runs.
Context `{Platform}.
Variable net : Network.

(** Without [continueFromLast] an invocation is the batch at the
    requested offset. *)
Lemma performSiteBackup_plain now fuel siteConfig batchOptions w :
  default false (batchOptions ≫= continueFromLast) = false ->
  performSiteBackup net now fuel siteConfig batchOptions w
  = runBatch net now fuel siteConfig (default 0 (batchOptions ≫= batchOffset))
      (Z.min (default DEFAULT_BATCH_SIZE (batchOptions ≫= batchSize)) MAX_BATCH_SIZE) w.
Proof. intros Hplain. unfold performSiteBackup, resume. by rewrite Hplain. Qed.


Lemma filter_sublist {A : Type} (p : A -> bool) (l : list A) :
  List.filter p l `sublist_of` l.
Proof.
  induction l as [|x l IH]; simpl; [constructor|].
  destruct (p x); by constructor.
Qed.

Lemma slice_sublist {A : Type} (l : list A) (start stop : Z) :
  JS.slice l start stop `sublist_of` l.
Proof.
  unfold JS.slice. etrans; [apply sublist_take | apply sublist_drop].
Qed.

Lemma reported_unchanged siteId store results :
  JsonRoundTrip ->
  (forall r m, In r results -> metadata r = Some m ->
     exists previous,
       store !! latestKey siteId (getUrlHash (url r))
       = Some (JSON_stringify (metadataJson previous)) /\
       hash previous = hash m /\ normalizedHash previous = normalizedHash m) ->
  reported siteId store results = [].
Proof.
  intros Hcodec Hlatest. unfold reported.
  match goal with |- url <$> ?l = _ => assert (l = []) as -> end; [|done].
  induction results as [|r rest IH]; [done|]. cbn [List.filter].
  rewrite IH by (intros r' m' Hr'; apply Hlatest; by right).
  destruct (metadata r) as [m|] eqn:Hm; [|done].
  destruct (Hlatest r m ltac:(by left) Hm) as (previous & -> & Hhash & Hnorm).
  by rewrite changedAgainst_same_hashes.
Qed.

Lemma Forall2_member {A B : Type} (P : A -> B -> Prop) l k y :
  Forall2 P l k -> In y k -> exists x, In x l /\ P x y.
Proof.
  induction 1 as [|x y' l k Hxy _ IH]; [done|].
  intros [->|Hin]; [exists x; split; [by left | done]|].
  destruct (IH Hin) as (x' & Hx' & HP). exists x'. split; [by right | done].
Qed.

Lemma retimed_retimed now1 now2 r : retimed now2 (retimed now1 r) = retimed now2 r.
Proof. unfold retimed. cbn. by destruct (metadata r). Qed.

Lemma retimed_storable now ignorePatterns u r m :
  fetchedFrom ignorePatterns u r -> content r <> Some EmptyString ->
  metadata (retimed now r) = Some m ->
  exists text, storable (retimed now r) = Some (m, text).
Proof.
  intros [_ Hshape] Hbody Hm. unfold storable. rewrite Hm. cbn in *.
  destruct (success r).
  - destruct Hshape as (m0 & c & _ & Hc & _). rewrite Hc in *.
    exists c. unfold JS.truthy.
    destruct (String.eqb_spec c EmptyString) as [->|]; [done|done].
  - destruct Hshape as (Hnone & _). by rewrite Hnone in Hm.
Qed.

Lemma hashes_retimed now ignorePatterns urls rs :
  Forall2 (fetchedFrom ignorePatterns) urls rs ->
  hashes (retimed now <$> rs) = getUrlHash <$> urls.
Proof.
  induction 1 as [|u r urls rs [Hurl _] _ IH]; [done|].
  unfold hashes in *. rewrite !fmap_cons, IH. cbn. by rewrite Hurl.
Qed.

(** The second of two runs over the same batch finds every page it
    fetches recorded by the first. *)
Lemma second_run siteConfig allUrls batchOffset batchSize now1 now2 fuel w r1 w1 :
  JsonRoundTrip ->
  (forall now w, exists w', getUrlsToBackup net now fuel siteConfig w = Done allUrls w') ->
  NoDup (getUrlHash <$> allUrls) ->
  runBatch net now1 fuel siteConfig batchOffset batchSize w = Done r1 w1 ->
  (forall r, In r (results r1) -> content r <> Some EmptyString) ->
  exists r2 w2,
    runBatch net now2 fuel siteConfig batchOffset batchSize w1 = Done r2 w2 /\
    changedUrls r2 = [] /\
    results r2 = retimed now2 <$> results r1 /\
    totalUrls r2 = totalUrls r1.
Proof.
  intros Hcodec Hstable Hnodup Hrun1 Hbodies.
  destruct (Hstable now1 w) as [wa Hurls1]. destruct (Hstable now2 w1) as [wb Hurls2].
  destruct (JS.slice allUrls batchOffset (batchOffset + batchSize)) as [|u batch] eqn:Hbatch.
  - unfold runBatch in Hrun1 |- *.
    rewrite (bind_run _ _ _ _ _ Hurls1) in Hrun1. rewrite (bind_run _ _ _ _ _ Hurls2).
    rewrite Hbatch in Hrun1 |- *. cbn in Hrun1 |- *. injection Hrun1 as <- _.
    by do 2 eexists.
  - assert (Hconcurrency : 1 <= concurrency (fetchOptions siteConfig)).
    { destruct (Z_le_gt_dec 1 (concurrency (fetchOptions siteConfig))) as [|Hc]; [done|].
      exfalso. unfold runBatch in Hrun1.
      rewrite (bind_run _ _ _ _ _ Hurls1) in Hrun1. cbv zeta in Hrun1.
      rewrite Hbatch in Hrun1.
      apply bind_done in Hrun1 as (rs & w2 & Hfetch & _).
      unfold fetchUrlsWithConcurrency in Hfetch.
      destruct (fetchChunks_stuck net now1 (u :: batch)
                  (Z.min (concurrency (fetchOptions siteConfig)) 5)
                  (fetchOptions siteConfig) (changeThreshold siteConfig ≫= ignorePatterns)
                  ltac:(lia) ltac:(done) (length (u :: batch)) 0 [] wa ltac:(lia))
        as [w'' Hstuck].
      congruence. }
    destruct (runBatch_trace net siteConfig allUrls batchOffset batchSize)
      as (rs & extra & Hall & _ & Htrace); [by rewrite Hbatch | done |].
    rewrite Hbatch in Hall.
    destruct (Htrace now1 fuel w wa Hurls1)
      as (r & ws & w' & Hstore & Hrun & Hresults & _ & Htotal
          & _ & _ & _ & _ & _ & _ & _ & Hlatest).
    rewrite Hrun1 in Hrun. injection Hrun as <- <-.
    destruct (Htrace now2 fuel w1 wb Hurls2)
      as (r2 & ws2 & w2 & _ & Hrun2 & Hresults2 & Hchanged & Htotal2 & _).
    exists r2, w2. split; [done|]. split; [|split; [|congruence]].
    + rewrite Hchanged. apply reported_unchanged; [done|].
      intros r m Hr Hm. rewrite Hresults2 in Hr.
      apply filter_In in Hr as [Hr Hsuccess].
      apply in_map_iff in Hr as (r0 & <- & Hr0).
      destruct (Forall2_member _ _ _ _ Hall Hr0) as (u0 & _ & Hfrom).
      assert (Hstorable : allStorable (List.filter success (retimed now1 <$> rs))).
      { split.
        - apply (sublist_NoDup _ (hashes (retimed now1 <$> rs)));
            [|apply fmap_sublist, filter_sublist].
          rewrite (hashes_retimed _ _ _ _ Hall).
          apply (sublist_NoDup _ (getUrlHash <$> allUrls)); [exact Hnodup|].
          apply fmap_sublist. rewrite <- Hbatch. apply slice_sublist.
        - intros r' m' Hr' Hm'. apply filter_In in Hr' as [Hr' _].
          apply in_map_iff in Hr' as (r0' & <- & Hr0').
          destruct (Forall2_member _ _ _ _ Hall Hr0') as (u' & _ & Hfrom').
          eapply retimed_storable; [exact Hfrom'| |exact Hm'].
          intros Hempty. apply (Hbodies (retimed now1 r0')); [|exact Hempty].
          rewrite Hresults. by apply in_map. }
      destruct (storeBackups_then_unchanged now1 (id siteConfig) _ (logged wa extra)
                  Hcodec Hstorable) as (ws' & Hstore' & _ & Hwritten).
      rewrite Hstore in Hstore'. injection Hstore' as <-.
      assert (Hsuccess1 : success (retimed now1 r0) = true) by exact Hsuccess.
      destruct (metadata (retimed now1 r0)) as [m1|] eqn:Hm1; last first.
      { cbn in Hm, Hm1. destruct (metadata r0); done. }
      exists m1. split; [|split].
      * rewrite (getUrlsToBackup_keeps_other net now2 fuel siteConfig
                   (latestKey (id siteConfig) (getUrlHash (url (retimed now2 r0))))
                   ltac:(distinct_keys) _ _ _ Hurls2).
        rewrite Hlatest.
        apply (Hwritten (retimed now1 r0) m1); [|done].
        apply filter_In. split; [by apply in_map | done].
      * cbn in Hm, Hm1. destruct (metadata r0); [|done].
        injection Hm as <-. by injection Hm1 as <-.
      * cbn in Hm, Hm1. destruct (metadata r0); [|done].
        injection Hm as <-. by injection Hm1 as <-.
    + rewrite Hresults2, Hresults, <- list_fmap_compose.
      apply list_fmap_ext. intros i r _. symmetry. apply retimed_retimed.
Qed.


End Runs.
End RunFacts.

(** ** The guard of a cycle *)

Module GuardFacts.
Import BackupFetcher Steps Traffic Storage Accounting FetchFacts StoreFacts
  Retention RetentionFacts ResolutionFacts BatchFacts RunFacts.

Section Guard.
Context `{Platform}.
Variable net : Network.
Variable now : string.

Lemma hasSitemapChanged_keeps_latest siteId sitemapUrl s h :
  keeps (latestKey s h) (hasSitemapChanged net now siteId sitemapUrl).
Proof.
  unfold hasSitemapChanged. repeat step.
  all: apply recordSitemapState_keeps_other; distinct_keys.
Qed.

Lemma getFullScanState_reads siteId w j w' :
  getFullScanState siteId w = Done j w' -> w' = w.
Proof.
  intros Hrun. destruct (Machine.getFullScanState_run siteId w) as [j' Hj].
  rewrite Hj in Hrun. by injection Hrun as _ <-.
Qed.

Lemma alreadyScanned_keeps_latest siteConfig s h :
  keeps (latestKey s h) (alreadyScanned net now siteConfig).
Proof.
  unfold alreadyScanned. apply keeps_bind.
  - intros w j w' Hrun. by rewrite (getFullScanState_reads _ _ _ _ Hrun).
  - intros j. repeat step. apply hasSitemapChanged_keeps_latest.
Qed.

Lemma resume_reads siteId requested continue w x w' :
  resume siteId requested continue w = Done x w' -> w' = w.
Proof.
  unfold resume. destruct continue; [|by intros [= _ <-]].
  intros (saved & w1 & Hload & Hrun)%bind_done.
  destruct (Machine.loadBatchProgress_run siteId w) as [j Hj].
  rewrite Hj in Hload. injection Hload as <- <-.
  destruct (Js.truthy (Some j)); [|by injection Hrun as _ <-].
  destruct (Js.prop j "nextOffset") as [[]|]; by injection Hrun as _ <-.
Qed.

(** What a run reports as changed: the successful results whose hashes
    differ from the latest records the run found. *)
Lemma performSiteBackup_changed fuel siteConfig batchOptions w r w' :
  performSiteBackup net now fuel siteConfig batchOptions w = Done r w' ->
  changedUrls r = reported (id siteConfig) (kv w) (List.filter success (results r)).
Proof.
  unfold performSiteBackup.
  intros ([batchOffset had] & w1 & Hresume & Hrun)%bind_done.
  apply resume_reads in Hresume as ->.
  apply bind_done in Hrun as (skip & w2 & Hskip & Hrun).
  assert (Hsame : forall h, kv w2 !! latestKey (id siteConfig) h
                            = kv w !! latestKey (id siteConfig) h).
  { intros h. destruct (_ && _); [|by injection Hskip as _ <-].
    by eapply alreadyScanned_keeps_latest. }
  destruct skip; [by injection Hrun as <- _|].
  unfold runBatch in Hrun. apply bind_done in Hrun as (allUrls & w3 & Hurls & Hrun).
  cbv zeta in Hrun.
  destruct (JS.slice allUrls batchOffset _) as [|u batch].
  - apply bind_done in Hrun as (? & ? & _ & [= <- _]). done.
  - apply bind_done in Hrun as (rs & w4 & Hfetch & Hrun).
    apply bind_done in Hrun as (changed & w5 & Hdetect & Hrun).
    apply bind_done in Hrun as (? & ? & _ & Hrun).
    apply bind_done in Hrun as (? & ? & _ & Hrun).
    apply bind_done in Hrun as (? & ? & _ & [= <- _]).
    rewrite ChangeDetector.detectChanges_filter in Hdetect. injection Hdetect as <- _.
    apply fetchUrlsWithConcurrency_done in Hfetch as [_ Hkv].
    cbn. unfold reported. f_equal. apply List.filter_ext. intros r.
    destruct (metadata r); [|done]. f_equal.
    rewrite Hkv.
    rewrite (getUrlsToBackup_keeps_other net now fuel siteConfig
               (latestKey (id siteConfig) (getUrlHash (url r)))
               ltac:(distinct_keys) _ _ _ Hurls).
    apply Hsame.
Qed.

Lemma performSiteBackup_results fuel siteConfig batchOptions w r w' :
  performSiteBackup net now fuel siteConfig batchOptions w = Done r w' ->
  Forall (fun result =>
            fetchedFrom (changeThreshold siteConfig ≫= ignorePatterns)
              (url result) result) (results r).
Proof.
  unfold performSiteBackup.
  intros ([batchOffset had] & w1 & _ & Hrun)%bind_done.
  apply bind_done in Hrun as ([|] & w2 & _ & Hrun); [by injection Hrun as <- _|].
  unfold runBatch in Hrun. apply bind_done in Hrun as (allUrls & w3 & _ & Hrun).
  cbv zeta in Hrun.
  destruct (JS.slice allUrls batchOffset _) as [|u batch].
  - apply bind_done in Hrun as (? & ? & _ & [= <- _]). constructor.
  - apply bind_done in Hrun as (rs & w4 & Hfetch & Hrun).
    apply bind_done in Hrun as (? & ? & _ & Hrun).
    apply bind_done in Hrun as (? & ? & _ & Hrun).
    apply bind_done in Hrun as (? & ? & _ & Hrun).
    apply bind_done in Hrun as (? & ? & _ & [= <- _]).
    apply fetchUrlsWithConcurrency_done in Hfetch as [Hall _]. cbn.
    clear -Hall. induction Hall as [|u0 r0 us rs0 Hr0 _ IH]; constructor; [|done].
    destruct Hr0 as [Hurl Hshape]. split; [done|]. by rewrite Hurl.
Qed.

(** The store after a run agrees with its result: with more to do the
    progress record holds the next offset; with nothing more to do (and a
    batch run) the progress record is gone and today's full scan is
    recorded. *)
Lemma runBatch_leaves fuel siteConfig batchOffset batchSize w r w' :
  runBatch net now fuel siteConfig batchOffset batchSize w = Done r w' ->
  if hasMore r then
    kv w' !! progressKey (id siteConfig)
    = Some (JSON_stringify
              (progressJson (batchOffset + processedInBatch r) (totalUrls r) now))
  else
    kv w' !! progressKey (id siteConfig) = None /\
    kv w' !! fullScanKey (id siteConfig)
    = Some (JSON_stringify (fullScanJson (today now) now (totalUrls r))).
Proof.
  unfold runBatch. intros (allUrls & w1 & _ & Hrun)%bind_done. cbv zeta in Hrun.
  destruct (JS.slice allUrls batchOffset _) as [|u batch].
  - apply bind_done in Hrun as (? & ? & [= _ <-] & [= <- <-]). cbn.
    split; [|apply lookup_insert_eq].
    rewrite lookup_insert_ne by distinct_keys. apply lookup_delete_eq.
  - apply bind_done in Hrun as (rs & w4 & _ & Hrun).
    apply bind_done in Hrun as (? & ? & _ & Hrun).
    apply bind_done in Hrun as (? & ? & _ & Hrun).
    apply bind_done in Hrun as (? & ? & _ & Hrun).
    apply bind_done in Hrun as (? & ? & Hlast & [= <- <-]). cbn.
    destruct (_ <? _); injection Hlast as _ <-; cbn.
    + apply lookup_insert_eq.
    + split; [|apply lookup_insert_eq].
      rewrite lookup_insert_ne by distinct_keys. apply lookup_delete_eq.
Qed.

(** A continuation that finds no progress record and today's full scan
    recorded does nothing for a site without a sitemap. *)
Lemma performSiteBackup_once_a_day fuel siteConfig size completedAt total w :
  JsonRoundTrip ->
  sitemapUrl siteConfig = None ->
  kv w !! progressKey (id siteConfig) = None ->
  kv w !! fullScanKey (id siteConfig)
  = Some (JSON_stringify (fullScanJson (today now) completedAt total)) ->
  performSiteBackup net now fuel siteConfig
    (Some {| batchSize := size; batchOffset := None; continueFromLast := Some true |}) w
  = Done buildNoopResult w.
Proof.
  intros [Hparse Htext] Hsitemap Hprogress Hscan.
  rewrite Machine.performSiteBackup_starts by done.
  assert (alreadyScanned net now siteConfig w = Done true w) as Hskip.
  { unfold alreadyScanned, getFullScanState.
    erewrite bind_run; last first.
    { erewrite bind_run by (unfold KV.get; by rewrite Hscan). cbv beta iota.
      assert (JS.truthy (JSON_stringify (fullScanJson (today now) completedAt total))
              = true) as ->.
      { unfold JS.truthy.
        destruct (String.eqb_spec (JSON_stringify
                    (fullScanJson (today now) completedAt total)) EmptyString) as [He|];
          [by apply Htext in He | done]. }
      rewrite Hparse. reflexivity. }
    cbn. rewrite String.eqb_refl, Hsitemap. reflexivity. }
  by rewrite (bind_run _ _ _ _ _ Hskip).
Qed.

(** X21. [hasSitemapChanged] answers "unchanged" only after exactly one
    request, to the sitemap itself, that was answered either with status
    304 (nothing is written then), or with a 2xx status while the stored
    sitemap state parses, holds neither an ETag nor a Last-Modified
    value, and holds the hash of the body just received. *)
Theorem hasSitemapChanged_unchanged_on_304_or_same_hash (siteId sitemapUrl : string)
    (w w' : World) :
  hasSitemapChanged net now siteId sitemapUrl w = Done false w' ->
  exists request response,
    requestUrl request = sitemapUrl /\ net request = Responded response /\
    fetched w' = fetched w ++ [sitemapUrl] /\
    (status response = 304 /\ kv w' = kv w \/
     ok response = true /\
     exists text existing,
       kv w !! sitemapStateKey siteId = Some text /\
       JSON_parse text = Some existing /\
       Js.truthy (Js.prop existing "etag") = false /\
       Js.truthy (Js.prop existing "lastModified") = false /\
       Js.isString (Js.prop existing "contentHash") (calculateHash (body response))
       = true).
Proof.
  unfold hasSitemapChanged. intros (raw & w1 & [= <- <-] & Hrun)%bind_done.
  cbv zeta in Hrun.
  set (parsed := match kv w !! sitemapStateKey siteId with
                 | Some text => if JS.truthy text then JSON_parse text else Some (JObj [])
                 | None => Some (JObj [])
                 end) in Hrun.
  destruct parsed as [existing|] eqn:Hparsed; [|by injection Hrun].
  assert (Hrest : existing <> JNull -> exists request response,
             requestUrl request = sitemapUrl /\ net request = Responded response /\
             fetched w' = fetched w ++ [sitemapUrl] /\
             (status response = 304 /\ kv w' = kv w \/
              ok response = true /\
              Js.truthy (Js.prop existing "etag") = false /\
              Js.truthy (Js.prop existing "lastModified") = false /\
              Js.truthy (Js.prop existing "contentHash") = true /\
              Js.isString (Js.prop existing "contentHash")
                (calculateHash (body response)) = true)).
  { intros Hnull.
    assert (Hrun' :
      (outcome ← fetch net {| requestUrl := sitemapUrl;
                              requestHeaders :=
                                (if Js.truthy (Js.prop existing "etag")
                                 then [("If-None-Match",
                                        Js.headerText (Js.prop existing "etag"))]
                                 else [])
                                ++ (if Js.truthy (Js.prop existing "lastModified")
                                    then [("If-Modified-Since",
                                           Js.headerText (Js.prop existing "lastModified"))]
                                    else []);
                              manualRedirect := false |};
       match outcome with
       | Rejected _ => mret true
       | Responded response =>
           if status response =? 304 then mret false
           else if negb (ok response) then mret true
           else
             if negb (Js.truthy (Js.prop existing "etag"))
                && negb (Js.truthy (Js.prop existing "lastModified"))
                && Js.truthy (Js.prop existing "contentHash")
                && Js.isString (Js.prop existing "contentHash")
                     (calculateHash (body response))
             then
               KV.put (sitemapStateKey siteId)
                 (JSON_stringify
                    match existing with
                    | JObj fields => JObj (Js.setField "checkedAt" (JStr now) fields)
                    | _ => JObj [("checkedAt", JStr now)]
                    end);;
               mret false
             else
               recordSitemapState now siteId response (body response);;
               mret true
       end) w = Done false w').
    { destruct existing; try exact Hrun. done. }
    clear Hrun. apply bind_done in Hrun' as (outcome & w1 & Hfetch & Hrun).
    match type of Hfetch with fetch net ?req _ = _ => exists req end.
    injection Hfetch as <- <-.
    destruct (net _) as [response|] eqn:Hnet; [|by injection Hrun].
    exists response. split; [reflexivity|]. split; [reflexivity|].
    destruct (Z.eqb_spec (status response) 304) as [H304|_].
    - injection Hrun as <-. split; [done|]. by left.
    - destruct (ok response) eqn:Hok; [|by injection Hrun]. cbn [negb] in Hrun.
      destruct (Js.truthy (Js.prop existing "etag")); cbn [negb andb] in Hrun;
        [by apply bind_done in Hrun as (? & ? & _ & [=])|].
      destruct (Js.truthy (Js.prop existing "lastModified")); cbn [negb andb] in Hrun;
        [by apply bind_done in Hrun as (? & ? & _ & [=])|].
      destruct (Js.truthy (Js.prop existing "contentHash")); cbn [negb andb] in Hrun;
        [|by apply bind_done in Hrun as (? & ? & _ & [=])].
      destruct (Js.isString _ _) eqn:Hsame;
        [|by apply bind_done in Hrun as (? & ? & _ & [=])].
      apply bind_done in Hrun as (? & ? & [= _ <-] & [= <-]).
      split; [done|]. right. done. }
  destruct (kv w !! sitemapStateKey siteId) as [text|] eqn:Hstate.
  - destruct (JS.truthy text); subst parsed.
    + assert (Hnull : existing <> JNull) by (intros ->; by injection Hrun).
      destruct (Hrest Hnull) as (request & response & Hurl & Hnet & Hlog & Hcase).
      exists request, response. split; [done|]. split; [done|]. split; [done|].
      destruct Hcase as [?|(Hok & He & Hl & _ & Hs)]; [by left|right].
      split; [done|]. by exists text, existing.
    + injection Hparsed as <-.
      destruct (Hrest ltac:(done)) as (request & response & Hurl & Hnet & Hlog & Hcase).
      exists request, response. split; [done|]. split; [done|]. split; [done|].
      destruct Hcase as [?|(_ & _ & _ & Hc & _)]; [by left | done].
  - subst parsed. injection Hparsed as <-.
    destruct (Hrest ltac:(done)) as (request & response & Hurl & Hnet & Hlog & Hcase).
    exists request, response. split; [done|]. split; [done|]. split; [done|].
    destruct Hcase as [?|(_ & _ & _ & Hc & _)]; [by left | done].
Qed.

End Guard.
End GuardFacts.


(** ** Cycles: resuming and finishing *)

Module CycleFacts.
Import BackupFetcher Steps Traffic Storage Accounting FetchFacts StoreFacts
  Retention RetentionFacts ResolutionFacts BatchFacts RunFacts GuardFacts.

Section Cycles.
Context `{Platform}.
Variable net : Network.

Lemma filter_all {A : Type} (p : A -> bool) (l : list A) :
  (forall x, In x l -> p x = true) -> List.filter p l = l.
Proof.
  induction l as [|x l IH]; intros Hall; [done|]. cbn.
  rewrite (Hall x) by (by left). f_equal. apply IH. intros; apply Hall; by right.
Qed.

(** X17. A run that finds no latest record for the site reports every
    page it fetched successfully as changed, in the order fetched. *)
Theorem first_run_reports_every_page (now : string) (fuel : nat)
    (siteConfig : SiteConfig) (batchOptions : option BatchOptions)
    (w : World) (r : BatchedBackupResult) (w' : World) :
  (forall urlHash, kv w !! latestKey (id siteConfig) urlHash = None) ->
  performSiteBackup net now fuel siteConfig batchOptions w = Done r w' ->
  changedUrls r = url <$> List.filter success (results r).
Proof.
  intros Hnone Hrun.
  rewrite (performSiteBackup_changed net now _ _ _ _ _ _ Hrun). unfold reported.
  f_equal. apply filter_all. intros result [Hin Hsuccess]%filter_In.
  pose proof (performSiteBackup_results net now _ _ _ _ _ _ Hrun) as Hall.
  rewrite List.Forall_forall in Hall. destruct (Hall result Hin) as [_ Hshape].
  rewrite Hsuccess in Hshape. destruct Hshape as (m & c & -> & _).
  by rewrite Hnone.
Qed.

Lemma runBatch_offset now fuel siteConfig batchOffset batchSize w r w' :
  runBatch net now fuel siteConfig batchOffset batchSize w = Done r w' ->
  r_batchOffset r = batchOffset /\
  nextOffset r = (if hasMore r then Some (batchOffset + processedInBatch r) else None).
Proof.
  unfold runBatch. intros (allUrls & w1 & _ & Hrun)%bind_done. cbv zeta in Hrun.
  destruct (JS.slice allUrls batchOffset _) as [|u batch].
  - by apply bind_done in Hrun as (? & ? & _ & [= <- _]).
  - apply bind_done in Hrun as (rs & w4 & _ & Hrun).
    apply bind_done in Hrun as (? & ? & _ & Hrun).
    apply bind_done in Hrun as (? & ? & _ & Hrun).
    apply bind_done in Hrun as (? & ? & _ & Hrun).
    by apply bind_done in Hrun as (? & ? & _ & [= <- _]).
Qed.

(** X15. Save and resume: when a run reports [hasMore], its
    [nextOffset] is [batchOffset + processedInBatch] and the progress
    record it leaves holds that offset with the total and the time of the
    run; an invocation with [continueFromLast] on the store as the run
    left it (whatever offset it requests, whatever the servers answer)
    is then the batch that starts at that offset. The record is written
    with a time to live of 24 hours; its expiry is not part of the
    model. *)
Theorem interrupted_scan_resumes_where_it_stopped (now : string) (fuel : nat)
    (siteConfig : SiteConfig) (batchOptions : option BatchOptions)
    (w : World) (r : BatchedBackupResult) (w' : World) :
  JsonRoundTrip ->
  performSiteBackup net now fuel siteConfig batchOptions w = Done r w' ->
  hasMore r = true ->
  let next := r_batchOffset r + processedInBatch r in
  nextOffset r = Some next /\
  kv w' !! progressKey (id siteConfig)
  = Some (JSON_stringify (progressJson next (totalUrls r) now)) /\
  forall net' now' fuel' size requested,
    performSiteBackup net' now' fuel' siteConfig
      (Some {| batchSize := size; batchOffset := requested;
               continueFromLast := Some true |}) w'
    = runBatch net' now' fuel' siteConfig next
        (Z.min (default DEFAULT_BATCH_SIZE size) MAX_BATCH_SIZE) w'.
Proof.
  intros Hcodec Hrun Hmore. cbv zeta.
  apply Machine.performSiteBackup_result in Hrun
    as [->|(batchOffset & batchSize & w1 & Hrun)]; [done|].
  pose proof (runBatch_leaves net now _ _ _ _ _ _ _ Hrun) as Hleft.
  apply runBatch_offset in Hrun as [-> Hnext].
  rewrite Hmore in Hleft, Hnext. split; [done|]. split; [done|].
  intros net' now' fuel' size requested.
  by eapply Machine.performSiteBackup_resumes.
Qed.

Lemma resume_again siteId requested w x w' :
  resume siteId requested true w = Done x w' ->
  x = (0, false) -> resume siteId 0 true w = Done (0, false) w.
Proof.
  unfold resume. intros (saved & w1 & Hload & Hrun)%bind_done ->.
  destruct (Machine.loadBatchProgress_run siteId w) as [j Hj].
  rewrite Hj in Hload. injection Hload as <- <-.
  rewrite (bind_run _ _ _ _ _ Hj).
  destruct (Js.truthy (Some j)); [|by injection Hrun as <- _].
  destruct (Js.prop j "nextOffset") as [[]|]; done.
Qed.

Lemma alreadyScanned_same_day net' now now' siteConfig w :
  sitemapUrl siteConfig = None -> today now' = today now ->
  alreadyScanned net' now' siteConfig w = alreadyScanned net now siteConfig w.
Proof.
  intros Hsitemap Hday. unfold alreadyScanned. rewrite Hsitemap, Hday. reflexivity.
Qed.

Lemma alreadyScanned_reads now siteConfig w b w' :
  sitemapUrl siteConfig = None ->
  alreadyScanned net now siteConfig w = Done b w' -> w' = w.
Proof.
  intros Hsitemap. unfold alreadyScanned. rewrite Hsitemap.
  intros (j & w1 & Hscan & Hrun)%bind_done.
  apply getFullScanState_reads in Hscan as ->.
  destruct (Js.isString _ _); by injection Hrun as _ <-.
Qed.

(** X18. For a site without a sitemap: once a run has returned without
    [hasMore], an invocation with [continueFromLast] later the same day
    returns the no-op result, makes no request and leaves the store as it
    is, whatever the servers answer. *)
Theorem finished_scan_is_not_repeated_that_day (net' : Network)
    (now now' : string) (fuel fuel' : nat) (siteConfig : SiteConfig)
    (batchOptions : option BatchOptions) (size : option Z)
    (w : World) (r : BatchedBackupResult) (w' : World) :
  JsonRoundTrip ->
  sitemapUrl siteConfig = None ->
  performSiteBackup net now fuel siteConfig batchOptions w = Done r w' ->
  hasMore r = false ->
  today now' = today now ->
  performSiteBackup net' now' fuel' siteConfig
    (Some {| batchSize := size; batchOffset := None; continueFromLast := Some true |}) w'
  = Done buildNoopResult w'.
Proof.
  intros Hcodec Hsitemap Hrun Hmore Hday.
  unfold performSiteBackup in Hrun.
  apply bind_done in Hrun as ([batchOffset had] & w1 & Hresume & Hrun).
  pose proof (resume_reads _ _ _ _ _ _ Hresume) as ->.
  apply bind_done in Hrun as (skip & w2 & Hskip & Hrun).
  destruct skip.
  - injection Hrun as _ <-.
    destruct (default false (batchOptions ≫= continueFromLast)) eqn:Hcontinue;
      [|by injection Hskip].
    destruct had; [by injection Hskip|].
    destruct (Z.eqb_spec batchOffset 0) as [->|]; [|by injection Hskip].
    cbn [andb negb] in Hskip.
    pose proof (alreadyScanned_reads _ _ _ _ _ Hsitemap Hskip) as ->.
    unfold performSiteBackup. simpl.
    rewrite (bind_run _ _ _ _ _ (resume_again _ _ _ _ _ Hresume eq_refl)).
    rewrite <- (alreadyScanned_same_day net' now now' _ _ Hsitemap Hday) in Hskip.
    change (true && negb false && (0 =? 0)) with true. cbv iota.
    by rewrite (bind_run _ _ _ _ _ Hskip).
  - pose proof (runBatch_leaves net now _ _ _ _ _ _ _ Hrun) as Hleft.
    rewrite Hmore in Hleft. destruct Hleft as [Hprogress Hscan].
    rewrite <- Hday in Hscan.
    by eapply (performSiteBackup_once_a_day net' now').
Qed.

End Cycles.

Section Latest.
Context `{Platform}.
Variable net : Network.
Variable now : string.

Lemma storeBackups_keeps_unwritten siteId results : forall w w' k,
  storeBackups now siteId results w = Done () w' ->
  (forall r, In r results -> storable r <> None ->
             ~ In k (keysOf now siteId (getUrlHash (url r)))) ->
  kv w' !! k = kv w !! k.
Proof.
  induction results as [|r rest IH]; intros w w' k Hrun Hk.
  - by injection Hrun as <-.
  - rewrite storeBackups_cons in Hrun.
    destruct (storable r) as [[m text]|] eqn:Hstorable.
    + rewrite (IH _ _ k Hrun) by (intros r' Hr'; apply Hk; by right).
      simpl. apply recorded_other. apply Hk; [by left|]. by rewrite Hstorable.
    + apply (IH _ _ k Hrun). intros r' Hr'. apply Hk. by right.
Qed.

Lemma runBatch_latest fuel siteConfig batchOffset batchSize w r w' urlHash :
  runBatch net now fuel siteConfig batchOffset batchSize w = Done r w' ->
  (forall x, In x (results r) -> getUrlHash (url x) = urlHash ->
             success x = false \/ content x = Some EmptyString) ->
  kv w' !! latestKey (id siteConfig) urlHash = kv w !! latestKey (id siteConfig) urlHash.
Proof.
  unfold runBatch. intros (allUrls & w1 & Hurls & Hrun)%bind_done Hpage.
  rewrite <- (getUrlsToBackup_keeps_other net now fuel siteConfig
                (latestKey (id siteConfig) urlHash) ltac:(distinct_keys) _ _ _ Hurls).
  cbv zeta in Hrun.
  destruct (JS.slice allUrls batchOffset _) as [|u batch].
  - apply bind_done in Hrun as (? & ? & [= _ <-] & [= _ <-]). cbn.
    rewrite lookup_insert_ne by distinct_keys. by rewrite lookup_delete_ne by distinct_keys.
  - apply bind_done in Hrun as (rs & w2 & Hfetch & Hrun).
    apply bind_done in Hrun as (changed & w3 & Hdetect & Hrun).
    apply bind_done in Hrun as ([] & w4 & Hstore & Hrun).
    apply bind_done in Hrun as ([] & w5 & Hcleanup & Hrun).
    apply bind_done in Hrun as ([] & w6 & Hlast & [= <- <-]).
    cbn [results] in Hpage.
    apply fetchUrlsWithConcurrency_done in Hfetch as [_ Hkv2].
    rewrite ChangeDetector.detectChanges_filter in Hdetect. injection Hdetect as _ <-.
    rewrite <- Hkv2.
    rewrite <- (storeBackups_keeps_unwritten _ _ _ _ (latestKey (id siteConfig) urlHash) Hstore).
    2:{ intros x [Hx Hsuccess]%filter_In Hstorable Hin.
        assert (getUrlHash (url x) = urlHash) as Hhash.
        { unfold keysOf in Hin. simpl in Hin.
          destruct Hin as [Heq|[Heq|[Heq|[Heq|[]]]]]; revert Heq; try distinct_keys.
          unfold latestKey. intros Heq. by repeat apply (inj (String.app _)) in Heq. }
        destruct (Hpage x Hx Hhash) as [Hfail|Hempty]; [congruence|].
        apply Hstorable. unfold storable. rewrite Hempty. by destruct (metadata x). }
    assert (kv w5 !! latestKey (id siteConfig) urlHash
            = kv w4 !! latestKey (id siteConfig) urlHash) as <-.
    { destruct (batchOffset =? 0); [|by injection Hcleanup as <-].
      by eapply cleanupOldBackups_keeps_latest. }
    destruct (_ <? _); injection Hlast as <-; cbn.
    + by rewrite lookup_insert_ne by distinct_keys.
    + rewrite lookup_insert_ne by distinct_keys.
      by rewrite lookup_delete_ne by distinct_keys.
Qed.

Lemma performSiteBackup_latest fuel siteConfig batchOptions w r w' urlHash :
  performSiteBackup net now fuel siteConfig batchOptions w = Done r w' ->
  (forall x, In x (results r) -> getUrlHash (url x) = urlHash ->
             success x = false \/ content x = Some EmptyString) ->
  kv w' !! latestKey (id siteConfig) urlHash = kv w !! latestKey (id siteConfig) urlHash.
Proof.
  unfold performSiteBackup.
  intros ([batchOffset had] & w1 & Hresume & Hrun)%bind_done Hpage.
  apply resume_reads in Hresume as ->.
  apply bind_done in Hrun as (skip & w2 & Hskip & Hrun).
  assert (Hsame : kv w2 !! latestKey (id siteConfig) urlHash
                  = kv w !! latestKey (id siteConfig) urlHash).
  { destruct (_ && _); [|by injection Hskip as _ <-].
    by eapply alreadyScanned_keeps_latest. }
  rewrite <- Hsame. destruct skip; [by injection Hrun as _ <-|].
  by eapply runBatch_latest.
Qed.

(** X19. A run changes the latest record of a page only when it stores
    that page: the latest record under a URL hash is afterwards what it
    was before, unless the run fetched a page with that URL hash
    successfully and with a non-empty body. *)
Theorem run_keeps_latest_of_unstored_pages (fuel : nat) (siteConfig : SiteConfig)
    (batchOptions : option BatchOptions) (w : World) (r : BatchedBackupResult)
    (w' : World) (urlHash : string) :
  performSiteBackup net now fuel siteConfig batchOptions w = Done r w' ->
  (forall x, In x (results r) -> getUrlHash (url x) = urlHash ->
             success x = false \/ content x = Some EmptyString) ->
  kv w' !! latestKey (id siteConfig) urlHash = kv w !! latestKey (id siteConfig) urlHash.
Proof. apply performSiteBackup_latest. Qed.

(** X20. A page that answers 2xx with an empty body is never recorded:
    when a run fetches such a page and finds no latest record for it, it
    reports the page as changed and leaves it without a latest record,
    so the next run reports it again. *)
Theorem empty_page_is_reported_every_time (fuel : nat) (siteConfig : SiteConfig)
    (batchOptions : option BatchOptions) (w : World) (r : BatchedBackupResult)
    (w' : World) (page : BackupResult) :
  performSiteBackup net now fuel siteConfig batchOptions w = Done r w' ->
  In page (results r) -> success page = true -> content page = Some EmptyString ->
  (forall x, In x (results r) -> getUrlHash (url x) = getUrlHash (url page) ->
             success x = false \/ content x = Some EmptyString) ->
  kv w !! latestKey (id siteConfig) (getUrlHash (url page)) = None ->
  In (url page) (changedUrls r) /\
  kv w' !! latestKey (id siteConfig) (getUrlHash (url page)) = None.
Proof.
  intros Hrun Hin Hsuccess Hempty Hothers Hnone. split.
  - rewrite (performSiteBackup_changed net now _ _ _ _ _ _ Hrun). unfold reported.
    apply in_map. apply filter_In. split; [by apply filter_In|].
    pose proof (performSiteBackup_results net now _ _ _ _ _ _ Hrun) as Hall.
    rewrite List.Forall_forall in Hall. destruct (Hall page Hin) as [_ Hshape].
    rewrite Hsuccess in Hshape. destruct Hshape as (m & c & -> & _).
    by rewrite Hnone.
  - rewrite <- Hnone. by eapply performSiteBackup_latest.
Qed.

End Latest.
End CycleFacts.

(** ** A whole cycle of continuations *)

Module ContinuationFacts.
Import BackupFetcher Steps Accounting BatchFacts Machine.

(** The guard at the start of a cycle lets a run pass unless the store
    holds a full scan record dated today. *)
Lemma alreadyScanned_recorded `{Platform} net now siteConfig w w' :
  alreadyScanned net now siteConfig w = Done true w' ->
  exists text scan,
    kv w !! fullScanKey (id siteConfig) = Some text /\
    JSON_parse text = Some scan /\
    Js.isString (Js.prop scan "date") (today now) = true.
Proof.
  unfold alreadyScanned. intros (fullScan & w1 & Hscan & Hrun)%bind_done.
  destruct (Js.isString _ _) eqn:Hdate in Hrun; [clear Hrun|by injection Hrun].
  unfold getFullScanState in Hscan.
  apply bind_done in Hscan as (raw & w2 & Hget & Hscan).
  unfold KV.get in Hget. injection Hget as <- <-.
  destruct (kv w !! fullScanKey (id siteConfig)) as [text|] eqn:Hraw; last first.
  { injection Hscan as <- _. discriminate. }
  destruct (JS.truthy text); last first.
  { injection Hscan as <- _. discriminate. }
  injection Hscan as <- _.
  destruct (JSON_parse text) as [scan|] eqn:Hparse; [|discriminate].
  exists text, scan. split; [done|]. split; [done|].
  simpl in Hdate. by destruct scan.
Qed.

(** A batch result repeats the offset and the size it was run with. *)
Lemma runBatch_echo `{Platform} net now fuel siteConfig batchOffset batchSize w r w' :
  runBatch net now fuel siteConfig batchOffset batchSize w = Done r w' ->
  r_batchOffset r = batchOffset /\ r_batchSize r = batchSize.
Proof.
  unfold runBatch. intros (allUrls & w1 & _ & Hrun)%bind_done. revert Hrun.
  cbv zeta. destruct (JS.slice allUrls batchOffset (batchOffset + batchSize)).
  - by intros (? & ? & _ & [= <- _])%bind_done.
  - intros (rs & w2 & _ & Hrun)%bind_done.
    apply bind_done in Hrun as (? & ? & _ & Hrun).
    apply bind_done in Hrun as (? & ? & _ & Hrun).
    apply bind_done in Hrun as (? & ? & _ & Hrun).
    apply bind_done in Hrun as (? & ? & _ & [= <- _]). done.
Qed.

Lemma slice_take_drop {A : Type} (l : list A) (offset size : Z) :
  0 <= offset -> 0 <= size ->
  JS.slice l offset (offset + size) = take (Z.to_nat size) (drop (Z.to_nat offset) l).
Proof.
  intros Hoffset Hsize. unfold JS.slice, JS.relIndex.
  destruct (Z.ltb_spec offset 0), (Z.ltb_spec (offset + size) 0); try lia.
  destruct (Z_le_gt_dec offset (Z.of_nat (length l))) as [Hin|Hout].
  - rewrite (Z.min_l offset) by lia.
    destruct (Z_le_gt_dec (offset + size) (Z.of_nat (length l))).
    + rewrite Z.min_l by lia. f_equal. lia.
    + rewrite Z.min_r by lia.
      rewrite (take_ge _ (Z.to_nat size)) by (rewrite length_drop; lia).
      apply take_ge. rewrite length_drop. lia.
  - rewrite !Z.min_r by lia.
    rewrite !drop_ge by lia. by rewrite !take_nil.
Qed.

Section Continuation.
Context `{Platform}.
Variable siteConfig : SiteConfig.
Variable calls : nat -> Cycle.Call.
Variable allUrls : list string.

Hypothesis codec : JsonRoundTrip.
Hypothesis concurrent : 1 <= concurrency (fetchOptions siteConfig).
Hypothesis sized :
  forall i size, Cycle.requestedSize (calls i) = Some size -> 1 <= size.
Hypothesis stable :
  forall i w, exists w',
    getUrlsToBackup (Cycle.servers (calls i)) (Cycle.clock (calls i))
      (Cycle.depth (calls i)) siteConfig w = Done allUrls w'.

Local Abbreviation T := (count allUrls).
Local Abbreviation sizeOf i :=
  (Z.min (default DEFAULT_BATCH_SIZE (Cycle.requestedSize (calls i))) MAX_BATCH_SIZE).

(** The results of a batch are for the URLs of its slice, in order. *)
Lemma batch_urls i offset w r w' :
  0 <= offset ->
  runBatch (Cycle.servers (calls i)) (Cycle.clock (calls i))
    (Cycle.depth (calls i)) siteConfig offset (sizeOf i) w = Done r w' ->
  url <$> results r
  = take (Z.to_nat (sizeOf i)) (drop (Z.to_nat offset) allUrls).
Proof.
  intros Hoffset Hrun. pose proof (effective_size calls sized i) as Hsize.
  destruct (runBatch_echo _ _ _ _ _ _ _ _ _ Hrun) as [Ho Hs].
  apply runBatch_accounted in Hrun as (found & w1 & Hurls & Hacc);
    [|apply Z.le_min_r].
  destruct (stable i w) as (w2 & Hstable). rewrite Hstable in Hurls.
  injection Hurls as <- _.
  destruct Hacc as (_ & -> & _). rewrite Ho, Hs.
  apply slice_take_drop; lia.
Qed.

(** From saved progress inside the list, the remaining URLs are
    processed in order, each once, in as many rounds as it takes (at
    most one round per URL). *)
Lemma continues rounds : forall i offset w savedTotal savedTime,
  0 <= offset < T ->
  (Z.to_nat (T - offset) <= rounds)%nat ->
  kv w !! progressKey (id siteConfig)
  = Some (JSON_stringify (progressJson offset savedTotal savedTime)) ->
  exists rs,
    Cycle.run rounds calls i siteConfig w = Some rs /\
    Cycle.processedUrls rs = drop (Z.to_nat offset) allUrls /\
    Cycle.processed rs = T - offset /\
    Forall (fun r => totalUrls r = T) rs /\
    Z.of_nat (length rs) <= T - offset.
Proof.
  induction rounds as [|rounds IH]; intros i offset w savedTotal savedTime
    Hoffset Hrounds Hsaved; [lia|].
  cbn [Cycle.run]. unfold Cycle.invoke.
  rewrite (performSiteBackup_resumes _ _ _ _ _ _ _ _ _ _ codec Hsaved).
  destruct (batch_at siteConfig calls allUrls concurrent sized stable i offset w
              Hoffset) as (r & w' & Hrun & Htotal & Hp & Hmore & Hkv).
  pose proof (batch_urls i offset w r w' ltac:(lia) Hrun) as Hurls.
  rewrite Hrun.
  pose proof (effective_size calls sized i) as Hsize.
  rewrite Hmore.
  destruct (Z.ltb_spec (offset + Z.min (sizeOf i) (T - offset)) T) as [Hlt|Hge].
  - edestruct (IH (S i)) as (rs & -> & Hrest & Hsum & Hall & Hlen);
      [| |exact Hkv|]; [lia..|].
    eexists. split; [reflexivity|]. split; [|split; [|split]].
    + unfold Cycle.processedUrls in *. rewrite fmap_cons. cbn [concat].
      rewrite Hurls, Hrest.
      rewrite (Z.min_l (sizeOf i)) by lia. rewrite Z2Nat.inj_add by lia.
      rewrite <- drop_drop. apply take_drop.
    + rewrite processed_cons, Hsum, Hp. lia.
    + by constructor.
    + cbn [length]. lia.
  - eexists. split; [reflexivity|]. split; [|split; [|split]].
    + unfold Cycle.processedUrls. cbn. rewrite app_nil_r, Hurls.
      apply take_ge. rewrite length_drop. unfold count in *. lia.
    + rewrite processed_cons, Hp. unfold Cycle.processed. simpl. lia.
    + by repeat constructor.
    + cbn [length]. lia.
Qed.

End Continuation.

(** A batch that is not empty returns only with a fetch concurrency of
    at least 1. *)
Lemma runBatch_fetches `{Platform} net now fuel siteConfig batchOffset batchSize
    w r w' allUrls w1 :
  runBatch net now fuel siteConfig batchOffset batchSize w = Done r w' ->
  getUrlsToBackup net now fuel siteConfig w = Done allUrls w1 ->
  JS.slice allUrls batchOffset (batchOffset + batchSize) <> [] ->
  1 <= concurrency (fetchOptions siteConfig).
Proof.
  unfold runBatch. intros (found & w2 & Hurls & Hrun)%bind_done Hsame Hslice.
  rewrite Hsame in Hurls. injection Hurls as <- <-. revert Hrun. cbv zeta.
  destruct (JS.slice allUrls batchOffset (batchOffset + batchSize))
    as [|u batch]; [done|].
  intros (rs & w3 & Hfetch & _)%bind_done.
  destruct (Z_le_gt_dec 1 (concurrency (fetchOptions siteConfig))) as [|Hc]; [done|].
  unfold fetchUrlsWithConcurrency in Hfetch.
  destruct (FetchFacts.fetchChunks_stuck net now (u :: batch)
              (Z.min (concurrency (fetchOptions siteConfig)) 5)
              (fetchOptions siteConfig) (changeThreshold siteConfig ≫= ignorePatterns)
              ltac:(lia) ltac:(done) (length (u :: batch)) 0 [] w1 ltac:(lia))
    as [w'' Hstuck].
  congruence.
Qed.

(** The results of a cycle do not depend on the number of rounds it is
    given. *)
Lemma run_deterministic `{Platform} calls siteConfig : forall rounds rounds' i w rs rs',
  Cycle.run rounds calls i siteConfig w = Some rs ->
  Cycle.run rounds' calls i siteConfig w = Some rs' ->
  rs = rs'.
Proof.
  induction rounds as [|rounds IH]; intros [|rounds'] i w rs rs'; try done.
  cbn [Cycle.run]. destruct (Cycle.invoke (calls i) siteConfig w) as [r w'|]; [|done].
  destruct (hasMore r); [|congruence].
  intros (rest & Hrest & ->)%fmap_Some (rest' & Hrest' & ->)%fmap_Some.
  f_equal. by eapply IH.
Qed.

(** With a fetch concurrency of at least 1 the cycle comes to its end,
    after at most one invocation for each URL. *)
Lemma cycle_completes `{Platform} (siteConfig : SiteConfig)
    (calls : nat -> Cycle.Call) (allUrls : list string) (w0 : World) :
  JsonRoundTrip ->
  1 <= concurrency (fetchOptions siteConfig) ->
  (forall i size, Cycle.requestedSize (calls i) = Some size -> 1 <= size) ->
  (forall i w, exists w',
      getUrlsToBackup (Cycle.servers (calls i)) (Cycle.clock (calls i))
        (Cycle.depth (calls i)) siteConfig w = Done allUrls w') ->
  kv w0 !! progressKey (id siteConfig) = None ->
  exists rs,
    Cycle.run (S (length allUrls)) calls 0%nat siteConfig w0 = Some rs /\
    ((rs = [buildNoopResult] /\
      exists text scan,
        kv w0 !! fullScanKey (id siteConfig) = Some text /\
        JSON_parse text = Some scan /\
        Js.isString (Js.prop scan "date") (today (Cycle.clock (calls 0%nat))) = true)
     \/
     (Cycle.processedUrls rs = allUrls /\
      Cycle.processed rs = count allUrls /\
      Forall (fun r => totalUrls r = count allUrls) rs /\
      (length rs <= Nat.max 1 (length allUrls))%nat)).
Proof.
  intros codec concurrent sized stable Hnone.
  cbn [Cycle.run]. unfold Cycle.invoke.
  rewrite (performSiteBackup_starts _ _ _ _ _ _ Hnone).
  destruct (alreadyScanned_total (Cycle.servers (calls 0%nat))
              (Cycle.clock (calls 0%nat)) siteConfig w0) as (skip & w1 & Hskip).
  rewrite (bind_run _ _ _ _ _ Hskip).
  destruct skip.
  { eexists. split; [reflexivity|]. left. split; [done|].
    by eapply alreadyScanned_recorded. }
  clear Hskip.
  destruct (decide (count allUrls = 0)) as [Hempty|Hsome].
  - destruct (stable 0%nat w1) as (w2 & Hurls).
    destruct (runBatch_empty _ _ _ siteConfig 0
                (Z.min (default DEFAULT_BATCH_SIZE
                          (Cycle.requestedSize (calls 0%nat))) MAX_BATCH_SIZE)
                w1 allUrls w2 Hurls)
      as (r & -> & Htotal & Hp & _ & -> & Hresults).
    { destruct allUrls; [|done]. unfold JS.slice. by rewrite drop_nil, take_nil. }
    eexists. split; [reflexivity|]. right. split; [|split; [|split]].
    + unfold Cycle.processedUrls. cbn. rewrite Hresults. by destruct allUrls.
    + unfold Cycle.processed. simpl. lia.
    + by repeat constructor.
    + cbn [length]. lia.
  - assert (0 <= 0 < count allUrls) as Hinside by (unfold count in *; lia).
    destruct (batch_at siteConfig calls allUrls concurrent sized stable 0%nat 0 w1
                Hinside) as (r & w' & Hrun & Htotal & Hp & Hmore & Hkv).
    pose proof (batch_urls siteConfig calls allUrls sized stable 0%nat 0 w1 r w'
                  ltac:(lia) Hrun) as Hurls.
    rewrite Hrun.
    pose proof (effective_size calls sized 0%nat) as Hsize.
    rewrite Hmore.
    destruct (Z.ltb_spec (0 + Z.min
                (Z.min (default DEFAULT_BATCH_SIZE (Cycle.requestedSize (calls 0%nat)))
                       MAX_BATCH_SIZE) (count allUrls - 0)) (count allUrls))
      as [Hlt|Hge].
    + edestruct (continues siteConfig calls allUrls codec concurrent sized stable
                   (length allUrls) 1%nat)
        as (rs & -> & Hrest & Hsum & Hall & Hlen); [| |exact Hkv|];
        [unfold count in *; lia..|].
      eexists. split; [reflexivity|]. right. split; [|split; [|split]].
      * unfold Cycle.processedUrls in *. rewrite fmap_cons. cbn [concat].
        rewrite Hurls, Hrest. cbn [Z.to_nat drop].
        rewrite Z.add_0_l.
        rewrite (Z.min_l (Z.min (default DEFAULT_BATCH_SIZE
                                   (Cycle.requestedSize (calls 0%nat)))
                                MAX_BATCH_SIZE)) by lia.
        apply take_drop.
      * rewrite processed_cons, Hsum, Hp. lia.
      * by constructor.
      * cbn [length]. unfold count in *. lia.
    + eexists. split; [reflexivity|]. right. split; [|split; [|split]].
      * unfold Cycle.processedUrls. cbn. rewrite app_nil_r, Hurls. cbn [Z.to_nat drop].
        apply take_ge. unfold count in *. lia.
      * rewrite processed_cons, Hp. unfold Cycle.processed. simpl. lia.
      * by repeat constructor.
      * cbn [length]. lia.
Qed.


End ContinuationFacts.

(** ** Comparisons and summaries *)

Module ComparisonFacts.
Import ContentComparer Comparison Whitespace Retention.

Lemma tidy_no_other_space c l : forall b,
  tidy b l = true -> RegExp.isSpace c = true -> c <> space -> ~ In c l.
Proof.
  induction l as [|d l IH]; intros b Ht Hc Hne; [by intros []|].
  cbn [tidy] in Ht. intros [->|Hin].
  - rewrite Hc in Ht. apply andb_prop in Ht as [Ht _]. apply andb_prop in Ht as [Hd _].
    by apply Ascii.eqb_eq in Hd.
  - destruct (RegExp.isSpace d).
    + apply andb_prop in Ht as [_ Ht]. by eapply IH.
    + by eapply IH.
Qed.

Lemma free_of_list sep l : ~ In sep l -> free sep (string_of_list_ascii l) = true.
Proof.
  induction l as [|c l IH]; intros Hin; [done|]. simpl.
  rewrite IH by (intros ?; apply Hin; by right).
  destruct (Ascii.eqb_spec c sep) as [->|]; [|done]. exfalso. apply Hin. by left.
Qed.

Lemma splitAcc_free sep s : forall acc,
  free sep s = true -> Str.splitAcc sep acc s = [String.rev_app acc s].
Proof.
  induction s as [|c s IH]; intros acc Hfree; simpl; [done|].
  simpl in Hfree. apply andb_prop in Hfree as [Hc Hfree].
  apply negb_true_iff in Hc. rewrite Hc. by rewrite IH.
Qed.

Lemma split_free sep s : free sep s = true -> Str.split sep s = [s].
Proof. intros Hfree. unfold Str.split. by rewrite splitAcc_free. Qed.

Section Lines.
Context `{Platform}.

(** Normalized text holds no line break: every whitespace run became one
    space. *)
Lemma normalizeContent_one_line content ignorePatterns :
  Str.split "010" (normalizeContent content ignorePatterns)
  = [normalizeContent content ignorePatterns].
Proof.
  apply split_free. unfold normalizeContent. cbv zeta.
  fold runs tagGap. rewrite Normalization.whitespace_steps.
  apply free_of_list.
  destruct (Normalization.whitespace_settled
              (list_ascii_of_string
                 match ignorePatterns with
                 | Some patterns =>
                     foldl applyCustom
                       (foldl (fun acc pattern => RegExp.replaceAll pattern "[REDACTED]" acc)
                          (default content (minify content)) IGNORE_PATTERNS) patterns
                 | None =>
                     foldl (fun acc pattern => RegExp.replaceAll pattern "[REDACTED]" acc)
                       (default content (minify content)) IGNORE_PATTERNS
                 end)) as (Htidy & _).
  by eapply tidy_no_other_space.
Qed.

Lemma count_one_line a b :
  countAddedLines [a] [b] = (if String.eqb a b then 0 else 1) /\
  countRemovedLines [a] [b] = (if String.eqb a b then 0 else 1).
Proof.
  unfold countAddedLines, countRemovedLines, distinct, has. cbn.
  rewrite (String.eqb_sym b a).
  destruct (String.eqb a b); done.
Qed.

(** X22. [generateDiff] compares normalized texts, and a normalized
    text holds no line break: [linesAdded] and [linesRemoved] are both 1
    when the normalized texts differ and both 0 when they do not,
    however many lines the contents have. The character counts give the
    difference in length of the normalized texts, one of them being 0;
    and contents it finds unchanged are unchanged for [compareContent]
    as well. *)
Theorem generateDiff_compares_single_lines (previous current : string) :
  let d := generateDiff previous current in
  let changed := if dc_hasChanged d then 1 else 0 in
  linesAdded (diffSummary d) = changed /\
  linesRemoved (diffSummary d) = changed /\
  charsAdded (diffSummary d) - charsRemoved (diffSummary d)
  = len (currentContent d) - len (default EmptyString (previousContent d)) /\
  (charsAdded (diffSummary d) = 0 \/ charsRemoved (diffSummary d) = 0) /\
  (dc_hasChanged d = false ->
   forall u, hasChanged (compareContent u previous current None) = false).
Proof.
  unfold generateDiff. cbv zeta.
  cbn [diffSummary linesAdded linesRemoved charsAdded charsRemoved dc_hasChanged
       currentContent previousContent].
  change (default EmptyString (Some (normalizeContent previous None)))
    with (normalizeContent previous None).
  rewrite !normalizeContent_one_line.
  destruct (count_one_line (normalizeContent previous None)
              (normalizeContent current None)) as [-> ->].
  destruct (String.eqb_spec (normalizeContent previous None)
              (normalizeContent current None)) as [Heq|Hne]; cbn [negb].
  - split; [done|]. split; [done|]. split; [lia|]. split; [lia|].
    intros _ u. unfold compareContent, calculateNormalizedHash.
    cbn [hasChanged]. rewrite Heq. by rewrite String.eqb_refl.
  - split; [done|]. split; [done|]. split; [lia|]. split; [lia|]. done.
Qed.

End Lines.

Lemma pick_fold rest : forall seen u size,
  firstLargest seen u size ->
  exists u' size',
    foldl pick (Some (u, size)) rest = Some (u', size') /\
    firstLargest (seen ++ rest) u' size'.
Proof.
  induction rest as [|x rest IH]; intros seen u size Hseen; cbn [foldl].
  - exists u, size. by rewrite app_nil_r.
  - replace (seen ++ x :: rest) with ((seen ++ [x]) ++ rest) by (by rewrite <- app_assoc).
    unfold pick at 2. destruct (Z.ltb_spec size (changeSize x)) as [Hlt|Hge].
    + apply IH. exists seen, x, []. split; [done|]. split; [done|]. split; [done|].
      split; [|by intros ? []].
      destruct Hseen as (before & r & after & -> & _ & Hsize & Hbefore & Hafter).
      intros y [Hy|[->|Hy]]%in_app_or.
      * specialize (Hbefore y Hy). lia.
      * lia.
      * specialize (Hafter y Hy). lia.
    + apply IH.
      destruct Hseen as (before & r & after & -> & Hurl & Hsize & Hbefore & Hafter).
      exists before, r, (after ++ [x]). split; [by rewrite <- app_assoc|].
      split; [done|]. split; [done|]. split; [done|].
      intros y [Hy|[<-|[]]]%in_app_or; [by apply Hafter | lia].
Qed.

Lemma sum_fold (l : list DiffResult) : forall start,
  foldl (fun sum result => sum + changeSize result) start l
  = start + foldr Z.add 0 (changeSize <$> l).
Proof.
  induction l as [|x l IH]; intros start; cbn; [lia|]. rewrite IH. lia.
Qed.

(** X23. The summary of a batch of comparisons counts all results and
    the changed ones, adds up the sizes of the changed ones, and names as
    the largest change the first changed result that no changed result
    exceeds in size; there is none exactly when nothing changed. *)
Theorem summarizeChanges_first_largest (diffResults : list DiffResult) :
  let summary := summarizeChanges diffResults in
  let changed := List.filter hasChanged diffResults in
  cs_totalUrls summary = Z.of_nat (length diffResults) /\
  cs_changedUrls summary = Z.of_nat (length changed) /\
  cs_changedUrls summary <= cs_totalUrls summary /\
  totalChanges summary = foldr Z.add 0 (changeSize <$> changed) /\
  match largestChange summary with
  | Some (u, size) => firstLargest changed u size
  | None => changed = []
  end.
Proof.
  cbv zeta. unfold summarizeChanges. cbn.
  split; [done|]. split; [done|]. split.
  { pose proof (sublist_length _ _ (RunFacts.filter_sublist hasChanged diffResults)). lia. }
  split; [by rewrite sum_fold|].
  destruct (List.filter hasChanged diffResults) as [|x rest]; [done|].
  cbn [foldl]. change (pick None x) with (Some (dr_url x, changeSize x)).
  destruct (pick_fold rest [x] (dr_url x) (changeSize x)) as (u & size & -> & Hfirst).
  - exists [], x, []. repeat split; try done; by intros ? [].
  - done.
Qed.

End ComparisonFacts.

(** ** Limiting a diff *)

Module LimitFacts.
Import Diff DiffGenerator JSFacts DiffGeneratorFacts.

Section Again.
Context {A : Type} (priority : A -> Z).

Local Abbreviation byPriority := (prioritySort priority).
Local Abbreviation nonIncreasing :=
  (StronglySorted (fun x y : A => priority y <= priority x)).

Lemma sort_of_sorted l : nonIncreasing l -> JS.sort byPriority l = l.
Proof.
  induction 1 as [|x l Hs IH Hx]; [done|].
  unfold JS.sort in *. cbn [foldr]. rewrite IH.
  destruct l as [|y l]; [done|]. cbn [JS.insertBy].
  apply List.Forall_inv in Hx. unfold prioritySort.
  destruct (Z.leb_spec (priority y - priority x) 0); [done | lia].
Qed.

Lemma sorted_take n l : nonIncreasing l -> nonIncreasing (take n l).
Proof.
  intros Hs. revert n. induction Hs as [|x l Hs IH Hx]; intros [|n]; cbn;
    try constructor; [apply IH|].
  rewrite List.Forall_forall in *. intros y Hy. apply Hx.
  rewrite <- (take_drop n l). apply in_or_app. by left.
Qed.

Lemma slice_prefix (l : list A) limit :
  0 <= limit ->
  JS.slice l 0 limit = take (Z.to_nat (Z.min limit (Z.of_nat (length l)))) l.
Proof.
  intros Hl. unfold JS.slice, JS.relIndex.
  destruct (Z.ltb_spec limit 0); [lia|]. simpl.
  rewrite (Z.min_l 0) by lia. f_equal. lia.
Qed.

Lemma limitCategory_again changes limit :
  0 <= limit ->
  limitCategory priority (limitCategory priority changes limit) limit
  = limitCategory priority changes limit.
Proof.
  intros Hl. unfold limitCategory.
  rewrite (slice_prefix (JS.sort byPriority changes)) by done.
  rewrite sort_of_sorted by apply sorted_take, sort_sorted.
  rewrite slice_prefix by done. rewrite take_take. f_equal.
  rewrite length_take. lia.
Qed.
End Again.

Lemma shares_within maxChanges :
  0 <= maxChanges ->
  0 <= sixtyPercent maxChanges /\ 0 <= twentyPercent maxChanges /\
  sixtyPercent maxChanges + twentyPercent maxChanges + twentyPercent maxChanges
  <= maxChanges.
Proof.
  intros Hm. unfold sixtyPercent, twentyPercent.
  pose proof (Z.div_pos (6 * maxChanges) 10 ltac:(lia) ltac:(lia)).
  pose proof (Z.div_pos (2 * maxChanges) 10 ltac:(lia) ltac:(lia)).
  pose proof (Z.mul_div_le (6 * maxChanges) 10 ltac:(lia)).
  pose proof (Z.mul_div_le (2 * maxChanges) 10 ltac:(lia)).
  lia.
Qed.

(** X25. For a limit that is not negative, [limitChanges] returns at
    most [maxChanges] changes in all, and its summary counts exactly the
    changes it kept in each category. *)
Theorem limitChanges_within_limit (diff : DetailedDiff) (maxChanges : Z) :
  0 <= maxChanges ->
  let limited := limitChanges diff maxChanges in
  totalChanges (summary limited) <= maxChanges /\
  totalChanges (summary limited)
  = Z.of_nat (length (content (classification limited))
              + length (style (classification limited))
              + length (structure (classification limited))) /\
  contentChanges (summary limited)
  = Z.of_nat (length (content (classification limited))) /\
  styleChanges (summary limited)
  = Z.of_nat (length (style (classification limited))) /\
  structureChanges (summary limited)
  = Z.of_nat (length (structure (classification limited))).
Proof.
  intros Hm. destruct (shares_within maxChanges Hm) as (H6 & H2 & Hsum).
  cbn.
  pose proof (limitCategory_length cc_priority (content (classification diff)) _ H6).
  pose proof (limitCategory_length sc_priority (style (classification diff)) _ H2).
  pose proof (limitCategory_length tc_priority (structure (classification diff)) _ H2).
  repeat split; lia.
Qed.

(** X26. Limiting twice with the same limit (not negative) is limiting
    once: the kept changes are already sorted by priority and within
    their shares. *)
Theorem limitChanges_idempotent (diff : DetailedDiff) (maxChanges : Z) :
  0 <= maxChanges ->
  limitChanges (limitChanges diff maxChanges) maxChanges = limitChanges diff maxChanges.
Proof.
  intros Hm. destruct (shares_within maxChanges Hm) as (H6 & H2 & _).
  unfold limitChanges. cbn.
  by rewrite !limitCategory_again.
Qed.

End LimitFacts.

(** ** Examples on fetching, storing and retention *)

Module Examples.
Import BackupFetcher Sample Scenario Traffic Storage Accounting.
#[local] Existing Instance Sample.platform.

Lemma listed_resolves clock w :
  getUrlsToBackup (site firstSitemap) clock 5 listed w = Done [page1; page2] w.
Proof. vm_compute. reflexivity. Qed.

Lemma pages_distinct : NoDup (getUrlHash <$> [page1; page2]).
Proof. apply (bool_decide_unpack _). vm_compute. reflexivity. Qed.


(** That cycle takes two invocations and processes both pages: the
    record of last week does not stop it. *)
Lemma stale_scan_record_is_ignored :
  let rs := default [] (Cycle.run 2 (everyCall (site firstSitemap) (Some 1)) 0%nat
                          config lastWeek) in
  hasMore <$> rs = [true; false] /\
  processedInBatch <$> rs = [1; 1] /\
  Cycle.processedUrls rs = [page1; page2].
Proof. vm_compute. repeat split; reflexivity. Qed.

Lemma fetchUrlsWithConcurrency_one_result_per_url_witness :
  exists rs extra,
    (forall clock w,
       fetchUrlsWithConcurrency (site firstSitemap) clock [page1; page2]
         (fetchOptions config) None w
       = Done (retimed clock <$> rs) (logged w extra)) /\
    (length extra
     <= 6 * Z.to_nat (retries (fetchOptions config) + 1) * length [page1; page2])%nat /\
    Forall2 (fetchedFrom None) [page1; page2] rs /\
    url <$> rs = [page1; page2].
Proof.
  apply (FetchFacts.fetchUrlsWithConcurrency_one_result_per_url (site firstSitemap)
           [page1; page2] (fetchOptions config) None).
  simpl. lia.
Defined.

Lemma fetchUrlsWithConcurrency_stuck_without_concurrency_witness :
  (forall iterations,
     exists w',
       fetchChunks (site firstSitemap) now iterations [page1]
         0 (Z.min (concurrency noConcurrency) 5) noConcurrency None [] emptyWorld
       = Diverges w') /\
  exists w',
    fetchUrlsWithConcurrency (site firstSitemap) now [page1] noConcurrency None
      emptyWorld = Diverges w'.
Proof.
  apply (FetchFacts.fetchUrlsWithConcurrency_stuck_without_concurrency
           (site firstSitemap) now [page1] noConcurrency None emptyWorld).
  - simpl. lia.
  - discriminate.
Defined.

Lemma storeBackups_records_each_page_witness :
  exists w',
    storeBackups now "test-site" fetchedPages
      (withLatest (JSON_stringify (metadataJson stored))) = Done () w' /\
    fetched w' = fetched (withLatest (JSON_stringify (metadataJson stored))) /\
    let urlHash := getUrlHash (url (fetchedAs page1 "raw-after")) in
    kv w' !! contentKey "test-site" (today now) urlHash
    = Some "<html><body>ok</body></html>" /\
    kv w' !! metadataKey "test-site" (today now) urlHash
    = Some (JSON_stringify (metadataJson (fetchedMetadata page1 "raw-after"))) /\
    kv w' !! latestKey "test-site" urlHash
    = Some (JSON_stringify (metadataJson (fetchedMetadata page1 "raw-after"))) /\
    kv w' !! prevLatestKey "test-site" urlHash
    = match kv (withLatest (JSON_stringify (metadataJson stored)))
            !! latestKey "test-site" urlHash with
      | Some previous =>
          if JS.truthy previous then Some previous
          else kv (withLatest (JSON_stringify (metadataJson stored)))
               !! prevLatestKey "test-site" urlHash
      | None =>
          kv (withLatest (JSON_stringify (metadataJson stored)))
          !! prevLatestKey "test-site" urlHash
      end.
Proof.
  apply (StoreFacts.storeBackups_records_each_page now "test-site" fetchedPages
           (withLatest (JSON_stringify (metadataJson stored)))
           (fetchedAs page1 "raw-after") (fetchedMetadata page1 "raw-after")
           "<html><body>ok</body></html>").
  - apply pages_distinct.
  - by left.
  - reflexivity.
  - reflexivity.
  - discriminate.
Defined.

Lemma storeBackups_skips_empty_results_witness :
  storeBackups now "test-site" [failedPage; emptyPage] archive = Done () archive.
Proof.
  apply (StoreFacts.storeBackups_skips_empty_results now "test-site"
           [failedPage; emptyPage] archive).
  intros r [<-|[<-|[]]]; simpl; auto.
Defined.

Lemma stored_results_are_unchanged_witness :
  exists w',
    storeBackups now "test-site" fetchedPages emptyWorld = Done () w' /\
    forall clock,
      detectChanges "test-site" (retimed clock <$> fetchedPages) w' = Done [] w'.
Proof.
  apply (StoreFacts.stored_results_are_unchanged now "test-site" fetchedPages emptyWorld).
  - apply SampleFacts.codec_round_trip.
  - split; [apply pages_distinct|].
    intros r m [<-|[<-|[]]] [= <-]; eexists; reflexivity.
Defined.

Lemma cleanupOldBackups_keeps_recent_witness :
  let w' := stateAfter (cleanupOldBackups now "test-site" 7 archive) in
  (forall site date urlHash,
     Retention.free ":" site = true -> Retention.free ":" date = true ->
     String.ltb date (Str.isoDate (minusDays now 7)) = false ->
     kv w' !! contentKey site date urlHash = kv archive !! contentKey site date urlHash /\
     kv w' !! metadataKey site date urlHash
     = kv archive !! metadataKey site date urlHash) /\
  (forall k,
     String.prefix "backup:" k = false -> String.prefix "meta:" k = false ->
     kv w' !! k = kv archive !! k).
Proof.
  apply (RetentionFacts.cleanupOldBackups_keeps_recent now "test-site" 7 archive
           (stateAfter (cleanupOldBackups now "test-site" 7 archive))).
  vm_compute. reflexivity.
Defined.

Lemma cleanupOldBackups_deletes_expired_witness :
  exists w',
    cleanupOldBackups now "test-site" 7 archive = Done () w' /\
    kv w' !! contentKey "test-site" "2026-01-01" "abc" = None /\
    kv w' !! metadataKey "test-site" "2026-01-01" "abc" = None.
Proof.
  apply (RetentionFacts.cleanupOldBackups_deletes_expired now "test-site" 7 archive
           [contentKey "test-site" "2026-01-01" "abc";
            contentKey "test-site" "2026-02-22" "abc"] archive "2026-01-01" "abc").
  - reflexivity.
  - reflexivity.
  - vm_compute. reflexivity.
  - by left.
  - vm_compute. reflexivity.
Defined.

Lemma cleanupOldBackups_reads_third_part_witness :
  exists w',
    cleanupOldBackups now "shop:1" 7 colonArchive = Done () w' /\
    kv w' !! contentKey "shop:1" "2026-02-22" "abc"
    = if String.ltb "1" (Str.isoDate (minusDays now 7)) then None
      else kv colonArchive !! contentKey "shop:1" "2026-02-22" "abc".
Proof.
  apply (RetentionFacts.cleanupOldBackups_reads_third_part now "shop" "1" 7 colonArchive
           [contentKey "shop:1" "2026-02-22" "abc"] colonArchive "2026-02-22" "abc").
  - reflexivity.
  - reflexivity.
  - vm_compute. reflexivity.
  - by left.
Defined.

Lemma getUrlsToBackup_writes_sitemap_state_only_witness :
  let w' := stateAfter (getUrlsToBackup (site firstSitemap) now 5 config emptyWorld) in
  (forall k, k <> sitemapStateKey (id config) -> kv w' !! k = kv emptyWorld !! k) /\
  (forall u us, urls config = Some (u :: us) -> w' = emptyWorld).
Proof.
  apply (ResolutionFacts.getUrlsToBackup_writes_sitemap_state_only
           (site firstSitemap) now 5 config emptyWorld [page1; page2]
           (stateAfter (getUrlsToBackup (site firstSitemap) now 5 config emptyWorld))).
  vm_compute. reflexivity.
Defined.


Lemma interrupted_scan_resumes_where_it_stopped_witness :
  let r := default buildNoopResult (resultOf partialRun) in
  let w' := stateAfter partialRun in
  let next := r_batchOffset r + processedInBatch r in
  nextOffset r = Some next /\
  kv w' !! progressKey (id config)
  = Some (JSON_stringify (progressJson next (totalUrls r) now)) /\
  forall net' now' fuel' size requested,
    performSiteBackup net' now' fuel' config
      (Some {| batchSize := size; batchOffset := requested;
               continueFromLast := Some true |}) w'
    = runBatch net' now' fuel' config next
        (Z.min (default DEFAULT_BATCH_SIZE size) MAX_BATCH_SIZE) w'.
Proof.
  apply (CycleFacts.interrupted_scan_resumes_where_it_stopped (site firstSitemap) now 5
           config (continueWith 1) emptyWorld
           (default buildNoopResult (resultOf partialRun)) (stateAfter partialRun)).
  - apply SampleFacts.codec_round_trip.
  - vm_compute. reflexivity.
  - vm_compute. reflexivity.
Defined.


Lemma first_run_reports_every_page_witness :
  let r := default buildNoopResult (resultOf (firstRun firstSitemap)) in
  changedUrls r = url <$> List.filter success (results r).
Proof.
  apply (CycleFacts.first_run_reports_every_page (site firstSitemap) now 5 config
           (continueWith 25) emptyWorld
           (default buildNoopResult (resultOf (firstRun firstSitemap)))
           (stateAfter (firstRun firstSitemap))).
  - intros urlHash. reflexivity.
  - vm_compute. reflexivity.
Defined.

Lemma finished_scan_is_not_repeated_that_day_witness :
  performSiteBackup broken later 1 listed
    (Some {| batchSize := Some 25; batchOffset := None;
             continueFromLast := Some true |}) (stateAfter listedRun)
  = Done buildNoopResult (stateAfter listedRun).
Proof.
  apply (CycleFacts.finished_scan_is_not_repeated_that_day (site firstSitemap) broken
           now later 5 1 listed once (Some 25) emptyWorld
           (default buildNoopResult (resultOf listedRun)) (stateAfter listedRun)).
  - apply SampleFacts.codec_round_trip.
  - reflexivity.
  - vm_compute. reflexivity.
  - vm_compute. reflexivity.
  - vm_compute. reflexivity.
Defined.

Lemma run_keeps_latest_of_unstored_pages_witness :
  kv (stateAfter blankRun) !! latestKey (id listed) (getUrlHash page2)
  = kv emptyWorld !! latestKey (id listed) (getUrlHash page2).
Proof.
  apply (CycleFacts.run_keeps_latest_of_unstored_pages blankSite now 5 listed once
           emptyWorld (default buildNoopResult (resultOf blankRun)) (stateAfter blankRun)
           (getUrlHash page2)).
  - vm_compute. reflexivity.
  - intros x Hx Hhash. vm_compute in Hx. destruct Hx as [<-|[<-|[]]].
    + vm_compute in Hhash. discriminate.
    + right. reflexivity.
Defined.

Lemma empty_page_is_reported_every_time_witness :
  In (url blankPage) (changedUrls (default buildNoopResult (resultOf blankRun))) /\
  kv (stateAfter blankRun) !! latestKey (id listed) (getUrlHash (url blankPage)) = None.
Proof.
  apply (CycleFacts.empty_page_is_reported_every_time blankSite now 5 listed once
           emptyWorld (default buildNoopResult (resultOf blankRun)) (stateAfter blankRun)
           blankPage).
  - vm_compute. reflexivity.
  - vm_compute. right. left. reflexivity.
  - vm_compute. reflexivity.
  - vm_compute. reflexivity.
  - intros x Hx Hhash. vm_compute in Hx. destruct Hx as [<-|[<-|[]]].
    + vm_compute in Hhash. discriminate.
    + right. reflexivity.
  - reflexivity.
Defined.

Lemma hasSitemapChanged_unchanged_on_304_or_same_hash_witness :
  let w := stateAfter (firstRun firstSitemap) in
  exists request response,
    requestUrl request = sitemapXml /\
    site firstSitemap request = Responded response /\
    fetched (stateAfter recheck) = fetched w ++ [sitemapXml] /\
    (status response = 304 /\ kv (stateAfter recheck) = kv w \/
     ok response = true /\
     exists text existing,
       kv w !! sitemapStateKey "test-site" = Some text /\
       JSON_parse text = Some existing /\
       Js.truthy (Js.prop existing "etag") = false /\
       Js.truthy (Js.prop existing "lastModified") = false /\
       Js.isString (Js.prop existing "contentHash") (calculateHash (body response))
       = true).
Proof.
  apply (GuardFacts.hasSitemapChanged_unchanged_on_304_or_same_hash (site firstSitemap)
           later "test-site" sitemapXml (stateAfter (firstRun firstSitemap))
           (stateAfter recheck)).
  vm_compute. reflexivity.
Defined.

Lemma limitChanges_within_limit_witness :
  let limited := DiffGenerator.limitChanges manyChanges 5 in
  Diff.totalChanges (Diff.summary limited) <= 5 /\
  Diff.totalChanges (Diff.summary limited)
  = Z.of_nat (length (Diff.content (Diff.classification limited))
              + length (Diff.style (Diff.classification limited))
              + length (Diff.structure (Diff.classification limited))) /\
  Diff.contentChanges (Diff.summary limited)
  = Z.of_nat (length (Diff.content (Diff.classification limited))) /\
  Diff.styleChanges (Diff.summary limited)
  = Z.of_nat (length (Diff.style (Diff.classification limited))) /\
  Diff.structureChanges (Diff.summary limited)
  = Z.of_nat (length (Diff.structure (Diff.classification limited))).
Proof. apply (LimitFacts.limitChanges_within_limit manyChanges 5). lia. Defined.

Lemma limitChanges_idempotent_witness :
  DiffGenerator.limitChanges (DiffGenerator.limitChanges manyChanges 5) 5
  = DiffGenerator.limitChanges manyChanges 5.
Proof. apply (LimitFacts.limitChanges_idempotent manyChanges 5). lia. Defined.

End Examples.
